(** * rice: share records, peer gossip and block notification

    A shallow embedding of three source files of the pool:

    - [src/pool/task/TaskServer.ts]   (module [TaskServer])
    - [src/p2pool/p2p/shares/BaseShare.ts] (module [BaseShare])
    - [src/p2pool/p2p/Peer.ts]        (module [Peer])

    JavaScript objects that are mutated in place are modelled by explicit
    state passing; exceptions by the result type [Res]; [Map]s whose
    iteration order is observable by insertion-ordered association lists
    ([JsMap]); the other maps and sets by stdpp's [gmap] and [gset]. *)

From Stdlib Require Import ZArith Strings.Ascii Strings.Byte QArith Qcanon.
From stdpp Require Import numbers strings list fin_maps gmap.

Set Default Proof Using "Type".
Set Warnings "-clear-no-such-hyp".
Local Open Scope Z_scope.

(** ** JavaScript conventions shared by the three files *)

Module Js.

(** A call either returns or throws. *)
Inductive Exn :=
| AssertionError
| TypeError
| RangeError
| HashLinkError.

Inductive Res (A : Type) :=
| Ok (a : A)
| Throw (e : Exn).
Arguments Ok {A} a.
Arguments Throw {A} e.

Definition bind {A B} (m : Res A) (k : A → Res B) : Res B :=
  match m with
  | Ok a => k a
  | Throw e => Throw e
  end.

Definition returns {A} (m : Res A) : Prop := ∃ a, m = Ok a.

(** [!s] on a string: only the empty string is falsy. *)
Definition truthy (s : string) : bool := bool_decide (s ≠ "").

(** [a || b] on strings where [a] may be [undefined]. *)
Definition or_string (a : option string) (b : string) : string :=
  match a with
  | Some s => if truthy s then s else b
  | None => b
  end.

(** [array.forEach(f)] where [f] may throw: the first exception leaves the
    loop. *)
Fixpoint forEach {A S} (f : A → S → Res S) (l : list A) (s : S) : Res S :=
  match l with
  | [] => Ok s
  | x :: l' => bind (f x s) (forEach f l')
  end.

(** [array.aggregate(seed, f)] of the sequence extensions: a left fold. *)
Definition aggregate {A B} (l : list A) (seed : B) (f : B → A → B) : B :=
  foldl f seed l.

End Js.

(** stdpp's monad notation [x ← m; k] is used for [Js.Res]. *)
#[global] Instance Res_ret : MRet Js.Res := @Js.Ok.
#[global] Instance Res_bind : MBind Js.Res := λ A B k m, Js.bind m k.

(** Case analysis on every scrutinee of a [match] in the goal. *)
Ltac destruct_matches :=
  repeat match goal with
         | |- context [match ?x with _ => _ end] => destruct x
         end.

(** ** src/pool/task/TaskServer.ts *)

Module TaskServer.

(** What the server asks of its collaborators, in call order. *)
Inductive Call :=
| BeginWatching
| Listen
| RefreshMiningInfoAsync
| ConsoleNewBlock (hash : string)
| SendTask (height : Z).

Record TaskServer := mkTaskServer {
  lastNotifiedHash : option string;      (* [undefined] until assigned *)
  calls : list Call;
  (* the [hash] of every call of [onBlockNotifyingSocketConnected] that is
     suspended at [await this.daemonWatcher.refreshMiningInfoAsync()] *)
  awaiting : list string
}.

(** The part of [TaskServerOptions] the constructor branches on:
    [opts.blocknotifylistener && opts.blocknotifylistener.enabled]. *)
Definition constructor (blocknotifylistener_enabled : bool) : TaskServer :=
  if negb blocknotifylistener_enabled
  then mkTaskServer None [BeginWatching] []
  else mkTaskServer None [Listen] [].

Definition onPusherReady (ts : TaskServer) : TaskServer :=
  mkTaskServer (lastNotifiedHash ts) (calls ts ++ [RefreshMiningInfoAsync])
    (awaiting ts).

(** [onBlockNotifyingSocketConnected(s)] from the moment
    [await s.readAsync()] yields, up to the second [await]; [payload] is
    what [(await s.readAsync()).toString('utf8')] evaluates to. The
    refresh is invoked, and the call is suspended until it settles. *)
Definition onBlockNotifyingSocketConnected (payload : string) (ts : TaskServer)
  : TaskServer :=
  let hash := payload in
  if negb (Js.truthy hash) then ts
  else if bool_decide (lastNotifiedHash ts = Some hash) then ts
  else mkTaskServer (lastNotifiedHash ts)
         (calls ts ++ [RefreshMiningInfoAsync]) (awaiting ts ++ [hash]).

(** The rest of [onBlockNotifyingSocketConnected], entered when the
    refresh that the suspended call number [i] awaits settles: the log
    line when the refresh is fulfilled; a rejected refresh ends the call
    without it. *)
Definition onBlockNotifyingSocketConnected_resumed (i : nat) (fulfilled : bool)
    (ts : TaskServer) : TaskServer :=
  match awaiting ts !! i with
  | None => ts
  | Some hash =>
      mkTaskServer (lastNotifiedHash ts)
        (calls ts ++ (if fulfilled then [ConsoleNewBlock hash] else []))
        (delete i (awaiting ts))
  end.

#[global] Instance Call_eq_dec : EqDecision Call.
Proof. solve_decision. Defined.

(** [onTemplateUpdated(sender, template)]: the task built from the template
    is handed to the publisher; [height] is [template.height]. *)
Definition onTemplateUpdated (height : Z) (ts : TaskServer) : TaskServer :=
  mkTaskServer (lastNotifiedHash ts) (calls ts ++ [SendTask height])
    (awaiting ts).

(** How often [daemonWatcher.refreshMiningInfoAsync()] was invoked. *)
Definition refreshCount (ts : TaskServer) : nat :=
  length (filter (λ c, c = RefreshMiningInfoAsync) (calls ts)).

(** Everything that can happen to a server after construction. The
    refreshes that notifications await settle in any order, and at any
    time after they were invoked. *)
Inductive Event :=
| PusherReady
| BlockNotify (payload : string)
| RefreshSettled (i : nat) (fulfilled : bool)
| TemplateUpdated (height : Z).

#[global] Instance Event_eq_dec : EqDecision Event.
Proof. solve_decision. Defined.

Definition step (ts : TaskServer) (e : Event) : TaskServer :=
  match e with
  | PusherReady => onPusherReady ts
  | BlockNotify p => onBlockNotifyingSocketConnected p ts
  | RefreshSettled i fulfilled =>
      onBlockNotifyingSocketConnected_resumed i fulfilled ts
  | TemplateUpdated height => onTemplateUpdated height ts
  end.

Definition run (es : list Event) (ts : TaskServer) : TaskServer :=
  foldl step ts es.



End TaskServer.

(** ** Bytes, big numbers and JavaScript numbers *)

Abbreviation Buffer := (list byte).

#[global] Instance byte_eq_decision : EqDecision byte := Byte.byte_eq_dec.

Module Bytes.
Local Open Scope N_scope.

Definition byteOfN (n : N) : byte := default x00 (Byte.of_N (n mod 256)).

(** [n] bytes, least significant first. *)
Fixpoint le_encode (n : nat) (z : N) : Buffer :=
  match n with
  | O => []
  | S n' => byteOfN z :: le_encode n' (z / 256)
  end.

Fixpoint le_decode (b : Buffer) : N :=
  match b with
  | [] => 0
  | x :: b' => Byte.to_N x + 256 * le_decode b'
  end.

(** [Buffer.alloc(n, 0)] *)
Definition alloc (n : nat) : Buffer := replicate n x00.

Definition hexDigit (c : ascii) : N :=
  let n := N_of_ascii c in
  if (48 <=? n) && (n <=? 57) then n - 48
  else if (97 <=? n) && (n <=? 102) then n - 87
  else if (65 <=? n) && (n <=? 70) then n - 55
  else 0.

(** [Buffer.from(s, 'hex')] on a string of hex digit pairs. *)
Fixpoint fromHex (s : string) : Buffer :=
  match s with
  | String h (String l s') => byteOfN (16 * hexDigit h + hexDigit l) :: fromHex s'
  | _ => []
  end.

(** Cut a buffer into consecutive chunks of [size] bytes ([fuel] bounds the
    number of chunks). *)
Fixpoint chunks (fuel size : nat) (b : Buffer) : list Buffer :=
  match fuel, b with
  | O, _ | _, [] => []
  | S fuel', _ => take size b :: chunks fuel' size (drop size b)
  end.

End Bytes.

(** The [bignum] package, as far as the share code calls it. A [BigNum] read
    from a buffer is a natural number. *)
Module BigNum.
Local Open Scope N_scope.

(** [BigNum.fromBuffer(buf, { endian: 'little', size })]: the buffer is cut
    into words of [size] bytes, most significant word first, each word
    little-endian; a length that is no multiple of [size] is a
    [RangeError]. *)
Definition fromBuffer_le (size : nat) (buf : Buffer) : Js.Res N :=
  if bool_decide (length buf `mod` size ≠ 0)%nat then Js.Throw Js.RangeError
  else Js.Ok (foldl (λ acc w, acc * 2 ^ (8 * N.of_nat size) + Bytes.le_decode w) 0
                (Bytes.chunks (length buf) size buf)).

(** Number of hexadecimal digits of [z.toString(16)]. *)
Definition hexLength (z : N) : N := if z =? 0 then 1 else N.log2 z / 4 + 1.

(** [z.toBuffer({ endian: 'little', size })]: as many words of [size]
    bytes as the hexadecimal digits need (at least one), most significant
    word first, each word little-endian. *)
Definition toBuffer_le (size : nat) (z : N) : Buffer :=
  let w := 2 * N.of_nat size in
  let nwords := N.to_nat ((hexLength z + w - 1) / w) in
  concat ((λ i : nat, Bytes.le_encode size
                        ((z / 2 ^ (8 * N.of_nat size * N.of_nat i))
                         mod 2 ^ (8 * N.of_nat size)))
          <$> reverse (seq 0 nwords)).

(** A JavaScript number holding an integer: a finite double, or
    [Infinity]. *)
Inductive number :=
| Fin (z : Z)
| Infinity.

(** The nearest double of a natural number below [2^1024], ties to even:
    53 significant bits are kept. *)
Definition nearestDouble (z : Z) : Z :=
  (if z <? 2 ^ 53 then z
   else
     let e := Z.log2 z - 52 in
     let q := Z.shiftr z e in
     let r := Z.land z (Z.ones e) in
     let half := 2 ^ (e - 1) in
     let q' := if r <? half then q
               else if half <? r then q + 1
               else if Z.even q then q else q + 1 in
     Z.shiftl q' e)%Z.

(** [z.toNumber()], that is [parseInt(z.toString(), 10)]. *)
Definition toNumber (z : N) : number :=
  (if Z.of_N z <? 2 ^ 1024 - 2 ^ 970 then Fin (nearestDouble (Z.of_N z))
   else Infinity)%Z.

(** [a > t] for a finite number [t]. *)
Definition gt (a : number) (t : Z) : bool :=
  match a with
  | Fin z => (t <? z)%Z
  | Infinity => true
  end.

End BigNum.

(** ** src/p2pool/p2p/shares/BaseShare.ts *)

Module BaseShare.
Import Js.

(** *** Collaborators whose sources are outside [src/] *)

(** Modelled from the spec: [SmallBlockHeader] (version, previous-block
    hash, timestamp, nBits, nonce); its codec and hashing are fields of
    [Primitives] below. *)
Record SmallBlockHeader := mkSmallBlockHeader {
  hdrVersion : Z;
  previousBlockHash : Buffer;
  hdrTimestamp : Z;
  hdrBits : Z;
  hdrNonce : Z
}.

(** Modelled from the spec: [HashLink] (32-byte midstate, unhashed tail,
    length counter). *)
Record HashLink := mkHashLink {
  hlState : Buffer;
  hlTail : Buffer;
  hlLength : N
}.

(** Modelled from the spec: the parts of [ShareInfo] that [BaseShare]
    reads. A hash reference is a [(shareCount, txCount)] pair of
    varints. *)
Record TransactionHashRef := mkRef {
  shareCount : N;
  txCount : N
}.

Record ShareData := mkShareData {
  previousShareHash : string;
  pubkeyHash : Buffer
}.

Record MerkleLink := mkMerkleLink {
  branch : option (list Buffer);       (* [None]: the property is absent *)
  index : N
}.

Record SegwitData := mkSegwitData {
  txidMerkleLink : MerkleLink;
  wtxidMerkleRoot : Buffer
}.

Record ShareInfo := mkShareInfo {
  data : ShareData;
  transactionHashRefs : list TransactionHashRef;
  newTransactionHashes : list string;
  bits : Z;
  segwit : option SegwitData           (* [None]: [info.segwit] is undefined *)
}.

(** Modelled from the spec: [ShareInfo.extractTransactionHashRefs()] yields
    the [(shareCount, txCount)] tuples. *)
Definition extractTransactionHashRefs (info : ShareInfo)
  : list TransactionHashRef := transactionHashRefs info.

#[global] Instance TransactionHashRef_eq_dec : EqDecision TransactionHashRef.
Proof. solve_decision. Defined.

(** The [(0, txCount)] tuples of a share info, and the distinct ones. *)
Definition ownRefs (info : ShareInfo) : list TransactionHashRef :=
  filter (λ t, shareCount t = 0%N) (extractTransactionHashRefs info).

Definition distinctOwnRefs (info : ShareInfo) : list TransactionHashRef :=
  remove_dups (ownRefs info).

(** A [BufferReader] is the part of the buffer that is still unread. *)
Abbreviation BufferReader := (list byte).

(** The functions of [misc/Utils], [core/Algos], [misc/BufferReader],
    [misc/BufferWriter], [Smallblockheader], [Shareinfo] and [HashLink]
    that [BaseShare] calls. Their sources are not under [src/]; the share
    code is modelled over any implementation of them. A reading function
    returns the value read and the reader after it, or throws. *)
Class Primitives := {
  hash160ToScript : Buffer → Buffer;
  sha256d : Buffer → Buffer;
  hexFromReversedBuffer : Buffer → string;
  bitsToTarget : Z → Z;
  calculateHash : SmallBlockHeader → Buffer → Buffer;
  buildHeader : SmallBlockHeader → Buffer → Buffer;
  SmallBlockHeader_toBuffer : SmallBlockHeader → Buffer;
  SmallBlockHeader_fromBufferReader :
    BufferReader → Res (SmallBlockHeader * BufferReader);
  ShareInfo_toBuffer : ShareInfo → Buffer;
  ShareInfo_fromBufferReader :
    BufferReader → bool → Res (ShareInfo * BufferReader);
  HashLink_check : HashLink → Buffer → Buffer → Res Buffer;
  HashLink_toBuffer : HashLink → Buffer;
  HashLink_fromBufferReader : BufferReader → Res (HashLink * BufferReader);
  readList : nat → BufferReader → Res (list Buffer * BufferReader);
  writeList : list Buffer → Buffer;
  readNumber : nat → BufferReader → Res (N * BufferReader)
}.

(** What the round trip of a share asks of the readers and writers of its
    parts: the bytes a reader consumed are the bytes the writer emits for
    the value read. *)
Record CodecLaws (P : Primitives) : Prop := mkCodecLaws {
  header_roundtrip : ∀ r h r',
    SmallBlockHeader_fromBufferReader r = Ok (h, r') →
    r = SmallBlockHeader_toBuffer h ++ r';
  info_roundtrip : ∀ r segwitActivated i r',
    ShareInfo_fromBufferReader r segwitActivated = Ok (i, r') →
    r = ShareInfo_toBuffer i ++ r';
  list_roundtrip : ∀ r l r',
    readList 32 r = Ok (l, r') → r = writeList l ++ r';
  number_roundtrip : ∀ r z r',
    readNumber 8 r = Ok (z, r') → r = BigNum.toBuffer_le 8 z ++ r';
  hashLink_roundtrip : ∀ r l r',
    HashLink_fromBufferReader r = Ok (l, r') → r = HashLink_toBuffer l ++ r'
}.

(** Modelled from the spec: [BufferWriter.writeVarNumber], Bitcoin's
    compact size. *)
Definition writeVarNumber (n : N) : Buffer :=
  (if n <? 253 then [Bytes.byteOfN n]
   else if n <=? 65535 then xfd :: Bytes.le_encode 2 n
   else if n <=? 4294967295 then xfe :: Bytes.le_encode 4 n
   else xff :: Bytes.le_encode 8 n)%N.

(** Modelled from the spec: [BufferWriter.writeVarString(s, 'hex')]. *)
Definition writeVarString_hex (s : string) : Buffer :=
  let b := Bytes.fromHex s in
  writeVarNumber (N.of_nat (length b)) ++ b.

(** *** Module-level constants *)

Definition DONATION_SCRIPT : Buffer :=
  Bytes.fromHex
    "4104ffd03de44a6e11b9917f3a29f9443283d9871c9d743ef30d5eddcd37094b64d1b3d8090496b53256786bf5c82932ec23c3b74d9f05a6f95a8b5529352656664bac".

Definition GENTX_BEFORE_REFHASH : Buffer :=
  writeVarNumber (N.of_nat (length DONATION_SCRIPT))
  ++ DONATION_SCRIPT
  ++ Bytes.alloc 8
  ++ take 3 (writeVarString_hex
               ("6a28" +:+ "0000000000000000000000000000000000000000000000000000000000000000"
                +:+ "0000000000000000")).

(** *** Static configuration, set when the pool starts *)

Record Statics := mkStatics {
  SEGWIT_ACTIVATION_VERSION : Z;
  IDENTIFIER : option Buffer;                  (* declared, not initialised *)
  PowFunc : option (Buffer → Buffer);          (* declared, not initialised *)
  MAX_TARGET : Z
}.

(** The values the class declaration gives. *)
Definition defaults : Statics := mkStatics 0 None None 0.

(** *** Share variants *)

Inductive Variant :=
| Share
| NewShare.

(** [const ShareVersionMapper = { 16: Share, 17: NewShare }] *)
Definition ShareVersionMapper (version : Z) : option Variant :=
  if version =? 16 then Some Share
  else if version =? 17 then Some NewShare
  else None.

Record BaseShare := mkBaseShare {
  VERSION : Z;
  VOTING_VERSION : Z;
  SUCCESSOR : option Variant;
  MAX_BLOCK_WEIGHT : Z;
  MAX_NEW_TXS_SIZE : Z;

  minHeader : SmallBlockHeader;
  info : ShareInfo;
  refMerkleLink : list Buffer;
  lastTxoutNonce : N;
  hashLink : HashLink;
  merkleLink : list Buffer;

  (* assigned by [init()]; [None] is [undefined] *)
  hash : option string;
  previousHash : option string;
  newScript : option Buffer;
  target : option Z;
  gentxHash : option Buffer;
  newTxHashes : option (list string);
  validity : bool
}.

(** [static readonly VERSION] of the two subclasses. *)
Definition Variant_VERSION (v : Variant) : Z :=
  match v with
  | Share => 16
  | NewShare => 17
  end.

(** [new constructor()] followed by the six assignments of
    [fromBufferReader]; the fields of the declaration keep their
    initialisers. *)
Definition construct (v : Variant) (mh : SmallBlockHeader) (i : ShareInfo)
    (rml : list Buffer) (nonce : N) (hl : HashLink) (ml : list Buffer)
  : BaseShare :=
  match v with
  | Share =>
      mkBaseShare (Variant_VERSION Share) 16 (Some NewShare) 4000000 50000
        mh i rml nonce hl ml None None None None None None false
  | NewShare =>
      mkBaseShare (Variant_VERSION NewShare) 17 None 4000000 100000
        mh i rml nonce hl ml None None None None None None false
  end.

(** Field assignments [this.f = v]. *)
Definition set_newTxHashes (v : list string) (s : BaseShare) : BaseShare :=
  let '(mkBaseShare a b c d e f g h i j k l m n o p _ r) := s in
  mkBaseShare a b c d e f g h i j k l m n o p (Some v) r.
Definition set_newScript (v : Buffer) (s : BaseShare) : BaseShare :=
  let '(mkBaseShare a b c d e f g h i j k l m _ o p q r) := s in
  mkBaseShare a b c d e f g h i j k l m (Some v) o p q r.
Definition set_target (v : Z) (s : BaseShare) : BaseShare :=
  let '(mkBaseShare a b c d e f g h i j k l m n _ p q r) := s in
  mkBaseShare a b c d e f g h i j k l m n (Some v) p q r.
Definition set_gentxHash (v : Buffer) (s : BaseShare) : BaseShare :=
  let '(mkBaseShare a b c d e f g h i j k l m n o _ q r) := s in
  mkBaseShare a b c d e f g h i j k l m n o (Some v) q r.
Definition set_hash (v : string) (s : BaseShare) : BaseShare :=
  let '(mkBaseShare a b c d e f g h i j k _ m n o p q r) := s in
  mkBaseShare a b c d e f g h i j k (Some v) m n o p q r.
Definition set_previousHash (v : string) (s : BaseShare) : BaseShare :=
  let '(mkBaseShare a b c d e f g h i j k l _ n o p q r) := s in
  mkBaseShare a b c d e f g h i j k l (Some v) n o p q r.
Definition set_validity (v : bool) (s : BaseShare) : BaseShare :=
  let '(mkBaseShare a b c d e f g h i j k l m n o p q _) := s in
  mkBaseShare a b c d e f g h i j k l m n o p q v.

(** [Primitives] whose [ShareInfo] reader is always called with the segwit
    flag off. *)
Definition withoutSegwitParsing `{P : Primitives} : Primitives := {|
  hash160ToScript := hash160ToScript;
  sha256d := sha256d;
  hexFromReversedBuffer := hexFromReversedBuffer;
  bitsToTarget := bitsToTarget;
  calculateHash := calculateHash;
  buildHeader := buildHeader;
  SmallBlockHeader_toBuffer := SmallBlockHeader_toBuffer;
  SmallBlockHeader_fromBufferReader := SmallBlockHeader_fromBufferReader;
  ShareInfo_toBuffer := ShareInfo_toBuffer;
  ShareInfo_fromBufferReader := λ r _, ShareInfo_fromBufferReader r false;
  HashLink_check := HashLink_check;
  HashLink_toBuffer := HashLink_toBuffer;
  HashLink_fromBufferReader := HashLink_fromBufferReader;
  readList := readList;
  writeList := writeList;
  readNumber := readNumber
|}.

(** *** The methods of [BaseShare] *)

Section Methods.
Context `{P : Primitives}.
Variable cfg : Statics.

Definition isSegwitActivated (version : Z) : bool :=
  (SEGWIT_ACTIVATION_VERSION cfg <=? version)
  && (0 <? SEGWIT_ACTIVATION_VERSION cfg).

Definition getRefHash (shareInfo : ShareInfo) (refMerkleLink : list Buffer)
  : Res Buffer :=
  match IDENTIFIER cfg with
  | None => Throw TypeError
  | Some identifier =>
      let ref := identifier ++ ShareInfo_toBuffer shareInfo in
      Ok (aggregate refMerkleLink (sha256d ref) (λ c n, sha256d (c ++ n)))
  end.

(** The callback of the [forEach] in [init()]; [n] is the [Set<number>]. *)
Definition collectRef (tuple : TransactionHashRef) (n : gset N)
  : Res (gset N) :=
  if bool_decide (shareCount tuple < 110)%N then
    if (0 <? shareCount tuple)%N then Ok n
    else Ok (n ∪ {[ txCount tuple ]})
  else Throw AssertionError.

(** [this.hashLink.check(Buffer.concat([...]), GENTX_BEFORE_REFHASH)] *)
Definition computeGentxHash (s : BaseShare) : Res Buffer :=
  refHash ← getRefHash (info s) (refMerkleLink s);
  HashLink_check (hashLink s)
    (refHash ++ BigNum.toBuffer_le 8 (lastTxoutNonce s) ++ Bytes.alloc 4)
    GENTX_BEFORE_REFHASH.

(** [segwitActivated && this.info.segwit.txidMerkleLink.branch
     ? this.info.segwit.txidMerkleLink.branch : this.merkleLink] *)
Definition chooseLink (segwitActivated : bool) (s : BaseShare)
  : Res (list Buffer) :=
  if segwitActivated then
    match segwit (info s) with
    | None => Throw TypeError
    | Some sw =>
        match branch (txidMerkleLink sw) with
        | Some b => Ok b
        | None => Ok (merkleLink s)
        end
    end
  else Ok (merkleLink s).

Definition computeMerkleRoot (segwitActivated : bool) (gentx : Buffer)
    (s : BaseShare) : Res Buffer :=
  link ← chooseLink segwitActivated s;
  Ok (aggregate link gentx (λ c n, sha256d (c ++ n))).

(** [BigNum.fromBuffer(BaseShare.PowFunc(this.minHeader.buildHeader(merkleRoot)),
     { endian: 'little', size: 32 })] *)
Definition powInteger (s : BaseShare) (merkleRoot : Buffer) : Res N :=
  match PowFunc cfg with
  | None => Throw TypeError
  | Some powFunc =>
      BigNum.fromBuffer_le 32 (powFunc (buildHeader (minHeader s) merkleRoot))
  end.

(** [init()]: the share after the call, and what the call returned or
    threw. *)
Definition init (s : BaseShare) : BaseShare * Res bool :=
  let segwitActivated := isSegwitActivated (VERSION s) in
  match forEach collectRef (extractTransactionHashRefs (info s)) ∅ with
  | Throw e => (s, Throw e)
  | Ok n =>
    if bool_decide (size n ≠ length (newTransactionHashes (info s)))
    then (s, Ok false)
    else
      let s := set_newTxHashes (newTransactionHashes (info s)) s in
      let s := set_newScript (hash160ToScript (pubkeyHash (data (info s)))) s in
      let tgt := bitsToTarget (bits (info s)) in
      let s := set_target tgt s in
      match computeGentxHash s with
      | Throw e => (s, Throw e)
      | Ok gentx =>
        let s := set_gentxHash gentx s in
        match computeMerkleRoot segwitActivated gentx s with
        | Throw e => (s, Throw e)
        | Ok merkleRoot =>
          let headerHash := calculateHash (minHeader s) merkleRoot in
          let s := set_hash (hexFromReversedBuffer headerHash) s in
          let s := set_previousHash (previousShareHash (data (info s))) s in
          if MAX_TARGET cfg <? tgt then (s, Ok false)
          else
            match powInteger s merkleRoot with
            | Throw e => (s, Throw e)
            | Ok pow =>
              if BigNum.gt (BigNum.toNumber pow) tgt then (s, Ok false)
              else (set_validity true s, Ok true)
            end
        end
      end
  end.

Definition toBuffer (s : BaseShare) : Buffer :=
  SmallBlockHeader_toBuffer (minHeader s)
  ++ ShareInfo_toBuffer (info s)
  ++ writeList (refMerkleLink s)
  ++ BigNum.toBuffer_le 8 (lastTxoutNonce s)
  ++ HashLink_toBuffer (hashLink s)
  ++ writeList (merkleLink s).

(** [fromBufferReader(version, reader)]: [None] is [null]; the second
    component is the reader after the call. *)
Definition fromBufferReader (version : Z) (reader : BufferReader)
  : Res (option BaseShare * BufferReader) :=
  match ShareVersionMapper version with
  | None => Ok (None, reader)
  | Some constructor =>
      let VERSION_ := Variant_VERSION constructor in   (* [share.VERSION] *)
      '(minHeader_, reader) ← SmallBlockHeader_fromBufferReader reader;
      '(info_, reader) ←
         ShareInfo_fromBufferReader reader (isSegwitActivated VERSION_);
      '(refMerkleLink_, reader) ← readList 32 reader;
      '(lastTxoutNonce_, reader) ← readNumber 8 reader;
      '(hashLink_, reader) ← HashLink_fromBufferReader reader;
      '(merkleLink_, reader) ← readList 32 reader;
      let share := construct constructor minHeader_ info_ refMerkleLink_
                     lastTxoutNonce_ hashLink_ merkleLink_ in
      match init share with
      | (_, Throw e) => Throw e
      | (share, Ok _) => Ok (Some share, reader)
      end
  end.

End Methods.

End BaseShare.

(** ** src/p2pool/p2p/Peer.ts *)

(** A JavaScript [Map<string, V>] whose iteration order is observed:
    entries in insertion order. *)
Module JsMap.
Section JsMap.
Context {V : Type}.

Fixpoint get (k : string) (m : list (string * V)) : option V :=
  match m with
  | [] => None
  | (k', v) :: m' => if bool_decide (k = k') then Some v else get k m'
  end.

Definition has (k : string) (m : list (string * V)) : bool :=
  bool_decide (is_Some (get k m)).

(** [m.set(k, v)]: an existing key keeps its place. *)
Fixpoint set (k : string) (v : V) (m : list (string * V))
  : list (string * V) :=
  match m with
  | [] => [(k, v)]
  | (k', v') :: m' =>
      if bool_decide (k = k') then (k, v) :: m' else (k', v') :: set k v m'
  end.

Definition keys (m : list (string * V)) : list string := fst <$> m.
Definition values (m : list (string * V)) : list V := snd <$> m.
End JsMap.
End JsMap.

(** Modelled from the spec: the sequence extensions [any], [where] (here [where_]),
    [select], [firstOrDefault], [except], [sum] ("ordinary iteration
    combinators"; [except] keeps the entries of the left side that have no
    equal on the right side). *)
Module Linq.
Definition anyElement {A} (l : list A) : bool :=          (* [l.any()] *)
  match l with [] => false | _ => true end.
Definition any {A} (l : list A) (p : A → bool) : bool := existsb p l.
Definition where_ {A} (l : list A) (p : A → bool) : list A := List.filter p l.
Definition select {A B} (l : list A) (f : A → B) : list B := f <$> l.
Definition firstOrDefault {A} (l : list A) : option A := head l.
Definition except {A} (l r : list A) (eq : A → A → bool) : list A :=
  List.filter (λ x, negb (existsb (eq x) r)) l.
Definition sum {A} (l : list A) (f : A → Qc) : Qc :=
  foldl (λ acc x, Qcplus acc (f x)) (Q2Qc 0) l.
End Linq.

Module Peer.

(** [TransactionTemplate] of [core/DaemonWatcher]: [{ txid, hash, data }],
    [data] in hex; [txid] may be absent. *)
Record TransactionTemplate := mkTemplate {
  txid : option string;
  hash : string;
  data : string
}.

#[global] Instance TransactionTemplate_eq_dec : EqDecision TransactionTemplate.
Proof. solve_decision. Defined.

(** [tx.txid || tx.hash] *)
Definition txKey (tx : TransactionTemplate) : string :=
  Js.or_string (txid tx) (hash tx).

(** [Transaction] of bitcoinjs-lib, as far as the coordinator calls it.
    Modelled from the spec ("map<hash, Transaction>"): [getHash] gives
    the hash as a string, compared by value like the hashes that arrive
    in [txHashes]. Where the library hands out a [Buffer], a [Map]
    compares it by identity; so the exact outcome of [handleRemember_tx]
    is stated below for messages that carry no transactions. *)
Class Bitcoinjs := {
  Transaction : Type;
  Transaction_fromHex : string → Transaction;
  toHex : Transaction → string;
  getHash : Transaction → string
}.

(** The commands a node is asked to send. *)
Inductive Command :=
| Version
| Have_tx (hashes : list string)
| Losing_tx (hashes : list string)
| Remember_tx (hashes : list string) (txs : list TransactionTemplate)
| Forget_tx (hashes : list string) (totalSize : Qc).

Section Coordinator.
Context `{B : Bitcoinjs}.

(** Modelled from the spec: [Node], one peer endpoint, with its tag, its
    remembered transactions, the hashes the remote advertised, the
    commands it was asked to send (in order), and whether it was
    closed. *)
Record Node := mkNode {
  tag : string;
  rememberedTxs : gmap string Transaction;
  remoteTxHashs : gset string;
  sent : list Command;
  closed : bool
}.

Definition newNode (t : string) : Node := mkNode t ∅ ∅ [] false.

(** [node.sendXAsync(...)] *)
Definition send (c : Command) (n : Node) : Node :=
  mkNode (tag n) (rememberedTxs n) (remoteTxHashs n) (sent n ++ [c]) (closed n).

(** [node.rememberedTxs.set(hash, tx)] *)
Definition remember (h : string) (tx : Transaction) (n : Node) : Node :=
  mkNode (tag n) (<[h := tx]> (rememberedTxs n)) (remoteTxHashs n) (sent n)
    (closed n).

Definition markClosed (n : Node) : Node :=
  mkNode (tag n) (rememberedTxs n) (remoteTxHashs n) (sent n) true.

(** The coordinator. [Node] objects are shared between the [peers] map
    and the handlers' [sender] argument, so they live in a store
    ([heap]) and are named by reference. *)
Record Peer := mkPeer {
  heap : gmap nat Node;
  peers : gmap string nat;                              (* ip:port -> Node *)
  knownTxs : list (string * TransactionTemplate);
  knownTxsCaches : list (gmap string TransactionTemplate);
  miningTxs : list (string * TransactionTemplate);
  (* the [sender] of every call of [handleNodeVersion] that is suspended
     at [await sender.sendHave_txAsync(...)] *)
  handshakes : list nat
}.

(** The state the field initialisers give. *)
Definition initial : Peer := mkPeer ∅ ∅ [] [] [] [].

Definition set_heap (h : gmap nat Node) (st : Peer) : Peer :=
  mkPeer h (peers st) (knownTxs st) (knownTxsCaches st) (miningTxs st)
    (handshakes st).
Definition set_peers (p : gmap string nat) (st : Peer) : Peer :=
  mkPeer (heap st) p (knownTxs st) (knownTxsCaches st) (miningTxs st)
    (handshakes st).
Definition set_knownTxs (m : list (string * TransactionTemplate)) (st : Peer)
  : Peer :=
  mkPeer (heap st) (peers st) m (knownTxsCaches st) (miningTxs st)
    (handshakes st).
Definition set_knownTxsCaches (c : list (gmap string TransactionTemplate))
    (st : Peer) : Peer :=
  mkPeer (heap st) (peers st) (knownTxs st) c (miningTxs st) (handshakes st).
Definition set_miningTxs (m : list (string * TransactionTemplate)) (st : Peer)
  : Peer :=
  mkPeer (heap st) (peers st) (knownTxs st) (knownTxsCaches st) m
    (handshakes st).
Definition set_handshakes (l : list nat) (st : Peer) : Peer :=
  mkPeer (heap st) (peers st) (knownTxs st) (knownTxsCaches st) (miningTxs st) l.

(** A method call on the object behind a reference. *)
Definition updNode (r : nat) (f : Node → Node) (st : Peer) : Peer :=
  set_heap (alter f r (heap st)) st.

(** [this.peers.forEach(p => f(p))]: every registered node object is
    visited (a node is registered under its own tag, hence once). *)
Definition forEachPeer (f : Node → Node) (st : Peer) : Peer :=
  set_heap
    (map_imap (λ r n,
       Some (if bool_decide (r ∈ (map_img (peers st) : gset nat))
             then f n else n)) (heap st))
    st.

(** The [onEnd] handler that [initNode] installs:
    [this.peers.delete(sender.tag)]. *)
Definition onEnd (sender : nat) (st : Peer) : Peer :=
  match heap st !! sender with
  | Some n => set_peers (delete (tag n) (peers st)) st
  | None => st
  end.

(** Modelled from the spec: [Node.close(fatal)] closes the socket, which
    ends the node: the [end] handlers run. *)
Definition close (sender : nat) (st : Peer) : Peer :=
  onEnd sender (updNode sender markClosed st).

(** [initNode(node)]; the three handlers it installs are [handleNodeVersion],
    [handleRemember_tx] and [onEnd] below. *)
Definition initNode (r : nat) (st : Peer) : Peer :=
  match heap st !! r with
  | Some n => set_peers (<[tag n := r]> (peers st)) st
  | None => st
  end.

(** [onSocketConnected(s)] and one round of [initPeersAsync]: a new
    [Node] object for the socket with tag [t]. *)
Definition onSocketConnected (t : string) (st : Peer) : Peer :=
  let r := fresh (dom (heap st)) in
  initNode r (set_heap (<[r := send Version (newNode t)]> (heap st)) st).

(** [handleNodeVersion(sender, version)] up to its first [await]:
    [have_tx] with the keys of [knownTxs] goes out, and the call is
    suspended until that send settles. *)
Definition handleNodeVersion (sender : nat) (st : Peer) : Peer :=
  set_handshakes (handshakes st ++ [sender])
    (updNode sender (send (Have_tx (JsMap.keys (knownTxs st)))) st).

(** The rest of [handleNodeVersion], entered when the send that the
    suspended call number [i] awaits settles: [remember_tx] with the
    values [miningTxs] holds by then; a rejected send ends the call
    without it. *)
Definition handleNodeVersion_resumed (i : nat) (fulfilled : bool) (st : Peer)
  : Peer :=
  match handshakes st !! i with
  | None => st
  | Some sender =>
      let st := set_handshakes (delete i (handshakes st)) st in
      if fulfilled
      then updNode sender
             (send (Remember_tx [] (JsMap.values (miningTxs st)))) st
      else st
  end.

(** *** Change handlers of the two observable maps *)

Definition sameKey (a b : string * TransactionTemplate) : bool :=
  bool_decide (a.1 = b.1).

(** [removed.select(hash => { hash, tx: oldValue.get(hash) })
           .toMap(item => item.hash, item => item.tx)] *)
Definition snapshot (oldValue : list (string * TransactionTemplate))
    (removed : list string) : gmap string TransactionTemplate :=
  foldl (λ m h, match JsMap.get h oldValue with
                | Some tx => <[h := tx]> m
                | None => m
                end) ∅ removed.

Definition removedKeys (oldValue newValue : list (string * TransactionTemplate))
  : list string :=
  Linq.select (Linq.except oldValue newValue sameKey) fst.

Definition onKnownTxsChanged
    (oldValue newValue : list (string * TransactionTemplate)) (st : Peer)
  : Peer :=
  let added := Linq.select (Linq.except newValue oldValue sameKey) fst in
  let removed := removedKeys oldValue newValue in
  let st := if Linq.anyElement added
            then forEachPeer (send (Have_tx added)) st else st in
  let st := if Linq.anyElement removed
            then forEachPeer (send (Losing_tx removed)) st else st in
  let st := set_knownTxsCaches
              (knownTxsCaches st ++ [snapshot oldValue removed]) st in
  if bool_decide (10 < length (knownTxsCaches st))%nat
  then set_knownTxsCaches (tail (knownTxsCaches st)) st
  else st.

(** [removed.sum(item => item.data.length / 2)]; string lengths and
    their halves are exact in JavaScript numbers. *)
Definition halfLength (item : TransactionTemplate) : Qc :=
  Qcdiv (Q2Qc (inject_Z (Z.of_nat (String.length (data item))))) (Q2Qc 2).

(** [oldValue.except(newValue, ([k1, v1], [k2, v2]) => k1 === k2)
             .select(item => item[1]).toArray()] *)
Definition removedTemplates
    (oldValue newValue : list (string * TransactionTemplate))
  : list TransactionTemplate :=
  Linq.select (Linq.except oldValue newValue sameKey) snd.

Definition onMiningTxsChanged
    (oldValue newValue : list (string * TransactionTemplate)) (st : Peer)
  : Peer :=
  let added := Linq.select (Linq.except newValue oldValue sameKey) snd in
  let removed := removedTemplates oldValue newValue in
  let st :=
    if Linq.anyElement added
    then forEachPeer (λ p,
           send (Remember_tx
                   (Linq.select
                      (Linq.where_ added
                         (λ tx, bool_decide (txKey tx ∈ remoteTxHashs p)))
                      txKey)
                   (Linq.where_ added
                      (λ tx, negb (bool_decide (txKey tx ∈ remoteTxHashs p)))))
                p) st
    else st in
  if Linq.anyElement removed
  then
    let totalSize := Linq.sum removed halfLength in
    forEachPeer (send (Forget_tx (Linq.select removed txKey) totalSize)) st
  else st.

(** Modelled from the spec: [Property.set(v)] of [nodejs/Property]
    stores the value and runs the change listener synchronously with the
    old and the new value. *)
Definition knownTxs_set (v : list (string * TransactionTemplate)) (st : Peer)
  : Peer :=
  onKnownTxsChanged (knownTxs st) v (set_knownTxs v st).

Definition miningTxs_set (v : list (string * TransactionTemplate)) (st : Peer)
  : Peer :=
  onMiningTxsChanged (miningTxs st) v (set_miningTxs v st).

(** *** [remember_tx] from a peer *)

(** [sender.rememberedTxs] *)
Definition rememberedOf (st : Peer) (sender : nat) : gmap string Transaction :=
  default ∅ (rememberedTxs <$> heap st !! sender).

(** [this.knownTxs.value.get(hash)
     || this.knownTxsCaches.where(cache => cache.has(hash))
            .select(cache => cache.get(hash)).firstOrDefault()];
    [knownTxsCaches] is listed from index 0. *)
Definition lookupKnownTx (st : Peer) (hash : string)
  : option TransactionTemplate :=
  match JsMap.get hash (knownTxs st) with
  | Some tx => Some tx
  | None =>
      match Linq.firstOrDefault
              (Linq.select
                 (Linq.where_ (knownTxsCaches st)
                    (λ cache, bool_decide (is_Some (cache !! hash))))
                 (λ cache, cache !! hash)) with
      | Some (Some tx) => Some tx
      | _ => None
      end
  end.

(** The same lookup as the specification words it: [knownTxs], then the
    snapshots of [knownTxsCaches], the most recent one first (the last
    one pushed is at the end of the array). *)
Definition lookupKnownTx_mostRecentFirst (st : Peer) (hash : string)
  : option TransactionTemplate :=
  match JsMap.get hash (knownTxs st) with
  | Some tx => Some tx
  | None => head (omap (λ cache, cache !! hash) (reverse (knownTxsCaches st)))
  end.

(** The sender was closed and is no longer registered. *)
Definition disconnected (sender : nat) (st : Peer) : Prop :=
  ∃ n, heap st !! sender = Some n
       ∧ closed n = true
       ∧ peers st !! tag n = None.

(** The loop over [txHashes]; [rest] is what is left to iterate. The
    result says whether the loop ran to its end ([false]: the handler
    returned from inside it). *)
Fixpoint rememberHashes (sender : nat) (txHashes rest : list string)
    (st : Peer) : Peer * bool :=
  match rest with
  | [] => (st, true)
  | hash :: rest' =>
      if Linq.any txHashes
           (λ hash, bool_decide (is_Some (rememberedOf st sender !! hash)))
      then (close sender st, false)
      else
        match lookupKnownTx st hash with
        | None => (close sender st, false)
        | Some knownTx =>
            rememberHashes sender txHashes rest'
              (updNode sender
                 (remember hash (Transaction_fromHex (data knownTx))) st)
        end
  end.

(** The loop over [txs], filling the working copy [knownTxs]. *)
Fixpoint rememberTxs (sender : nat) (txs : list Transaction)
    (knownTxs : list (string * TransactionTemplate)) (st : Peer)
  : Peer * option (list (string * TransactionTemplate)) :=
  match txs with
  | [] => (st, Some knownTxs)
  | tx :: txs' =>
      let txHash := getHash tx in
      if bool_decide (is_Some (rememberedOf st sender !! txHash))
      then (close sender st, None)
      else
        rememberTxs sender txs'
          (JsMap.set txHash (mkTemplate (Some txHash) txHash (toHex tx)) knownTxs)
          (updNode sender (remember txHash tx) st)
  end.

Definition handleRemember_tx (sender : nat) (txHashes : list string)
    (txs : list Transaction) (st : Peer) : Peer :=
  match rememberHashes sender txHashes txHashes st with
  | (st, false) => st
  | (st, true) =>
      match rememberTxs sender txs (knownTxs st) st with
      | (st, None) => st
      | (st, Some knownTxs) => knownTxs_set knownTxs st
      end
  end.

(** [updateGbt(template)]; [transactions] is [template.transactions]. *)
Definition updateGbt (transactions : list TransactionTemplate) (st : Peer)
  : Peer :=
  let miningTxs := foldl (λ m tx, JsMap.set (txKey tx) tx m) [] transactions in
  let knownTxs :=
    foldl (λ m tx, JsMap.set (txKey tx) tx m) (knownTxs st) transactions in
  knownTxs_set knownTxs (miningTxs_set miningTxs st).

(** *** The coordinator as a transition system *)

(** What can happen to the coordinator. The sends that handshakes await
    settle in any order, and at any time after they went out. *)
Inductive Event :=
| SocketConnected (t : string)
| VersionVerified (sender : nat)
| Have_txSent (i : nat) (fulfilled : bool)
| Remember_txReceived (sender : nat) (hashes : list string)
    (txs : list Transaction)
| Ended (sender : nat)
| GbtUpdated (transactions : list TransactionTemplate).

Definition step (st : Peer) (e : Event) : Peer :=
  match e with
  | SocketConnected t => onSocketConnected t st
  | VersionVerified sender => handleNodeVersion sender st
  | Have_txSent i fulfilled => handleNodeVersion_resumed i fulfilled st
  | Remember_txReceived sender hashes txs =>
      handleRemember_tx sender hashes txs st
  | Ended sender => onEnd sender st
  | GbtUpdated transactions => updateGbt transactions st
  end.

Definition run (es : list Event) (st : Peer) : Peer := foldl step st es.

(** *** Relating a state to a later one *)

(** [n'] is the node object [n] later on: the same tag, and commands of
    kind [ok] appended to what it had been asked to send. *)
Definition nodeLater (ok : Command → Prop) (n n' : Node) : Prop :=
  tag n' = tag n ∧ ∃ cs, sent n' = sent n ++ cs ∧ Forall ok cs.

(** [st'] holds the node objects of [st], each one later on, and no node
    was registered in between. *)
Definition later (ok : Command → Prop) (st st' : Peer) : Prop :=
  dom (heap st') = dom (heap st)
  ∧ peers st' ⊆ peers st
  ∧ ∀ r n, heap st !! r = Some n →
           ∃ n', heap st' !! r = Some n' ∧ nodeLater ok n n'.

Definition notLosing_tx (c : Command) : Prop :=
  match c with
  | Losing_tx _ => False
  | _ => True
  end.

(** Every key of [m] is a key of [m']. *)
Definition keysKept (m m' : list (string * TransactionTemplate)) : Prop :=
  ∀ k, JsMap.has k m = true → JsMap.has k m' = true.

(** [peers[n.tag] == n] for every registered node, and every node object
    was first asked to send its version. *)
Definition registryConsistent (st : Peer) : Prop :=
  (∀ t r, peers st !! t = Some r → ∃ n, heap st !! r = Some n ∧ tag n = t)
  ∧ (∀ r n, heap st !! r = Some n → head (sent n) = Some Version).

(** Successive assignments to the [knownTxs] observable. *)
Definition knownTxs_sets (vs : list (list (string * TransactionTemplate)))
    (st : Peer) : Peer :=
  foldl (λ st v, knownTxs_set v st) st vs.

(** The snapshots these assignments push, oldest first. *)
Fixpoint snapshots (current : list (string * TransactionTemplate))
    (vs : list (list (string * TransactionTemplate)))
  : list (gmap string TransactionTemplate) :=
  match vs with
  | [] => []
  | v :: vs' => snapshot current (removedKeys current v) :: snapshots v vs'
  end.

End Coordinator.
End Peer.

(** ** A small implementation of the collaborators

    The share code above is parametric in [BaseShare.Primitives]. To run it
    on concrete inputs this module supplies one implementation: fixed-layout
    readers and writers, the standard pay-to-pubkey-hash script and compact
    target, and a stand-in digest where the pool uses SHA-256 (the hash
    functions themselves are outside the model). *)
Module Reference.
Import Js BaseShare.
Local Open Scope N_scope.

(** [reader.read(n)]: the next [n] bytes; a short buffer is a
    [RangeError]. *)
Definition readBytes (n : nat) (r : BufferReader) : Res (Buffer * BufferReader) :=
  if bool_decide (length r < n)%nat then Throw RangeError
  else Ok (take n r, drop n r).

(** Modelled from the spec: [reader.readNumber(n)], a little-endian
    integer of [n] bytes as a big integer. *)
Definition readNumber (n : nat) (r : BufferReader) : Res (N * BufferReader) :=
  '(b, r) ← readBytes n r;
  Ok (Bytes.le_decode b, r).

Fixpoint readItems (count size : nat) (r : BufferReader)
  : Res (list Buffer * BufferReader) :=
  match count with
  | O => Ok ([], r)
  | S count' =>
      '(x, r) ← readBytes size r;
      '(xs, r) ← readItems count' size r;
      Ok (x :: xs, r)
  end.

(** Modelled from the spec: [reader.readList(size)], a compact-size count
    followed by that many items of [size] bytes. This reader takes the
    one-byte counts (below 253) only. *)
Definition readList (size : nat) (r : BufferReader)
  : Res (list Buffer * BufferReader) :=
  match r with
  | [] => Throw RangeError
  | c :: r' =>
      if Byte.to_N c <? 253 then readItems (N.to_nat (Byte.to_N c)) size r'
      else Throw RangeError
  end.

(** Modelled from the spec: [BufferWriter.writeList], the dual. *)
Definition writeList (l : list Buffer) : Buffer :=
  writeVarNumber (N.of_nat (length l)) ++ concat l.

Definition SmallBlockHeader_toBuffer (h : SmallBlockHeader) : Buffer :=
  Bytes.le_encode 4 (Z.to_N (hdrVersion h))
  ++ previousBlockHash h
  ++ Bytes.le_encode 4 (Z.to_N (hdrTimestamp h))
  ++ Bytes.le_encode 4 (Z.to_N (hdrBits h))
  ++ Bytes.le_encode 4 (Z.to_N (hdrNonce h)).

Definition SmallBlockHeader_fromBufferReader (r : BufferReader)
  : Res (SmallBlockHeader * BufferReader) :=
  '(v, r) ← readNumber 4 r;
  '(p, r) ← readBytes 32 r;
  '(t, r) ← readNumber 4 r;
  '(b, r) ← readNumber 4 r;
  '(n, r) ← readNumber 4 r;
  Ok (mkSmallBlockHeader (Z.of_N v) p (Z.of_N t) (Z.of_N b) (Z.of_N n), r).

(** The 80-byte header: version, previous block, Merkle root, time, bits,
    nonce. *)
Definition buildHeader (h : SmallBlockHeader) (merkleRoot : Buffer) : Buffer :=
  Bytes.le_encode 4 (Z.to_N (hdrVersion h))
  ++ previousBlockHash h
  ++ merkleRoot
  ++ Bytes.le_encode 4 (Z.to_N (hdrTimestamp h))
  ++ Bytes.le_encode 4 (Z.to_N (hdrBits h))
  ++ Bytes.le_encode 4 (Z.to_N (hdrNonce h)).

(** A stand-in for double SHA-256: 32 bytes computed from the input. *)
Definition digest (b : Buffer) : Buffer :=
  Bytes.le_encode 32 ((31 * Bytes.le_decode b + N.of_nat (length b)) mod 2 ^ 256).

(** [OP_DUP OP_HASH160 <push 20> h OP_EQUALVERIFY OP_CHECKSIG] *)
Definition hash160ToScript (h : Buffer) : Buffer :=
  [x76; xa9; x14] ++ h ++ [x88; xac].

Definition hexChar (n : N) : ascii :=
  ascii_of_N (if n <? 10 then 48 + n else 87 + n).

Fixpoint toHex (b : Buffer) : string :=
  match b with
  | [] => ""
  | x :: b' =>
      String (hexChar (Byte.to_N x / 16))
        (String (hexChar (Byte.to_N x mod 16)) (toHex b'))
  end.

Definition hexFromReversedBuffer (b : Buffer) : string := toHex (reverse b).

(** The compact target: a 23-bit mantissa scaled by [256^(exponent - 3)]. *)
Definition bitsToTarget (bits : Z) : Z :=
  (Z.land bits 8388607 * 2 ^ (8 * (Z.shiftr bits 24 - 3)))%Z.

Definition HashLink_toBuffer (l : HashLink) : Buffer :=
  hlState l
  ++ Bytes.le_encode 8 (hlLength l)
  ++ writeVarNumber (N.of_nat (length (hlTail l))) ++ hlTail l.

Definition HashLink_fromBufferReader (r : BufferReader)
  : Res (HashLink * BufferReader) :=
  '(st, r) ← readBytes 32 r;
  '(len, r) ← readNumber 8 r;
  match r with
  | [] => Throw RangeError
  | c :: r' =>
      if Byte.to_N c <? 253 then
        '(tl, r) ← readBytes (N.to_nat (Byte.to_N c)) r';
        Ok (mkHashLink st tl len, r)
      else Throw RangeError
  end.

(** Modelled from the spec: [HashLink.check(suffix, expectedPrefix)] fails
    unless the stored length minus the tail length plus the prefix length
    is a multiple of 64; otherwise it returns the digest of the resumed
    stream. *)
Definition HashLink_check (l : HashLink) (suffix expectedPrefix : Buffer)
  : Res Buffer :=
  if bool_decide
       ((Z.of_N (hlLength l) - Z.of_nat (length (hlTail l))
         + Z.of_nat (length expectedPrefix)) `mod` 64 ≠ 0)%Z
  then Throw HashLinkError
  else Ok (digest (hlState l ++ hlTail l ++ suffix)).

(** One fixed [ShareInfo], and a codec that knows this value only: it is
    written as the byte [00]. *)
Definition someInfo : ShareInfo :=
  mkShareInfo
    (mkShareData "00000000000000000000000000000000000000000000000000000000000000aa"
       (Bytes.alloc 20))
    [mkRef 0 0; mkRef 3 7; mkRef 0 1; mkRef 0 0]
    ["11"; "22"]%string
    (0x1a010000)%Z
    None.

Definition ShareInfo_toBuffer (i : ShareInfo) : Buffer := [x00].

Definition ShareInfo_fromBufferReader (r : BufferReader) (segwitActivated : bool)
  : Res (ShareInfo * BufferReader) :=
  match r with
  | x00 :: r' => Ok (someInfo, r')
  | _ => Throw RangeError
  end.

#[global] Instance primitives : Primitives := {|
  BaseShare.hash160ToScript := hash160ToScript;
  BaseShare.sha256d := digest;
  BaseShare.hexFromReversedBuffer := hexFromReversedBuffer;
  BaseShare.bitsToTarget := bitsToTarget;
  BaseShare.calculateHash := λ h root, digest (buildHeader h root);
  BaseShare.buildHeader := buildHeader;
  BaseShare.SmallBlockHeader_toBuffer := SmallBlockHeader_toBuffer;
  BaseShare.SmallBlockHeader_fromBufferReader := SmallBlockHeader_fromBufferReader;
  BaseShare.ShareInfo_toBuffer := ShareInfo_toBuffer;
  BaseShare.ShareInfo_fromBufferReader := ShareInfo_fromBufferReader;
  BaseShare.HashLink_check := HashLink_check;
  BaseShare.HashLink_toBuffer := HashLink_toBuffer;
  BaseShare.HashLink_fromBufferReader := HashLink_fromBufferReader;
  BaseShare.readList := readList;
  BaseShare.writeList := writeList;
  BaseShare.readNumber := readNumber
|}.

(** A pool configuration: the proof-of-work function returns [pow] as 32
    little-endian bytes whatever the header. *)
Definition statics (pow : N) (maxTarget : Z) : Statics :=
  mkStatics 0 (Some [xfc; xc1; xb7; xdc])
    (Some (λ _, Bytes.le_encode 32 pow)) maxTarget.

Definition someHeader : SmallBlockHeader :=
  mkSmallBlockHeader 2 (Bytes.alloc 32) 1500000000 (0x1a010000)%Z 42.

(** Length 49 and an empty tail: [49 - 0 + 79] is a multiple of 64. *)
Definition someHashLink : HashLink := mkHashLink (Bytes.alloc 32) [] 49.

Definition share (i : ShareInfo) : BaseShare :=
  construct Share someHeader i [] 5 someHashLink [].

(** A version-16 share on the wire: header (48 bytes), share info,
    empty reference link, nonce 5, hash link, empty Merkle link. *)
Definition capturedShare : Buffer :=
  Bytes.fromHex
    ("02000000"
     +:+ "0000000000000000000000000000000000000000000000000000000000000000"
     +:+ "002f6859" +:+ "0000011a" +:+ "2a000000"
     +:+ "00"
     +:+ "00"
     +:+ "0500000000000000"
     +:+ "0000000000000000000000000000000000000000000000000000000000000000"
     +:+ "3100000000000000" +:+ "00"
     +:+ "00").

(** Share infos that fail validation: a reference 110 shares back, and a
    reference list that names one own transaction where two are new. *)
Definition tooFarInfo : ShareInfo :=
  mkShareInfo (data someInfo) [mkRef 0 0; mkRef 110 0; mkRef 0 1]
    (newTransactionHashes someInfo) (bits someInfo) None.

Definition mismatchInfo : ShareInfo :=
  mkShareInfo (data someInfo) [mkRef 0 0; mkRef 1 1]
    (newTransactionHashes someInfo) (bits someInfo) None.

(** Segwit activated from version 16 on, and a share info with segwit
    data whose txid Merkle link has one sibling. *)
Definition segwitStatics : Statics :=
  mkStatics 16 (Some [xfc; xc1; xb7; xdc])
    (Some (λ _, Bytes.le_encode 32 1)) (2 ^ 224).

Definition segwitInfo : ShareInfo :=
  mkShareInfo (data someInfo) (transactionHashRefs someInfo)
    (newTransactionHashes someInfo) (bits someInfo)
    (Some (mkSegwitData (mkMerkleLink (Some [Bytes.alloc 32]) 0) (Bytes.alloc 32))).

(** [Transaction] as its hex serialization; the hash is a stand-in. *)
#[global] Instance bitcoinjs : Peer.Bitcoinjs := {|
  Peer.Transaction := string;
  Peer.Transaction_fromHex := λ s, s;
  Peer.toHex := λ s, s;
  Peer.getHash := λ s, ("hash:" +:+ s)%string
|}.

(** *** Coordinator scenarios *)

Definition template (h : string) (d : string) : Peer.TransactionTemplate :=
  Peer.mkTemplate (Some h) h d.

Definition elevenHashes : list string :=
  ["h01"; "h02"; "h03"; "h04"; "h05"; "h06"; "h07"; "h08"; "h09"; "h10"; "h11"]%string.

(** A coordinator whose [knownTxs] holds eleven transactions. *)
Definition elevenKnown : list (string * Peer.TransactionTemplate) :=
  (λ h, (h, template h "00")) <$> elevenHashes.

Definition withKnownTxs (m : list (string * Peer.TransactionTemplate)) : Peer.Peer :=
  Peer.mkPeer ∅ ∅ m [] [] [].

(** The values [knownTxs] takes when the hashes [hs] are dropped from [m]
    one after the other. *)
Fixpoint removals (m : list (string * Peer.TransactionTemplate)) (hs : list string)
  : list (list (string * Peer.TransactionTemplate)) :=
  match hs with
  | [] => []
  | h :: hs' =>
      let m' := List.filter (λ e, negb (bool_decide (e.1 = h))) m in
      m' :: removals m' hs'
  end.

Definition twoMining : list (string * Peer.TransactionTemplate) :=
  [("a", template "a" (String.concat "" (replicate 100 "ab")));
   ("b", Peer.mkTemplate None "b" (String.concat "" (replicate 150 "cd")))]%string.

(** Two registered peers; the second has advertised hash [c]. *)
Definition twoPeers : Peer.Peer :=
  Peer.mkPeer
    {[ 0%nat := Peer.newNode "10.0.0.1:9333";
       1%nat := Peer.mkNode "10.0.0.2:9333" ∅ {[ "c"%string ]} [Peer.Version] false ]}
    {[ "10.0.0.1:9333"%string := 0%nat; "10.0.0.2:9333"%string := 1%nat ]}
    [] [] twoMining [].

(** Templates whose [txid] and [hash] differ, one without [txid] and one
    with an empty [txid]; hex data of lengths 200, 300 and 3. *)
Definition withTxid : Peer.TransactionTemplate :=
  Peer.mkTemplate (Some "t1"%string) "h1" (String.concat "" (replicate 100 "ab")).

Definition withoutTxid : Peer.TransactionTemplate :=
  Peer.mkTemplate None "h2" (String.concat "" (replicate 150 "cd")).

Definition emptyTxid : Peer.TransactionTemplate :=
  Peer.mkTemplate (Some ""%string) "h3" "abc".

(** Two registered peers that mine [withTxid] and [withoutTxid]; the
    second has advertised hash [t3]. *)
Definition twoMiners : Peer.Peer :=
  Peer.mkPeer
    {[ 0%nat := Peer.newNode "10.0.0.1:9333";
       1%nat := Peer.mkNode "10.0.0.2:9333" ∅ {[ "t3"%string ]} [Peer.Version] false ]}
    {[ "10.0.0.1:9333"%string := 0%nat; "10.0.0.2:9333"%string := 1%nat ]}
    [] [] [("t1", withTxid); ("h2", withoutTxid)]%string [].

(** One connected peer; then [knownTxs] gains and loses hash [h] twice,
    with different templates. *)
Definition reAnnounced : Peer.Peer :=
  Peer.knownTxs_sets
    [[("h", template "h" "01")]; []; [("h", template "h" "02")]; []]%string
    (Peer.onSocketConnected "10.0.0.1:9333" Peer.initial).

(** One connected peer that knows transactions [a] and [b]. *)
Definition knowsTwo : Peer.Peer :=
  Peer.knownTxs_set [("a", template "a" "0a"); ("b", template "b" "0b")]%string
    (Peer.onSocketConnected "10.0.0.1:9333" Peer.initial).

End Reference.

(** * Properties *)

(** ** Block notification ([TaskServer]) *)

Section TaskServerFacts.
Import TaskServer.

Lemma refreshCount_app (l : option string) (cs ds : list Call) (a : list string) :
  refreshCount (mkTaskServer l (cs ++ ds) a)
  = (refreshCount (mkTaskServer l cs a) + refreshCount (mkTaskServer l ds a))%nat.
Proof. unfold refreshCount; simpl. by rewrite filter_app, length_app. Qed.

(** No method assigns [lastNotifiedHash]: it is [undefined] in every state
    the server reaches. *)
Lemma lastNotifiedHash_step (ts : TaskServer) (e : Event) :
  lastNotifiedHash (step ts e) = lastNotifiedHash ts.
Proof.
  destruct e as [|p|i fulfilled|height]; simpl; [done| | |done].
  - unfold onBlockNotifyingSocketConnected.
    destruct (negb (Js.truthy p)); [done|].
    by destruct (bool_decide (lastNotifiedHash ts = Some p)).
  - unfold onBlockNotifyingSocketConnected_resumed.
    by destruct (awaiting ts !! i).
Qed.

Lemma lastNotifiedHash_never_assigned (enabled : bool) (es : list Event) :
  lastNotifiedHash (run es (constructor enabled)) = None.
Proof.
  unfold run.
  assert (Hgen : ∀ ts, lastNotifiedHash (foldl step ts es) = lastNotifiedHash ts).
  { induction es as [|e es IH]; intros ts; simpl; [done|].
    by rewrite IH, lastNotifiedHash_step. }
  rewrite Hgen. by destruct enabled.
Qed.

(** A non-empty payload delivered while [lastNotifiedHash] is
    [undefined] refreshes the daemon watcher once more. *)
Lemma notify_refreshes (ts : TaskServer) (h : string) :
  h ≠ "" → lastNotifiedHash ts = None →
  refreshCount (onBlockNotifyingSocketConnected h ts) = S (refreshCount ts)
  ∧ lastNotifiedHash (onBlockNotifyingSocketConnected h ts) = None.
Proof.
  intros Hne Hnone. unfold onBlockNotifyingSocketConnected, Js.truthy.
  rewrite bool_decide_eq_true_2 by done. simpl.
  rewrite Hnone. rewrite bool_decide_eq_false_2 by done.
  split; [|done].
  rewrite refreshCount_app. unfold refreshCount; simpl.
  lia.
Qed.

(** C1, as the code behaves: two successive block-notify connections that
    deliver the same non-empty hash to a server in any reachable state
    invoke [refreshMiningInfoAsync] twice, not once, because
    [lastNotifiedHash] is compared but never assigned. *)
Theorem duplicate_block_notify_refreshes_twice
    (enabled : bool) (es : list TaskServer.Event) (h : string) :
  h ≠ "" →
  refreshCount
    (onBlockNotifyingSocketConnected h
       (onBlockNotifyingSocketConnected h (run es (constructor enabled))))
  = (refreshCount (run es (constructor enabled)) + 2)%nat.
Proof.
  intros Hne.
  pose proof (lastNotifiedHash_never_assigned enabled es) as Hnone.
  destruct (notify_refreshes _ h Hne Hnone) as [H1 Hnone1].
  destruct (notify_refreshes _ h Hne Hnone1) as [H2 _].
  rewrite H2, H1. lia.
Qed.

Lemma duplicate_block_notify_witness :
  refreshCount
    (onBlockNotifyingSocketConnected "00000000000000000007abc"
       (onBlockNotifyingSocketConnected "00000000000000000007abc"
          (run [PusherReady] (constructor true))))
  = (refreshCount (run [PusherReady] (constructor true)) + 2)%nat.
Proof.
  apply (duplicate_block_notify_refreshes_twice true [PusherReady]
           "00000000000000000007abc").
  discriminate.
Defined.

(** The duplicate-notify scenario, evaluated on a fresh server with the
    listener enabled: the same hash twice, two refreshes, and
    [lastNotifiedHash] still [undefined]; an empty payload does nothing. *)
Example duplicate_block_notify_evaluated :
  refreshCount
    (run [BlockNotify "00000000000000000007abc"; BlockNotify "00000000000000000007abc"]
       (constructor true)) = 2%nat
  ∧ lastNotifiedHash
      (run [BlockNotify "00000000000000000007abc"; BlockNotify "00000000000000000007abc"]
         (constructor true)) = None
  ∧ refreshCount (run [BlockNotify ""] (constructor true)) = 0%nat.
Proof. by vm_compute. Qed.

End TaskServerFacts.

(** ** Share records ([BaseShare]) *)

Section SegwitFacts.
Import Js BaseShare.
Context `{P : Primitives}.

Lemma isSegwitActivated_true (cfg : Statics) (version : Z) :
  isSegwitActivated cfg version = true
  ↔ 0 < SEGWIT_ACTIVATION_VERSION cfg ≤ version.
Proof. unfold isSegwitActivated. rewrite andb_true_iff. lia. Qed.

Lemma isSegwitActivated_off (cfg : Statics) (version : Z) :
  SEGWIT_ACTIVATION_VERSION cfg ≤ 0 → isSegwitActivated cfg version = false.
Proof.
  intros Hle. apply not_true_is_false. rewrite isSegwitActivated_true. lia.
Qed.

End SegwitFacts.

Section VersionFacts.
Import Js BaseShare.

(** The check the module runs when it is loaded:
    [assert.equal(GENTX_BEFORE_REFHASH.toString('hex'), '4341...2a6a28')]. *)
Lemma GENTX_BEFORE_REFHASH_literal :
  GENTX_BEFORE_REFHASH
  = Bytes.fromHex
      "434104ffd03de44a6e11b9917f3a29f9443283d9871c9d743ef30d5eddcd37094b64d1b3d8090496b53256786bf5c82932ec23c3b74d9f05a6f95a8b5529352656664bac00000000000000002a6a28".
Proof. by vm_compute. Qed.

(** C9: for a version other than 16 and 17 the registry has no entry and
    [fromBufferReader] returns [null]: it does not throw, and the reader
    is where it was, whatever the readers of the share fields are. *)
Theorem unknown_version_parses_to_null `{P : Primitives}
    (cfg : Statics) (version : Z) (reader : BufferReader) :
  version ≠ 16 → version ≠ 17 →
  ShareVersionMapper version = None
  ∧ fromBufferReader cfg version reader = Ok (None, reader).
Proof.
  intros H16 H17.
  assert (Hnone : ShareVersionMapper version = None).
  { unfold ShareVersionMapper.
    destruct (Z.eqb_spec version 16); [done|].
    by destruct (Z.eqb_spec version 17). }
  split; [done|]. unfold fromBufferReader. by rewrite Hnone.
Qed.

Lemma unknown_version_witness :
  ShareVersionMapper 15 = None
  ∧ fromBufferReader (Reference.statics 1 (2 ^ 224)) 15 [x00; x01] = Ok (None, [x00; x01]).
Proof.
  apply (unknown_version_parses_to_null (P := Reference.primitives)); lia.
Defined.

(** C10: with [SEGWIT_ACTIVATION_VERSION] at most 0 (its default is 0)
    [isSegwitActivated] is false for every version, [init()] takes the
    share's own [merkleLink], and [fromBufferReader] reads the share info
    with the segwit flag off; whenever [isSegwitActivated] is true,
    [SEGWIT_ACTIVATION_VERSION] is strictly positive. *)
Theorem segwit_off_unless_activation_version_positive `{P : Primitives}
    (cfg : Statics) :
  SEGWIT_ACTIVATION_VERSION cfg ≤ 0 →
  SEGWIT_ACTIVATION_VERSION defaults = 0
  ∧ (∀ version, isSegwitActivated cfg version = false)
  ∧ (∀ s, chooseLink (isSegwitActivated cfg (VERSION s)) s = Ok (merkleLink s))
  ∧ (∀ version reader,
       fromBufferReader cfg version reader
       = fromBufferReader (P := withoutSegwitParsing) cfg version reader)
  ∧ (∀ cfg' version,
       isSegwitActivated cfg' version = true → 0 < SEGWIT_ACTIVATION_VERSION cfg').
Proof.
  intros Hle. split; [done|]. split; [by intros; apply isSegwitActivated_off|].
  split; [intros s; by rewrite isSegwitActivated_off|].
  split.
  - intros version reader. unfold fromBufferReader.
    destruct (ShareVersionMapper version) as [c|]; [|done].
    by rewrite isSegwitActivated_off.
  - intros cfg' version Hact. apply isSegwitActivated_true in Hact. lia.
Qed.

Lemma segwit_off_witness :
  SEGWIT_ACTIVATION_VERSION defaults = 0
  ∧ (∀ version, isSegwitActivated defaults version = false)
  ∧ (∀ s, chooseLink (isSegwitActivated defaults (VERSION s)) s = Ok (merkleLink s))
  ∧ (∀ version reader,
       fromBufferReader (P := Reference.primitives) defaults version reader
       = fromBufferReader (P := withoutSegwitParsing) defaults version reader)
  ∧ (∀ cfg' version,
       isSegwitActivated cfg' version = true → 0 < SEGWIT_ACTIVATION_VERSION cfg').
Proof.
  apply (segwit_off_unless_activation_version_positive
           (P := Reference.primitives) defaults).
  simpl. lia.
Defined.

End VersionFacts.

(** ** The peer coordinator ([Peer]) *)

Section CacheFacts.
Import Peer.
Context `{B : Bitcoinjs}.
Local Open Scope nat_scope.

Implicit Types (st : Peer) (m old new : list (string * TransactionTemplate)).

(** *** What leaves [knownTxsCaches] alone *)

Lemma caches_forEachPeer f st :
  knownTxsCaches (forEachPeer f st) = knownTxsCaches st.
Proof. done. Qed.

Lemma caches_updNode r f st :
  knownTxsCaches (updNode r f st) = knownTxsCaches st.
Proof. done. Qed.

Lemma caches_onEnd r st : knownTxsCaches (onEnd r st) = knownTxsCaches st.
Proof. unfold onEnd. by destruct (heap st !! r). Qed.

Lemma caches_close r st : knownTxsCaches (close r st) = knownTxsCaches st.
Proof. unfold close. by rewrite caches_onEnd. Qed.

Lemma caches_onSocketConnected t st :
  knownTxsCaches (onSocketConnected t st) = knownTxsCaches st.
Proof.
  unfold onSocketConnected, initNode.
  by destruct (heap _ !! _).
Qed.

Lemma fields_handleNodeVersion_resumed (i : nat) (fulfilled : bool) st :
  knownTxsCaches (handleNodeVersion_resumed i fulfilled st) = knownTxsCaches st
  ∧ knownTxs (handleNodeVersion_resumed i fulfilled st) = knownTxs st
  ∧ miningTxs (handleNodeVersion_resumed i fulfilled st) = miningTxs st
  ∧ peers (handleNodeVersion_resumed i fulfilled st) = peers st.
Proof.
  unfold handleNodeVersion_resumed.
  by destruct (handshakes st !! i), fulfilled.
Qed.

Lemma caches_onMiningTxsChanged old new st :
  knownTxsCaches (onMiningTxsChanged old new st) = knownTxsCaches st.
Proof.
  unfold onMiningTxsChanged. destruct_matches; done.
Qed.

Lemma caches_rememberHashes sender all rest st :
  knownTxsCaches (rememberHashes sender all rest st).1 = knownTxsCaches st.
Proof.
  revert st. induction rest as [|h rest IH]; intros st; simpl; [done|].
  destruct (Linq.any _ _); simpl; [by rewrite caches_close|].
  destruct (lookupKnownTx st h); simpl; [|by rewrite caches_close].
  by rewrite IH.
Qed.

Lemma caches_rememberTxs sender txs m st :
  knownTxsCaches (rememberTxs sender txs m st).1 = knownTxsCaches st.
Proof.
  revert m st. induction txs as [|tx txs IH]; intros m st; simpl; [done|].
  destruct (bool_decide _); simpl; [by rewrite caches_close|].
  by rewrite IH.
Qed.

(** *** One change of [knownTxs] *)

Lemma caches_onKnownTxsChanged old new st :
  knownTxsCaches (onKnownTxsChanged old new st)
  = if bool_decide (10 < length (knownTxsCaches st ++ [snapshot old (removedKeys old new)]))
    then tail (knownTxsCaches st ++ [snapshot old (removedKeys old new)])
    else knownTxsCaches st ++ [snapshot old (removedKeys old new)].
Proof.
  unfold onKnownTxsChanged.
  destruct (Linq.anyElement (Linq.select (Linq.except new old sameKey) fst));
    destruct (Linq.anyElement (removedKeys old new)); simpl;
    by destruct (bool_decide _).
Qed.

Lemma knownTxs_onKnownTxsChanged old new st :
  knownTxs (onKnownTxsChanged old new st) = knownTxs st.
Proof.
  unfold onKnownTxsChanged.
  destruct (Linq.anyElement (Linq.select (Linq.except new old sameKey) fst));
    destruct (Linq.anyElement (removedKeys old new)); simpl;
    by destruct (bool_decide _).
Qed.

(** Push, then shift when longer than 10: the last 10 of the extended
    list. *)
Lemma push_shift_window {A} (c : list A) (s : A) :
  length c ≤ 10 →
  (if bool_decide (10 < length (c ++ [s])) then tail (c ++ [s]) else c ++ [s])
  = drop (length (c ++ [s]) - 10) (c ++ [s]).
Proof.
  intros Hc. rewrite length_app; simpl.
  case_bool_decide as Hlt.
  - replace (length c + 1 - 10) with 1 by lia. by destruct (c ++ [s]).
  - by replace (length c + 1 - 10) with 0 by lia.
Qed.

Lemma caches_bound_onKnownTxsChanged old new st :
  length (knownTxsCaches st) ≤ 10 →
  length (knownTxsCaches (onKnownTxsChanged old new st)) ≤ 10.
Proof.
  intros Hc. rewrite caches_onKnownTxsChanged, push_shift_window by done.
  rewrite length_drop, length_app; simpl. lia.
Qed.

Lemma caches_bound_step st e :
  length (knownTxsCaches st) ≤ 10 → length (knownTxsCaches (step st e)) ≤ 10.
Proof.
  intros Hc.
  destruct e as [t|sender|i fulfilled|sender hashes txs|sender|transactions]; simpl.
  - by rewrite caches_onSocketConnected.
  - done.
  - by rewrite (proj1 (fields_handleNodeVersion_resumed i fulfilled st)).
  - unfold handleRemember_tx.
    pose proof (caches_rememberHashes sender hashes hashes st) as H1.
    destruct (rememberHashes sender hashes hashes st) as [st1 [|]]; simpl in H1;
      [|by rewrite H1].
    pose proof (caches_rememberTxs sender txs (knownTxs st1) st1) as H2.
    destruct (rememberTxs sender txs (knownTxs st1) st1) as [st2 [m|]];
      simpl in H2; [|by rewrite H2, H1].
    apply caches_bound_onKnownTxsChanged. simpl. by rewrite H2, H1.
  - by rewrite caches_onEnd.
  - unfold updateGbt, knownTxs_set, miningTxs_set.
    apply caches_bound_onKnownTxsChanged. simpl.
    by rewrite caches_onMiningTxsChanged.
Qed.

Lemma caches_bound_run es st :
  length (knownTxsCaches st) ≤ 10 → length (knownTxsCaches (run es st)) ≤ 10.
Proof.
  revert st. induction es as [|e es IH]; intros st Hc; simpl; [done|].
  apply IH. by apply caches_bound_step.
Qed.

(** *** Successive changes *)

Lemma caches_knownTxs_sets vs st :
  length (knownTxsCaches st) ≤ 10 →
  knownTxsCaches (knownTxs_sets vs st)
  = drop (length (knownTxsCaches st ++ snapshots (knownTxs st) vs) - 10)
      (knownTxsCaches st ++ snapshots (knownTxs st) vs).
Proof.
  revert st. induction vs as [|v vs IH]; intros st Hc; simpl.
  - rewrite app_nil_r. by replace (length (knownTxsCaches st) - 10) with 0 by lia.
  - assert (Hk : knownTxs (knownTxs_set v st) = v).
    { unfold knownTxs_set. by rewrite knownTxs_onKnownTxsChanged. }
    set (c := knownTxsCaches st) in *.
    set (s := snapshot (knownTxs st) (removedKeys (knownTxs st) v)).
    set (S' := snapshots v vs).
    assert (Hcs : knownTxsCaches (knownTxs_set v st)
                  = drop (length (c ++ [s]) - 10) (c ++ [s])).
    { unfold knownTxs_set. rewrite caches_onKnownTxsChanged. simpl.
      by apply push_shift_window. }
    unfold knownTxs_sets in *. rewrite IH.
    2:{ unfold knownTxs_set. by apply caches_bound_onKnownTxsChanged. }
    rewrite Hk, Hcs. fold S'.
    replace (c ++ s :: S') with ((c ++ [s]) ++ S') by (by rewrite <- (assoc_L (++))).
    rewrite <- (drop_app_le (c ++ [s]) S') by (rewrite length_app; simpl; lia).
    rewrite drop_drop. f_equal.
    rewrite length_drop, !length_app; simpl. lia.
Qed.

End CacheFacts.

Section SnapshotFacts.
Import Peer.
Local Open Scope nat_scope.

Implicit Types (m old new : list (string * TransactionTemplate)).

Lemma JsMap_get_None {V} (k : string) (m : list (string * V)) :
  JsMap.get k m = None ↔ k ∉ JsMap.keys m.
Proof.
  induction m as [|[k' v] m IH]; simpl.
  - split; [intros _ H; by apply elem_of_nil in H|done].
  - case_bool_decide as Hk.
    + subst. split; [done|]. intros H. exfalso. apply H. by left.
    + rewrite IH. unfold JsMap.keys. simpl. rewrite not_elem_of_cons.
      split; [by auto|by intros [_ ?]].
Qed.

Lemma JsMap_has_keys {V} (k : string) (m : list (string * V)) :
  JsMap.has k m = true ↔ k ∈ JsMap.keys m.
Proof.
  unfold JsMap.has. rewrite bool_decide_eq_true.
  destruct (JsMap.get k m) as [v|] eqn:Hg.
  - split; [intros _|by eauto].
    destruct (decide (k ∈ JsMap.keys m)) as [|Hn]; [done|].
    apply JsMap_get_None in Hn. congruence.
  - apply JsMap_get_None in Hg. split; [|done]. intros [? [=]].
Qed.

(** [tx.txid || tx.hash]: the [txid] when there is a non-empty one, the
    [hash] otherwise. *)
Lemma txKey_txid (tx : TransactionTemplate) (id : string) :
  txid tx = Some id → id ≠ "" → txKey tx = id.
Proof.
  intros Hid Hne. unfold txKey, Js.or_string, Js.truthy. rewrite Hid.
  by rewrite bool_decide_eq_true_2.
Qed.

Lemma txKey_hash (tx : TransactionTemplate) :
  txid tx = None ∨ txid tx = Some "" → txKey tx = hash tx.
Proof.
  intros [Hid|Hid]; unfold txKey, Js.or_string, Js.truthy; rewrite Hid; [done|].
  by rewrite bool_decide_eq_false_2 by (by intros []).
Qed.

Lemma existsb_sameKey (e : string * TransactionTemplate) m :
  existsb (sameKey e) m = JsMap.has e.1 m.
Proof.
  apply eq_true_iff_eq. rewrite JsMap_has_keys, existsb_exists.
  unfold JsMap.keys, sameKey. rewrite list_elem_of_fmap. split.
  - intros [x [Hin Hx]]. apply bool_decide_eq_true in Hx.
    exists x. split; [done|]. by apply list_elem_of_In.
  - intros [x [Hx Hin]]. exists x. split; [by apply list_elem_of_In|].
    by apply bool_decide_eq_true.
Qed.

(** The removed keys: the keys of the old map that the new map lacks. *)
Lemma elem_of_removedKeys (h : string) old new :
  h ∈ removedKeys old new ↔ h ∈ JsMap.keys old ∧ JsMap.has h new = false.
Proof.
  unfold removedKeys, Linq.select, Linq.except, JsMap.keys.
  rewrite !list_elem_of_fmap. split.
  - intros [e [-> He]]. apply list_elem_of_In, filter_In in He as [He Hb].
    apply negb_true_iff in Hb. rewrite existsb_sameKey in Hb.
    split; [|done]. exists e. split; [done|]. by apply list_elem_of_In.
  - intros [[e [-> He]] Hb]. exists e. split; [done|].
    apply list_elem_of_In, filter_In. split; [by apply list_elem_of_In|].
    apply negb_true_iff. by rewrite existsb_sameKey.
Qed.

Lemma snapshot_fold old (ks : list string) (m0 : gmap string TransactionTemplate)
    (h : string) :
  foldl (λ acc k, match JsMap.get k old with
                  | Some tx => <[k := tx]> acc
                  | None => acc
                  end) m0 ks !! h
  = if decide (h ∈ ks)
    then match JsMap.get h old with Some tx => Some tx | None => m0 !! h end
    else m0 !! h.
Proof.
  revert m0. induction ks as [|k ks IH]; intros m0; simpl.
  - destruct (decide (h ∈ [])) as [Hin|]; [by apply elem_of_nil in Hin|done].
  - rewrite IH. destruct (decide (h = k)) as [->|Hne].
    + rewrite (decide_True (P := k ∈ k :: ks)) by by left.
      destruct (JsMap.get k old) as [tx|] eqn:Hg.
      * rewrite lookup_insert_eq. by destruct (decide (k ∈ ks)).
      * by destruct (decide (k ∈ ks)).
    + assert (Hm : (match JsMap.get k old with
                    | Some tx => <[k := tx]> m0
                    | None => m0
                    end) !! h = m0 !! h).
      { destruct (JsMap.get k old); [by rewrite lookup_insert_ne|done]. }
      rewrite Hm. destruct (decide (h ∈ ks)) as [Hin|Hnin].
      * by rewrite decide_True by by right.
      * rewrite decide_False; [done|]. rewrite not_elem_of_cons. done.
Qed.

(** A snapshot is keyed by the removed hashes and holds the old
    templates. *)
Lemma snapshot_lookup old new (h : string) :
  snapshot old (removedKeys old new) !! h
  = if JsMap.has h new then None else JsMap.get h old.
Proof.
  unfold snapshot. rewrite snapshot_fold, lookup_empty.
  destruct (decide (h ∈ removedKeys old new)) as [Hin|Hnin].
  - apply elem_of_removedKeys in Hin as [_ ->]. by destruct (JsMap.get h old).
  - destruct (JsMap.has h new) eqn:Hhas; [done|].
    destruct (JsMap.get h old) as [tx|] eqn:Hg; [|done].
    exfalso. apply Hnin, elem_of_removedKeys. split; [|done].
    apply JsMap_has_keys. unfold JsMap.has. rewrite Hg.
    apply bool_decide_eq_true. by eauto.
Qed.

End SnapshotFacts.

Section CacheWindow.
Import Peer.
Context `{B : Bitcoinjs}.
Local Open Scope nat_scope.

(** C7: [knownTxsCaches] never holds more than 10 snapshots in a state the
    coordinator reaches; a change of [knownTxs] appends one snapshot, which
    maps each removed hash to its old template, and keeps the last 10;
    after 11 changes from an empty list the snapshots of changes 2 to 11
    remain, and the first one is not among them when the snapshots are
    pairwise different. *)
Theorem knownTxsCaches_keeps_last_ten :
  (∀ es, length (knownTxsCaches (run es initial)) ≤ 10)
  ∧ (∀ st v,
       length (knownTxsCaches st) ≤ 10 →
       knownTxsCaches (knownTxs_set v st)
       = drop (length (knownTxsCaches st) + 1 - 10)
           (knownTxsCaches st ++ [snapshot (knownTxs st) (removedKeys (knownTxs st) v)])
       ∧ ∀ h : string,
           snapshot (knownTxs st) (removedKeys (knownTxs st) v) !! h
           = if JsMap.has h v then None else JsMap.get h (knownTxs st))
  ∧ (∀ st vs first,
       knownTxsCaches st = [] → length vs = 11 →
       head (snapshots (knownTxs st) vs) = Some first →
       knownTxsCaches (knownTxs_sets vs st) = drop 1 (snapshots (knownTxs st) vs)
       ∧ length (knownTxsCaches (knownTxs_sets vs st)) = 10
       ∧ (NoDup (snapshots (knownTxs st) vs) →
          first ∉ knownTxsCaches (knownTxs_sets vs st))).
Proof.
  split; [|split].
  - intros es. apply caches_bound_run. simpl. lia.
  - intros st v Hc. split; [|intros h; apply snapshot_lookup].
    unfold knownTxs_set. rewrite caches_onKnownTxsChanged. simpl.
    rewrite push_shift_window by done. by rewrite length_app.
  - intros st vs first Hempty Hlen Hfirst.
    assert (Hsl : ∀ cur, length (snapshots cur vs) = length vs).
    { clear. induction vs as [|v vs IH]; intros cur; simpl; [done|]. by rewrite IH. }
    assert (Heq : knownTxsCaches (knownTxs_sets vs st)
                  = drop 1 (snapshots (knownTxs st) vs)).
    { rewrite caches_knownTxs_sets by (rewrite Hempty; simpl; lia).
      rewrite Hempty. simpl. rewrite Hsl, Hlen. done. }
    split; [done|]. split.
    + rewrite Heq, length_drop, Hsl, Hlen. done.
    + intros Hnd. rewrite Heq.
      destruct (snapshots (knownTxs st) vs) as [|s0 rest]; [done|].
      simpl in *. injection Hfirst as ->. rewrite drop_0.
      by apply NoDup_cons in Hnd as [Hnotin _].
Qed.

End CacheWindow.

Section CacheWindowScenario.
Import Peer.
Local Open Scope nat_scope.

Lemma knownTxsCaches_window_witness :
  knownTxsCaches
    (knownTxs_sets (B := Reference.bitcoinjs)
       (Reference.removals Reference.elevenKnown Reference.elevenHashes)
       (Reference.withKnownTxs Reference.elevenKnown))
  = drop 1 (snapshots Reference.elevenKnown
              (Reference.removals Reference.elevenKnown Reference.elevenHashes))
  ∧ length (knownTxsCaches
              (knownTxs_sets (B := Reference.bitcoinjs)
                 (Reference.removals Reference.elevenKnown Reference.elevenHashes)
                 (Reference.withKnownTxs Reference.elevenKnown))) = 10
  ∧ (NoDup (snapshots Reference.elevenKnown
              (Reference.removals Reference.elevenKnown Reference.elevenHashes)) →
     {[ "h01" := Reference.template "h01" "00" ]}
     ∉ knownTxsCaches
         (knownTxs_sets (B := Reference.bitcoinjs)
            (Reference.removals Reference.elevenKnown Reference.elevenHashes)
            (Reference.withKnownTxs Reference.elevenKnown))).
Proof.
  apply (proj2 (proj2 (knownTxsCaches_keeps_last_ten (B := Reference.bitcoinjs)))
           (Reference.withKnownTxs Reference.elevenKnown)
           (Reference.removals Reference.elevenKnown Reference.elevenHashes)).
  - reflexivity.
  - reflexivity.
  - vm_compute. reflexivity.
Defined.

(** The cache-window scenario, evaluated: eleven hashes leave [knownTxs]
    one by one; afterwards the cache list holds the one-entry snapshots of
    the last ten, oldest first. *)
Example eleven_removals_evaluated :
  knownTxsCaches
    (knownTxs_sets (B := Reference.bitcoinjs)
       (Reference.removals Reference.elevenKnown Reference.elevenHashes)
       (Reference.withKnownTxs Reference.elevenKnown))
  = (λ h : string, {[ h := Reference.template h "00" ]})
      <$> drop 1 Reference.elevenHashes.
Proof. by vm_compute. Qed.

End CacheWindowScenario.

Section ForgetTx.
Import Peer.
Context `{B : Bitcoinjs}.
Local Open Scope nat_scope.

Implicit Types (st : Peer) (old new : list (string * TransactionTemplate)).

Lemma heap_forEachPeer f st (r : nat) :
  heap (forEachPeer f st) !! r
  = (λ n, if bool_decide (r ∈ (map_img (peers st) : gset nat)) then f n else n)
      <$> heap st !! r.
Proof.
  unfold forEachPeer. simpl. rewrite map_lookup_imap.
  by destruct (heap st !! r).
Qed.

Lemma heap_forEachPeer_registered f st (t : string) (r : nat) (node : Node) :
  peers st !! t = Some r → heap st !! r = Some node →
  heap (forEachPeer f st) !! r = Some (f node).
Proof.
  intros Ht Hr. rewrite heap_forEachPeer, Hr. simpl.
  rewrite bool_decide_eq_true_2; [done|].
  apply elem_of_map_img. by exists t.
Qed.

(** [sum] adds from the left, starting at 0; the result is the sum. *)
Lemma sum_foldl_foldr {A} (f : A → Qc) (l : list A) (a : Qc) :
  foldl (λ acc x, Qcplus acc (f x)) a l
  = Qcplus a (foldr (λ x acc, Qcplus (f x) acc) (Q2Qc 0) l).
Proof.
  revert a. induction l as [|x l IH]; intros a; simpl.
  - by rewrite Qcplus_0_r.
  - by rewrite IH, Qcplus_assoc.
Qed.

Lemma elem_of_removedTemplates (tx : TransactionTemplate) old new :
  tx ∈ removedTemplates old new
  ↔ ∃ k : string, (k, tx) ∈ old ∧ JsMap.has k new = false.
Proof.
  unfold removedTemplates, Linq.select, Linq.except.
  rewrite list_elem_of_fmap. split.
  - intros [[k tx'] [-> He]]. apply list_elem_of_In, filter_In in He as [He Hb].
    apply negb_true_iff in Hb. rewrite existsb_sameKey in Hb.
    exists k. split; [by apply list_elem_of_In|done].
  - intros [k [He Hb]]. exists (k, tx). split; [done|].
    apply list_elem_of_In, filter_In. split; [by apply list_elem_of_In|].
    apply negb_true_iff. by rewrite existsb_sameKey.
Qed.

(** C8: when an assignment to [miningTxs] drops entries, every registered
    peer is asked to send, as its last command of the change, one
    [forget_tx]. Its hashes are those of the removed templates, one each
    and in order: the [txid] where the template has a non-empty one, the
    [hash] otherwise. Its [totalSize] is the sum of [data.length / 2]
    over the removed templates, halves included: 250 for two removed
    templates of hex lengths 200 and 300, and 3/2 for one of length 3. *)
Theorem forget_tx_sent_to_every_peer st (v : list (string * TransactionTemplate))
    (t : string) (r : nat) (node : Node) :
  removedTemplates (miningTxs st) v ≠ [] →
  peers st !! t = Some r →
  heap st !! r = Some node →
  ∃ node' before hashes totalSize,
    heap (miningTxs_set v st) !! r = Some node'
    ∧ sent node' = sent node ++ before ++ [Forget_tx hashes totalSize]
    ∧ (∀ c, c ∈ before → ∃ hs txs, c = Remember_tx hs txs)
    ∧ length hashes = length (removedTemplates (miningTxs st) v)
    ∧ (∀ i tx, removedTemplates (miningTxs st) v !! i = Some tx →
               ∃ h, hashes !! i = Some h
                    ∧ (∀ id, txid tx = Some id → id ≠ "" → h = id)
                    ∧ (txid tx = None ∨ txid tx = Some "" → h = hash tx))
    ∧ totalSize
      = foldr (λ tx acc,
                 Qcplus (Qcdiv (Q2Qc (inject_Z (Z.of_nat (String.length (data tx)))))
                           (Q2Qc 2)) acc)
          (Q2Qc 0) (removedTemplates (miningTxs st) v)
    ∧ (∀ tx, tx ∈ removedTemplates (miningTxs st) v
             ↔ ∃ k : string, (k, tx) ∈ miningTxs st ∧ JsMap.has k v = false)
    ∧ (∀ t1 t2,
         removedTemplates (miningTxs st) v = [t1; t2] →
         String.length (data t1) = 200 → String.length (data t2) = 300 →
         totalSize = Q2Qc 250)
    ∧ (∀ t1,
         removedTemplates (miningTxs st) v = [t1] →
         String.length (data t1) = 3 →
         totalSize = Q2Qc (3 # 2)).
Proof.
  intros Hrem Ht Hr.
  set (removed := removedTemplates (miningTxs st) v) in *.
  assert (Hsent : ∃ node' before,
    heap (miningTxs_set v st) !! r = Some node'
    ∧ sent node'
      = sent node ++ before
        ++ [Forget_tx (txKey <$> removed) (Linq.sum removed halfLength)]
    ∧ ∀ c, c ∈ before → ∃ hs txs, c = Remember_tx hs txs).
  { unfold miningTxs_set, onMiningTxsChanged. simpl. fold removed.
    set (added := Linq.select (Linq.except v (miningTxs st) sameKey) snd).
    assert (Hany : Linq.anyElement removed = true) by by destruct removed.
    rewrite Hany.
    set (st0 := set_miningTxs v st).
    assert (Ht0 : peers st0 !! t = Some r) by done.
    assert (Hr0 : heap st0 !! r = Some node) by done.
    destruct (Linq.anyElement added).
    + eexists _, [_]. split.
      * eapply heap_forEachPeer_registered; [exact Ht0|].
        eapply heap_forEachPeer_registered; [exact Ht0|exact Hr0].
      * simpl. split; [by rewrite <- (assoc_L (++))|].
        intros c Hc. apply list_elem_of_singleton in Hc as ->. by eauto.
    + exists (send (Forget_tx (txKey <$> removed) (Linq.sum removed halfLength)) node), [].
      split; [by eapply heap_forEachPeer_registered|].
      split; [done|]. intros c Hc. by apply elem_of_nil in Hc. }
  destruct Hsent as (node' & before & Hn' & Hs & Hbefore).
  exists node', before, (txKey <$> removed), (Linq.sum removed halfLength).
  split; [done|]. split; [done|]. split; [done|].
  split; [by rewrite length_fmap|]. split; [|split; [|split; [|split]]].
  - intros i tx Hi. exists (txKey tx). rewrite list_lookup_fmap, Hi.
    split; [done|]. split; [by apply txKey_txid|by apply txKey_hash].
  - unfold Linq.sum. by rewrite sum_foldl_foldr, Qcplus_0_l.
  - intros tx. apply elem_of_removedTemplates.
  - intros t1 t2 -> H1 H2. unfold Linq.sum, halfLength. simpl.
    rewrite H1, H2. reflexivity.
  - intros t1 -> H1. unfold Linq.sum, halfLength. simpl.
    rewrite H1. reflexivity.
Qed.

End ForgetTx.

Section ForgetTxScenario.
Import Peer.
Local Open Scope nat_scope.

Lemma removed_twoMiners :
  removedTemplates (miningTxs (B := Reference.bitcoinjs) Reference.twoMiners) []
  = [Reference.withTxid; Reference.withoutTxid].
Proof. reflexivity. Qed.

Lemma forget_tx_witness :
  ∃ node' before,
    heap (miningTxs_set (B := Reference.bitcoinjs) [] Reference.twoMiners) !! 1
    = Some node'
    ∧ sent node'
      = [Version] ++ before ++ [Forget_tx ["t1"; "h2"]%string (Q2Qc 250)].
Proof.
  destruct (forget_tx_sent_to_every_peer (B := Reference.bitcoinjs)
              Reference.twoMiners [] "10.0.0.2:9333" 1
              (mkNode (B := Reference.bitcoinjs) "10.0.0.2:9333" ∅
                 {[ "t3"%string ]} [Version] false))
    as (node' & before & hashes & totalSize & Hn' & Hsent & _ & Hlen & Hhashes
        & _ & _ & Hsize & _).
  - discriminate.
  - reflexivity.
  - reflexivity.
  - rewrite removed_twoMiners in Hlen, Hhashes, Hsize.
    exists node', before. split; [exact Hn'|].
    rewrite Hsent.
    destruct (Hhashes 0 Reference.withTxid eq_refl) as (h1 & H1 & Hid & _).
    destruct (Hhashes 1 Reference.withoutTxid eq_refl) as (h2 & H2 & _ & Hh).
    destruct hashes as [|x1 [|x2 [|x3 hashes]]]; try discriminate Hlen.
    injection H1 as ->. injection H2 as ->.
    rewrite (Hid "t1"%string eq_refl) by discriminate.
    rewrite (Hh (or_introl eq_refl)).
    rewrite (Hsize Reference.withTxid Reference.withoutTxid eq_refl);
      [reflexivity|by vm_compute|by vm_compute].
Defined.
(** The forget-tx scenario, evaluated: [miningTxs] loses two templates of
    hex lengths 200 and 300, the first with [txid] [t1] and [hash] [h1],
    the second without [txid]; both peers are asked to send
    [forget_tx(["t1", "h2"], 250)]. A template with an empty [txid] and
    three characters of data goes by its [hash], with size 3/2. *)
Example forget_tx_evaluated :
  (sent <$> heap (miningTxs_set (B := Reference.bitcoinjs) [] Reference.twoMiners))
  = {[ 0 := [Forget_tx ["t1"; "h2"]%string (Q2Qc 250)];
       1 := [Version; Forget_tx ["t1"; "h2"]%string (Q2Qc 250)] ]}
  ∧ (sent <$> heap (miningTxs_set (B := Reference.bitcoinjs) []
                      (set_miningTxs [("h3"%string, Reference.emptyTxid)]
                         Reference.twoMiners)))
    = {[ 0 := [Forget_tx ["h3"%string] (Q2Qc (3 # 2))];
         1 := [Version; Forget_tx ["h3"%string] (Q2Qc (3 # 2))] ]}.
Proof. split; by vm_compute. Qed.

End ForgetTxScenario.

Section RememberTx.
Import Peer.
Context `{B : Bitcoinjs}.
Local Open Scope nat_scope.

Implicit Types (st : Peer) (n : Node) (sender : nat).

Lemma heap_updNode sender f st n :
  heap st !! sender = Some n →
  heap (updNode sender f st) !! sender = Some (f n).
Proof. intros Hn. unfold updNode. simpl. by rewrite lookup_alter_eq, Hn. Qed.

Lemma close_disconnected sender st n :
  heap st !! sender = Some n → disconnected sender (close sender st).
Proof.
  intros Hn. unfold close, onEnd.
  rewrite (heap_updNode _ _ _ _ Hn).
  exists (markClosed n). split; [by apply heap_updNode|].
  split; [done|]. simpl. by rewrite lookup_delete_eq.
Qed.

Lemma rememberedOf_remember sender st n (h : string) tx :
  heap st !! sender = Some n →
  rememberedOf (updNode sender (remember h tx) st) sender !! h = Some tx.
Proof.
  intros Hn. unfold rememberedOf.
  rewrite (heap_updNode _ _ _ _ Hn). simpl. by rewrite lookup_insert_eq.
Qed.

(** Whenever the loop over the hashes is left early, the sender has been
    disconnected. *)
Lemma rememberHashes_early_return sender (all rest : list string) st n :
  heap st !! sender = Some n →
  (rememberHashes sender all rest st).2 = false →
  disconnected sender (rememberHashes sender all rest st).1.
Proof.
  revert st n. induction rest as [|h rest IH]; intros st n Hn; simpl; [done|].
  destruct (Linq.any _ _); simpl; [intros _; by eapply close_disconnected|].
  destruct (lookupKnownTx st h) as [tx|]; simpl;
    [|intros _; by eapply close_disconnected].
  eapply IH. by apply heap_updNode.
Qed.

(** The test at the head of the loop body does not depend on the loop
    variable: once the first hash is remembered, the second iteration
    finds it among [txHashes] and leaves. *)
Lemma rememberHashes_second_iteration sender (h1 h2 : string) (hs : list string) st n :
  heap st !! sender = Some n →
  (rememberHashes sender (h1 :: h2 :: hs) (h1 :: h2 :: hs) st).2 = false.
Proof.
  intros Hn. cbn [rememberHashes].
  destruct (Linq.any (h1 :: h2 :: hs) _) eqn:Hany; [done|].
  destruct (lookupKnownTx st h1) as [tx|]; [|done].
  assert (Hnow : Linq.any (h1 :: h2 :: hs)
            (λ hash, bool_decide (is_Some
               (rememberedOf
                  (updNode sender (remember h1 (Transaction_fromHex (data tx))) st)
                  sender !! hash))) = true).
  { unfold Linq.any. cbn [existsb].
    rewrite (rememberedOf_remember _ _ _ _ _ Hn).
    apply orb_true_iff. left. apply bool_decide_eq_true. by eauto. }
  by rewrite Hnow.
Qed.

Lemma handleRemember_tx_early sender (hashes : list string) txs st :
  (rememberHashes sender hashes hashes st).2 = false →
  handleRemember_tx sender hashes txs st
  = (rememberHashes sender hashes hashes st).1.
Proof.
  intros Hf. unfold handleRemember_tx.
  by destruct (rememberHashes sender hashes hashes st) as [st' []].
Qed.

Lemma two_hashes_disconnect sender (hashes : list string) txs st n :
  heap st !! sender = Some n →
  2 ≤ length hashes →
  disconnected sender (handleRemember_tx sender hashes txs st).
Proof.
  intros Hn Hlen.
  destruct hashes as [|h1 [|h2 hs]]; simpl in Hlen; [lia|lia|].
  pose proof (rememberHashes_second_iteration sender h1 h2 hs st n Hn) as Hf.
  rewrite handleRemember_tx_early by done.
  by eapply rememberHashes_early_return.
Qed.

(** C2, as the code behaves: a [remember_tx] with two or more hashes
    disconnects the sender whatever the hashes are, also when they are
    pairwise distinct, not yet remembered and all known. *)
Theorem remember_tx_with_two_hashes_disconnects sender (hashes : list string)
    txs st n :
  heap st !! sender = Some n →
  2 ≤ length hashes →
  disconnected sender (handleRemember_tx sender hashes txs st).
Proof. apply two_hashes_disconnect. Qed.

(** *** The lookup of a referenced hash *)

Lemma firstOrDefault_oldest_first (h : string)
    (caches : list (gmap string TransactionTemplate)) :
  match Linq.firstOrDefault
          (Linq.select
             (Linq.where_ caches (λ cache, bool_decide (is_Some (cache !! h))))
             (λ cache, cache !! h)) with
  | Some (Some tx) => Some tx
  | _ => None
  end
  = head (omap (λ cache, cache !! h) caches).
Proof.
  unfold Linq.firstOrDefault, Linq.select, Linq.where_.
  induction caches as [|c caches IH]; simpl; [done|].
  destruct (c !! h) as [tx|] eqn:Hc; simpl.
  - by rewrite Hc.
  - done.
Qed.

Lemma lookupKnownTx_unfold st (h : string) :
  lookupKnownTx st h
  = match JsMap.get h (knownTxs st) with
    | Some tx => Some tx
    | None => head (omap (λ cache, cache !! h) (knownTxsCaches st))
    end.
Proof.
  unfold lookupKnownTx. destruct (JsMap.get h (knownTxs st)); [done|].
  apply firstOrDefault_oldest_first.
Qed.


Lemma head_omap_skip {A C} (f : A → option C) (older newer : list A) (x : A) (c : C) :
  (∀ y, y ∈ older → f y = None) → f x = Some c →
  head (omap f (older ++ x :: newer)) = Some c.
Proof.
  intros Hold Hx. induction older as [|y older IH]; simpl.
  - by rewrite Hx.
  - rewrite (Hold y) by by left. apply IH. intros z Hz. apply Hold. by right.
Qed.


End RememberTx.

Section RememberTxScenarios.
Import Peer.
Local Open Scope nat_scope.

Lemma remember_tx_two_hashes_witness :
  disconnected (B := Reference.bitcoinjs) 0
    (handleRemember_tx 0 ["a"; "b"]%string [] Reference.knowsTwo).
Proof.
  apply (remember_tx_with_two_hashes_disconnects (B := Reference.bitcoinjs)
           0 ["a"; "b"]%string [] Reference.knowsTwo
           (mkNode "10.0.0.1:9333" ∅ ∅ [Version; Have_tx ["a"; "b"]%string] false)).
  - vm_compute. reflexivity.
  - simpl. lia.
Defined.

(** The failing input of C2, evaluated: the coordinator knows [a] and [b],
    the peer remembers nothing, and [remember_tx(["a", "b"], [])] arrives.
    The peer ends up closed and unregistered, with only [a] remembered. *)
Example remember_tx_two_known_hashes_evaluated :
  lookupKnownTx (B := Reference.bitcoinjs) Reference.knowsTwo "a"
  = Some (Reference.template "a" "0a")
  ∧ lookupKnownTx (B := Reference.bitcoinjs) Reference.knowsTwo "b"
    = Some (Reference.template "b" "0b")
  ∧ rememberedOf (B := Reference.bitcoinjs) Reference.knowsTwo 0 = ∅
  ∧ heap (handleRemember_tx (B := Reference.bitcoinjs) 0 ["a"; "b"]%string []
            Reference.knowsTwo)
    = {[ 0 := mkNode (B := Reference.bitcoinjs) "10.0.0.1:9333"
                {[ "a"%string := "0a"%string ]} ∅
                [Version; Have_tx ["a"; "b"]%string] true ]}
  ∧ peers (handleRemember_tx (B := Reference.bitcoinjs) 0 ["a"; "b"]%string []
             Reference.knowsTwo) = ∅.
Proof. by vm_compute. Qed.

(** A single known hash is accepted: the peer stays registered and
    remembers the transaction. *)
Example remember_tx_one_known_hash_evaluated :
  heap (handleRemember_tx (B := Reference.bitcoinjs) 0 ["a"]%string []
          Reference.knowsTwo)
  = {[ 0 := mkNode (B := Reference.bitcoinjs) "10.0.0.1:9333"
              {[ "a"%string := "0a"%string ]} ∅
              [Version; Have_tx ["a"; "b"]%string] false ]}
  ∧ peers (handleRemember_tx (B := Reference.bitcoinjs) 0 ["a"]%string []
             Reference.knowsTwo)
    = {[ "10.0.0.1:9333"%string := 0 ]}.
Proof. by vm_compute. Qed.

(** The array order matters only off the states the coordinator reaches.
    In [Reference.reAnnounced], which assignments that drop a key build
    and no event does, hash [h] left [knownTxs] twice, first with data
    [01], later with data [02]: the code resolves it to the older
    snapshot's template, a most-recent-first scan to the newer one. *)
Remark scan_orders_differ_off_the_reachable_states :
  lookupKnownTx (B := Reference.bitcoinjs) Reference.reAnnounced "h"
  = Some (Reference.template "h" "01")
  ∧ lookupKnownTx_mostRecentFirst (B := Reference.bitcoinjs) Reference.reAnnounced "h"
    = Some (Reference.template "h" "02").
Proof. split; by vm_compute. Qed.

(** The unknown-hash scenario, evaluated: [remember_tx(["zz"], [])] for a
    hash in neither [knownTxs] nor a snapshot closes the peer and empties
    [peers]. *)
Example unknown_hash_evaluated :
  lookupKnownTx (B := Reference.bitcoinjs) Reference.knowsTwo "zz" = None
  ∧ (closed <$> heap (handleRemember_tx (B := Reference.bitcoinjs) 0 ["zz"%string] []
                        Reference.knowsTwo)) = {[ 0 := true ]}
  ∧ peers (handleRemember_tx (B := Reference.bitcoinjs) 0 ["zz"%string] []
             Reference.knowsTwo) = ∅.
Proof. by vm_compute. Qed.

End RememberTxScenarios.

(** ** Share validation ([BaseShare.init]) *)

Section InitFacts.
Import Js BaseShare.
Context `{P : Primitives}.
Variable cfg : Statics.

Implicit Types (s : BaseShare) (refs : list TransactionHashRef) (n : gset N).

(** *** The loop over the hash references *)

Lemma forEach_collectRef_ok refs n :
  Forall (λ t, (shareCount t < 110)%N) refs →
  forEach collectRef refs n
  = Ok (n ∪ list_to_set (txCount <$> filter (λ t, shareCount t = 0%N) refs)).
Proof.
  intros Hall. revert n. induction Hall as [|t refs Ht Hall IH]; intros n; simpl.
  - f_equal. set_solver.
  - unfold collectRef at 1. rewrite bool_decide_eq_true_2 by done.
    destruct (N.ltb_spec 0 (shareCount t)) as [Hpos|Hzero]; simpl.
    + rewrite IH. rewrite filter_cons_False by lia. done.
    + rewrite IH. rewrite filter_cons_True by lia. simpl. f_equal. set_solver.
Qed.

Lemma forEach_collectRef_throw refs n :
  Exists (λ t, (110 ≤ shareCount t)%N) refs →
  forEach collectRef refs n = Throw AssertionError.
Proof.
  intros Hex. revert n. induction refs as [|t refs IH]; intros n.
  - by apply Exists_nil in Hex.
  - simpl. unfold collectRef at 1.
    case_bool_decide as Hlt; simpl; [|done].
    apply Exists_cons in Hex as [Hbad|Hex]; [lia|].
    destruct (0 <? shareCount t)%N; simpl; by apply IH.
Qed.

Lemma forEach_collectRef_inv refs n0 n :
  forEach collectRef refs n0 = Ok n →
  Forall (λ t, (shareCount t < 110)%N) refs
  ∧ n = n0 ∪ list_to_set (txCount <$> filter (λ t, shareCount t = 0%N) refs).
Proof.
  intros Hok.
  destruct (decide (Forall (λ t, (shareCount t < 110)%N) refs)) as [Hall|Hnot].
  - split; [done|]. rewrite forEach_collectRef_ok in Hok by done. congruence.
  - apply not_Forall_Exists in Hnot; [|apply _].
    rewrite forEach_collectRef_throw in Hok; [done|].
    eapply Exists_impl; [exact Hnot|]. simpl. intros t Ht. lia.
Qed.

(** The size of the set that [init()] builds is the number of distinct
    [(0, txCount)] tuples. *)
Lemma size_own_txCounts (info : ShareInfo) :
  size (list_to_set (txCount <$> ownRefs info) : gset N)
  = length (distinctOwnRefs info).
Proof.
  unfold distinctOwnRefs.
  assert (Hinj : ∀ x y, x ∈ remove_dups (ownRefs info) →
                        y ∈ remove_dups (ownRefs info) →
                        txCount x = txCount y → x = y).
  { intros [sx tx] [sy ty] Hx Hy. rewrite !elem_of_remove_dups in *.
    unfold ownRefs in *. apply list_elem_of_filter in Hx as [Hx _].
    apply list_elem_of_filter in Hy as [Hy _]. simpl in *. congruence. }
  rewrite <- (length_fmap txCount).
  rewrite <- (size_list_to_set (C := gset N)).
  - f_equal. apply set_eq. intros x.
    rewrite !elem_of_list_to_set, !list_elem_of_fmap.
    by setoid_rewrite elem_of_remove_dups.
  - apply NoDup_fmap_2_strong; [done|apply NoDup_remove_dups].
Qed.

(** *** [init()] in terms of the share it is called on *)

Lemma init_unfold s :
  init cfg s
  = match forEach collectRef (extractTransactionHashRefs (info s)) ∅ with
    | Throw e => (s, Throw e)
    | Ok n =>
      if bool_decide (size n ≠ length (newTransactionHashes (info s)))
      then (s, Ok false)
      else
        let tgt := bitsToTarget (bits (info s)) in
        let s1 := set_target tgt
                    (set_newScript (hash160ToScript (pubkeyHash (data (info s))))
                       (set_newTxHashes (newTransactionHashes (info s)) s)) in
        match computeGentxHash cfg s with
        | Throw e => (s1, Throw e)
        | Ok gentx =>
          match computeMerkleRoot (isSegwitActivated cfg (VERSION s)) gentx s with
          | Throw e => (set_gentxHash gentx s1, Throw e)
          | Ok merkleRoot =>
            let s3 := set_previousHash (previousShareHash (data (info s)))
                        (set_hash (hexFromReversedBuffer
                                     (calculateHash (minHeader s) merkleRoot))
                           (set_gentxHash gentx s1)) in
            if MAX_TARGET cfg <? tgt then (s3, Ok false)
            else
              match powInteger cfg s merkleRoot with
              | Throw e => (s3, Throw e)
              | Ok pow =>
                if BigNum.gt (BigNum.toNumber pow) tgt then (s3, Ok false)
                else (set_validity true s3, Ok true)
              end
          end
        end
    end.
Proof. by destruct s. Qed.

Lemma validity_derived s v1 v2 v3 v4 v5 v6 :
  validity (set_previousHash v1 (set_hash v2 (set_gentxHash v3
             (set_target v4 (set_newScript v5 (set_newTxHashes v6 s))))))
  = validity s
  ∧ validity (set_gentxHash v3 (set_target v4 (set_newScript v5 (set_newTxHashes v6 s))))
    = validity s
  ∧ validity (set_target v4 (set_newScript v5 (set_newTxHashes v6 s))) = validity s
  ∧ target (set_validity true (set_previousHash v1 (set_hash v2 (set_gentxHash v3
             (set_target v4 (set_newScript v5 (set_newTxHashes v6 s)))))))
    = Some v4.
Proof. by destruct s. Qed.

(** [init()] leaves the parsed fields alone. *)
Lemma init_parsed_fields s :
  VERSION (init cfg s).1 = VERSION s
  ∧ minHeader (init cfg s).1 = minHeader s
  ∧ info (init cfg s).1 = info s
  ∧ refMerkleLink (init cfg s).1 = refMerkleLink s
  ∧ lastTxoutNonce (init cfg s).1 = lastTxoutNonce s
  ∧ hashLink (init cfg s).1 = hashLink s
  ∧ merkleLink (init cfg s).1 = merkleLink s.
Proof.
  destruct s. unfold init.
  cbn -[forEach computeGentxHash computeMerkleRoot powInteger BigNum.toNumber
        BigNum.gt bool_decide].
  destruct_matches; done.
Qed.

Lemma own_count_of_loop s n :
  forEach collectRef (extractTransactionHashRefs (info s)) ∅ = Ok n →
  Forall (λ t, (shareCount t < 110)%N) (extractTransactionHashRefs (info s))
  ∧ size n = length (distinctOwnRefs (info s)).
Proof.
  intros Hfe. apply forEach_collectRef_inv in Hfe as [Hall ->].
  split; [done|]. rewrite (left_id_L ∅ (∪)). apply size_own_txCounts.
Qed.

Lemma toNumber_exact (pow : N) :
  Z.of_N pow < 2 ^ 53 → BigNum.toNumber pow = BigNum.Fin (Z.of_N pow).
Proof.
  intros Hlt. unfold BigNum.toNumber, BigNum.nearestDouble.
  assert (H53 : 2 ^ 53 < 2 ^ 1024 - 2 ^ 970) by (by vm_compute).
  destruct (Z.ltb_spec (Z.of_N pow) (2 ^ 1024 - 2 ^ 970)) as [_|Hge]; [|lia].
  by destruct (Z.ltb_spec (Z.of_N pow) (2 ^ 53)) as [_|Hge]; [|lia].
Qed.

(** C3, as the code behaves: when [init()] leaves a share valid, the
    proof-of-work hash of the full header, read as a little-endian
    integer and converted to a JavaScript number ([toNumber()], the
    nearest double), is at most the target; the target is at most
    [MAX_TARGET]; and the number of distinct [(0, txCount)] tuples equals
    [newTransactionHashes.length]. Below [2^53] the conversion is exact. *)
Theorem valid_share_invariant s :
  validity s = false →
  validity (init cfg s).1 = true →
  ∃ gentx merkleRoot powFunc pow powNumber,
    (init cfg s).2 = Ok true
    ∧ computeGentxHash cfg s = Ok gentx
    ∧ computeMerkleRoot (isSegwitActivated cfg (VERSION s)) gentx s = Ok merkleRoot
    ∧ PowFunc cfg = Some powFunc
    ∧ BigNum.fromBuffer_le 32 (powFunc (buildHeader (minHeader s) merkleRoot)) = Ok pow
    ∧ BigNum.toNumber pow = BigNum.Fin powNumber
    ∧ powNumber ≤ bitsToTarget (bits (info s))
    ∧ target (init cfg s).1 = Some (bitsToTarget (bits (info s)))
    ∧ bitsToTarget (bits (info s)) ≤ MAX_TARGET cfg
    ∧ length (distinctOwnRefs (info s)) = length (newTransactionHashes (info s))
    ∧ (Z.of_N pow < 2 ^ 53 → Z.of_N pow ≤ bitsToTarget (bits (info s)))
    ∧ info (init cfg s).1 = info s
    ∧ minHeader (init cfg s).1 = minHeader s.
Proof.
  intros Hv Hvalid.
  pose proof (init_parsed_fields s) as (_ & Hmh & Hinfo & _).
  revert Hmh Hinfo. rewrite init_unfold in *. intros Hmh Hinfo.
  pose proof (λ v1 v2 v3 v4 v5 v6, validity_derived s v1 v2 v3 v4 v5 v6) as Hd.
  destruct (forEach collectRef _ ∅) as [n|e] eqn:Hfe; simpl in Hvalid; [|congruence].
  apply own_count_of_loop in Hfe as [_ Hsize].
  case_bool_decide as Hsz; simpl in Hvalid; [congruence|].
  cbv zeta in *.
  destruct (computeGentxHash cfg s) as [gentx|e] eqn:Hg; simpl in Hvalid;
    [|rewrite (proj1 (proj2 (proj2 (Hd "" "" [] _ _ _)))) in Hvalid; congruence].
  destruct (computeMerkleRoot _ gentx s) as [root|e] eqn:Hr; simpl in Hvalid;
    [|rewrite (proj1 (proj2 (Hd "" "" _ _ _ _))) in Hvalid; congruence].
  destruct (Z.ltb_spec (MAX_TARGET cfg) (bitsToTarget (bits (info s)))) as [Hhigh|Hmax];
    simpl in Hvalid; [rewrite (proj1 (Hd _ _ _ _ _ _)) in Hvalid; congruence|].
  destruct (powInteger cfg s root) as [pow|e] eqn:Hp; simpl in Hvalid;
    [|rewrite (proj1 (Hd _ _ _ _ _ _)) in Hvalid; congruence].
  destruct (BigNum.gt (BigNum.toNumber pow) _) eqn:Hgt; simpl in Hvalid;
    [rewrite (proj1 (Hd _ _ _ _ _ _)) in Hvalid; congruence|].
  unfold powInteger in Hp. destruct (PowFunc cfg) as [powFunc|] eqn:Hpf; [|done].
  destruct (BigNum.toNumber pow) as [z|] eqn:Hz; simpl in Hgt; [|done].
  apply Z.ltb_ge in Hgt.
  exists gentx, root, powFunc, pow, z. simpl.
  repeat split; try done.
  - apply (proj2 (proj2 (proj2 (Hd _ _ _ _ _ _)))).
  - rewrite <- Hsize. by destruct (decide (size n = length (newTransactionHashes (info s)))).
  - intros Hsmall. rewrite toNumber_exact in Hz by done. by injection Hz as <-.
Qed.

(** C6, as the code behaves: a dedup-count mismatch, a too-high target and
    insufficient proof of work make [init()] return [false] with
    [validity] still false and nothing thrown; a hash reference with
    [shareCount ≥ 110] makes the [assert] throw an [AssertionError] to the
    caller, the share unchanged. *)
Theorem validation_failures s :
  validity s = false →
  ((init cfg s).2 = Ok false → validity (init cfg s).1 = false)
  ∧ (Forall (λ t, (shareCount t < 110)%N) (extractTransactionHashRefs (info s)) →
     length (distinctOwnRefs (info s)) ≠ length (newTransactionHashes (info s)) →
     init cfg s = (s, Ok false))
  ∧ (∀ gentx merkleRoot,
       Forall (λ t, (shareCount t < 110)%N) (extractTransactionHashRefs (info s)) →
       length (distinctOwnRefs (info s)) = length (newTransactionHashes (info s)) →
       computeGentxHash cfg s = Ok gentx →
       computeMerkleRoot (isSegwitActivated cfg (VERSION s)) gentx s = Ok merkleRoot →
       MAX_TARGET cfg < bitsToTarget (bits (info s)) →
       (init cfg s).2 = Ok false ∧ validity (init cfg s).1 = false)
  ∧ (∀ gentx merkleRoot pow,
       Forall (λ t, (shareCount t < 110)%N) (extractTransactionHashRefs (info s)) →
       length (distinctOwnRefs (info s)) = length (newTransactionHashes (info s)) →
       computeGentxHash cfg s = Ok gentx →
       computeMerkleRoot (isSegwitActivated cfg (VERSION s)) gentx s = Ok merkleRoot →
       bitsToTarget (bits (info s)) ≤ MAX_TARGET cfg →
       powInteger cfg s merkleRoot = Ok pow →
       BigNum.gt (BigNum.toNumber pow) (bitsToTarget (bits (info s))) = true →
       (init cfg s).2 = Ok false ∧ validity (init cfg s).1 = false)
  ∧ (Exists (λ t, (110 ≤ shareCount t)%N) (extractTransactionHashRefs (info s)) →
     init cfg s = (s, Throw AssertionError)).
Proof.
  intros Hv.
  pose proof (λ v1 v2 v3 v4 v5 v6, validity_derived s v1 v2 v3 v4 v5 v6) as Hd.
  assert (Hloop :
    Forall (λ t, (shareCount t < 110)%N) (extractTransactionHashRefs (info s)) →
    ∃ n, forEach collectRef (extractTransactionHashRefs (info s)) ∅ = Ok n
         ∧ size n = length (distinctOwnRefs (info s))).
  { intros Hall. eexists. split; [by apply forEach_collectRef_ok|].
    rewrite (left_id_L ∅ (∪)). apply size_own_txCounts. }
  split; [|split; [|split; [|split]]].
  - rewrite init_unfold.
    destruct (forEach collectRef _ ∅) as [n|e]; simpl; [|done].
    case_bool_decide; simpl; [done|]. cbv zeta.
    destruct (computeGentxHash cfg s) as [gentx|e]; simpl; [|done].
    destruct (computeMerkleRoot _ gentx s) as [root|e]; simpl; [|done].
    destruct (MAX_TARGET cfg <? _); simpl;
      [intros _; by rewrite (proj1 (Hd _ _ _ _ _ _))|].
    destruct (powInteger cfg s root) as [pow|e]; simpl; [|done].
    destruct (BigNum.gt _ _); simpl; [|done].
    intros _. by rewrite (proj1 (Hd _ _ _ _ _ _)).
  - intros Hall Hne. rewrite init_unfold.
    destruct (Hloop Hall) as [n [-> Hsize]].
    rewrite bool_decide_eq_true_2; [done|]. by rewrite Hsize.
  - intros gentx root Hall Heq Hg Hr Hhigh. rewrite init_unfold.
    destruct (Hloop Hall) as [n [-> Hsize]].
    rewrite bool_decide_eq_false_2 by (rewrite Hsize; auto).
    cbv zeta. rewrite Hg, Hr.
    rewrite (proj2 (Z.ltb_lt _ _) Hhigh). simpl.
    split; [done|]. by rewrite (proj1 (Hd _ _ _ _ _ _)).
  - intros gentx root pow Hall Heq Hg Hr Hmax Hp Hgt. rewrite init_unfold.
    destruct (Hloop Hall) as [n [-> Hsize]].
    rewrite bool_decide_eq_false_2 by (rewrite Hsize; auto).
    cbv zeta. rewrite Hg, Hr.
    rewrite (proj2 (Z.ltb_ge _ _) Hmax), Hp, Hgt. simpl.
    split; [done|]. by rewrite (proj1 (Hd _ _ _ _ _ _)).
  - intros Hex. rewrite init_unfold.
    by rewrite forEach_collectRef_throw.
Qed.

End InitFacts.

Section InitScenarios.
Import Js BaseShare.

Lemma valid_share_witness :
  ∃ gentx merkleRoot powFunc pow powNumber,
    (init (Reference.statics 1 (2 ^ 224)) (Reference.share Reference.someInfo)).2
    = Ok true
    ∧ computeGentxHash (Reference.statics 1 (2 ^ 224))
        (Reference.share Reference.someInfo) = Ok gentx
    ∧ computeMerkleRoot
        (isSegwitActivated (Reference.statics 1 (2 ^ 224))
           (VERSION (Reference.share Reference.someInfo)))
        gentx (Reference.share Reference.someInfo) = Ok merkleRoot
    ∧ PowFunc (Reference.statics 1 (2 ^ 224)) = Some powFunc
    ∧ BigNum.fromBuffer_le 32
        (powFunc (buildHeader (minHeader (Reference.share Reference.someInfo))
                    merkleRoot)) = Ok pow
    ∧ BigNum.toNumber pow = BigNum.Fin powNumber
    ∧ powNumber ≤ bitsToTarget (bits (info (Reference.share Reference.someInfo)))
    ∧ target (init (Reference.statics 1 (2 ^ 224))
                (Reference.share Reference.someInfo)).1
      = Some (bitsToTarget (bits (info (Reference.share Reference.someInfo))))
    ∧ bitsToTarget (bits (info (Reference.share Reference.someInfo)))
      ≤ MAX_TARGET (Reference.statics 1 (2 ^ 224))
    ∧ length (distinctOwnRefs (info (Reference.share Reference.someInfo)))
      = length (newTransactionHashes (info (Reference.share Reference.someInfo)))
    ∧ (Z.of_N pow < 2 ^ 53 →
       Z.of_N pow ≤ bitsToTarget (bits (info (Reference.share Reference.someInfo))))
    ∧ info (init (Reference.statics 1 (2 ^ 224))
              (Reference.share Reference.someInfo)).1
      = info (Reference.share Reference.someInfo)
    ∧ minHeader (init (Reference.statics 1 (2 ^ 224))
                   (Reference.share Reference.someInfo)).1
      = minHeader (Reference.share Reference.someInfo).
Proof.
  apply (valid_share_invariant (P := Reference.primitives)
           (Reference.statics 1 (2 ^ 224)) (Reference.share Reference.someInfo)).
  - reflexivity.
  - vm_compute. reflexivity.
Defined.

(** C3 as stated fails: the proof-of-work hash is [2^200 + 1], the target
    of bits [0x1a010000] is [2^200]. [toNumber()] rounds the hash to the
    double [2^200], which is not greater than the target, so the share
    ends valid although the integer exceeds the target. *)
Lemma pow_compared_after_rounding :
  validity (init (P := Reference.primitives) (Reference.statics (2 ^ 200 + 1) (2 ^ 224))
              (Reference.share Reference.someInfo)).1 = true
  ∧ target (init (P := Reference.primitives) (Reference.statics (2 ^ 200 + 1) (2 ^ 224))
              (Reference.share Reference.someInfo)).1 = Some (2 ^ 200)
  ∧ (gentx ← computeGentxHash (P := Reference.primitives)
               (Reference.statics (2 ^ 200 + 1) (2 ^ 224))
               (Reference.share Reference.someInfo);
     merkleRoot ← computeMerkleRoot (P := Reference.primitives) false gentx
                    (Reference.share Reference.someInfo);
     powInteger (P := Reference.primitives) (Reference.statics (2 ^ 200 + 1) (2 ^ 224))
       (Reference.share Reference.someInfo) merkleRoot)
    = Ok (2 ^ 200 + 1)%N
  ∧ BigNum.toNumber (2 ^ 200 + 1) = BigNum.Fin (2 ^ 200)
  ∧ ¬ (Z.of_N (2 ^ 200 + 1) ≤ 2 ^ 200).
Proof.
  split; [|split; [|split; [|split]]]; by vm_compute.
Qed.

Lemma validation_failures_witness :
  ((init (Reference.statics 1 (2 ^ 224)) (Reference.share Reference.mismatchInfo)).2
   = Ok false →
   validity (init (Reference.statics 1 (2 ^ 224))
               (Reference.share Reference.mismatchInfo)).1 = false)
  ∧ (Forall (λ t, (shareCount t < 110)%N)
       (extractTransactionHashRefs (info (Reference.share Reference.mismatchInfo))) →
     length (distinctOwnRefs (info (Reference.share Reference.mismatchInfo)))
     ≠ length (newTransactionHashes (info (Reference.share Reference.mismatchInfo))) →
     init (Reference.statics 1 (2 ^ 224)) (Reference.share Reference.mismatchInfo)
     = (Reference.share Reference.mismatchInfo, Ok false))
  ∧ (∀ gentx merkleRoot,
       Forall (λ t, (shareCount t < 110)%N)
         (extractTransactionHashRefs (info (Reference.share Reference.mismatchInfo))) →
       length (distinctOwnRefs (info (Reference.share Reference.mismatchInfo)))
       = length (newTransactionHashes (info (Reference.share Reference.mismatchInfo))) →
       computeGentxHash (Reference.statics 1 (2 ^ 224))
         (Reference.share Reference.mismatchInfo) = Ok gentx →
       computeMerkleRoot
         (isSegwitActivated (Reference.statics 1 (2 ^ 224))
            (VERSION (Reference.share Reference.mismatchInfo)))
         gentx (Reference.share Reference.mismatchInfo) = Ok merkleRoot →
       MAX_TARGET (Reference.statics 1 (2 ^ 224))
       < bitsToTarget (bits (info (Reference.share Reference.mismatchInfo))) →
       (init (Reference.statics 1 (2 ^ 224)) (Reference.share Reference.mismatchInfo)).2
       = Ok false
       ∧ validity (init (Reference.statics 1 (2 ^ 224))
                     (Reference.share Reference.mismatchInfo)).1 = false)
  ∧ (∀ gentx merkleRoot pow,
       Forall (λ t, (shareCount t < 110)%N)
         (extractTransactionHashRefs (info (Reference.share Reference.mismatchInfo))) →
       length (distinctOwnRefs (info (Reference.share Reference.mismatchInfo)))
       = length (newTransactionHashes (info (Reference.share Reference.mismatchInfo))) →
       computeGentxHash (Reference.statics 1 (2 ^ 224))
         (Reference.share Reference.mismatchInfo) = Ok gentx →
       computeMerkleRoot
         (isSegwitActivated (Reference.statics 1 (2 ^ 224))
            (VERSION (Reference.share Reference.mismatchInfo)))
         gentx (Reference.share Reference.mismatchInfo) = Ok merkleRoot →
       bitsToTarget (bits (info (Reference.share Reference.mismatchInfo)))
       ≤ MAX_TARGET (Reference.statics 1 (2 ^ 224)) →
       powInteger (Reference.statics 1 (2 ^ 224))
         (Reference.share Reference.mismatchInfo) merkleRoot = Ok pow →
       BigNum.gt (BigNum.toNumber pow)
         (bitsToTarget (bits (info (Reference.share Reference.mismatchInfo)))) = true →
       (init (Reference.statics 1 (2 ^ 224)) (Reference.share Reference.mismatchInfo)).2
       = Ok false
       ∧ validity (init (Reference.statics 1 (2 ^ 224))
                     (Reference.share Reference.mismatchInfo)).1 = false)
  ∧ (Exists (λ t, (110 ≤ shareCount t)%N)
       (extractTransactionHashRefs (info (Reference.share Reference.mismatchInfo))) →
     init (Reference.statics 1 (2 ^ 224)) (Reference.share Reference.mismatchInfo)
     = (Reference.share Reference.mismatchInfo, Throw AssertionError)).
Proof.
  apply (validation_failures (P := Reference.primitives)
           (Reference.statics 1 (2 ^ 224)) (Reference.share Reference.mismatchInfo)).
  reflexivity.
Defined.

(** C6 as stated fails: a share whose second hash reference has
    [shareCount = 110] does not return from [init()]: the [assert]
    throws. *)
Lemma share_count_assertion_throws :
  (init (P := Reference.primitives) (Reference.statics 1 (2 ^ 224))
     (Reference.share Reference.tooFarInfo)).2 = Throw AssertionError
  ∧ ¬ returns (init (P := Reference.primitives) (Reference.statics 1 (2 ^ 224))
                 (Reference.share Reference.tooFarInfo)).2.
Proof.
  split; [by vm_compute|]. intros [b Hb]. vm_compute in Hb. discriminate.
Qed.

(** The three failures that do return, and the success, evaluated with
    target [2^200]: a reference list naming one own transaction where two
    are new; [MAX_TARGET = 2^199]; a hash of [2^201]; a hash of 1. *)
Example validation_outcomes_evaluated :
  (init (P := Reference.primitives) (Reference.statics 1 (2 ^ 224))
     (Reference.share Reference.mismatchInfo)).2 = Ok false
  ∧ (init (P := Reference.primitives) (Reference.statics 1 (2 ^ 199))
       (Reference.share Reference.someInfo)).2 = Ok false
  ∧ (init (P := Reference.primitives) (Reference.statics (2 ^ 201) (2 ^ 224))
       (Reference.share Reference.someInfo)).2 = Ok false
  ∧ (init (P := Reference.primitives) (Reference.statics 1 (2 ^ 224))
       (Reference.share Reference.someInfo)).2 = Ok true.
Proof. by vm_compute. Qed.

End InitScenarios.

(** ** Parsing and serializing a share *)

Section RoundTrip.
Import Js BaseShare.
Context `{P : Primitives}.
Variable cfg : Statics.

(** [init()] assigns derived fields only: the serialization is not
    affected. *)
Lemma toBuffer_setters (s : BaseShare) v1 v2 v3 v4 v5 v6 v7 :
  toBuffer (set_newTxHashes v1 s) = toBuffer s
  ∧ toBuffer (set_newScript v2 s) = toBuffer s
  ∧ toBuffer (set_target v3 s) = toBuffer s
  ∧ toBuffer (set_gentxHash v4 s) = toBuffer s
  ∧ toBuffer (set_hash v5 s) = toBuffer s
  ∧ toBuffer (set_previousHash v6 s) = toBuffer s
  ∧ toBuffer (set_validity v7 s) = toBuffer s.
Proof. by destruct s. Qed.

Lemma toBuffer_init (s : BaseShare) : toBuffer (init cfg s).1 = toBuffer s.
Proof.
  destruct s. unfold init. cbn -[forEach computeGentxHash computeMerkleRoot
                                  powInteger BigNum.toNumber BigNum.gt bool_decide].
  destruct_matches; reflexivity.
Qed.

Lemma toBuffer_construct (v : Variant) mh i rml nonce hl ml :
  toBuffer (construct v mh i rml nonce hl ml)
  = SmallBlockHeader_toBuffer mh ++ ShareInfo_toBuffer i ++ writeList rml
    ++ BigNum.toBuffer_le 8 nonce ++ HashLink_toBuffer hl ++ writeList ml.
Proof. by destruct v. Qed.

(** C4: a buffer that [fromBufferReader] parses into a share is, up to
    the bytes left unread, what [toBuffer] writes for that share, given
    that the readers and writers of the parts round-trip; the fields are
    written in the order they are read. *)
Theorem parse_then_serialize (laws : CodecLaws P) (version : Z)
    (b rest : Buffer) (share : BaseShare) :
  fromBufferReader cfg version b = Ok (Some share, rest) →
  b = toBuffer share ++ rest
  ∧ (rest = [] → toBuffer share = b).
Proof.
  intros Hparse.
  assert (Heq : b = toBuffer share ++ rest).
  { unfold fromBufferReader in Hparse.
    destruct (ShareVersionMapper version) as [v|]; [|done].
    unfold mbind, Res_bind in Hparse.
    destruct (SmallBlockHeader_fromBufferReader b) as [[mh r1]|] eqn:H1; [|done].
    simpl in Hparse.
    destruct (ShareInfo_fromBufferReader r1 _) as [[i r2]|] eqn:H2; [|done].
    simpl in Hparse.
    destruct (readList 32 r2) as [[rml r3]|] eqn:H3; [|done]. simpl in Hparse.
    destruct (readNumber 8 r3) as [[nonce r4]|] eqn:H4; [|done]. simpl in Hparse.
    destruct (HashLink_fromBufferReader r4) as [[hl r5]|] eqn:H5; [|done].
    simpl in Hparse.
    destruct (readList 32 r5) as [[ml r6]|] eqn:H6; [|done]. simpl in Hparse.
    pose proof (toBuffer_init (construct v mh i rml nonce hl ml)) as Hinit.
    destruct (init cfg (construct v mh i rml nonce hl ml)) as [s' [ret|e]];
      [|done].
    injection Hparse as <- <-. simpl in Hinit.
    rewrite Hinit, toBuffer_construct.
    apply (header_roundtrip P laws) in H1 as ->.
    apply (info_roundtrip P laws) in H2 as ->.
    apply (list_roundtrip P laws) in H3 as ->.
    apply (number_roundtrip P laws) in H4 as ->.
    apply (hashLink_roundtrip P laws) in H5 as ->.
    apply (list_roundtrip P laws) in H6 as ->.
    by rewrite <- !(assoc_L (++)). }
  split; [done|]. intros ->. by rewrite app_nil_r in Heq.
Qed.

End RoundTrip.

(** ** The reference readers and writers round-trip *)

Section ReferenceCodecs.
Import Js BaseShare.
Local Open Scope N_scope.

Lemma byteOfN_to_N (x : byte) (k : N) : Bytes.byteOfN (Byte.to_N x + 256 * k) = x.
Proof.
  unfold Bytes.byteOfN. pose proof (Byte.to_N_bounded x) as Hx.
  replace ((Byte.to_N x + 256 * k) mod 256) with (Byte.to_N x).
  - by rewrite Byte.of_to_N.
  - apply (N.mod_unique _ _ k); lia.
Qed.

Lemma le_encode_decode (b : Buffer) :
  Bytes.le_encode (length b) (Bytes.le_decode b) = b.
Proof.
  induction b as [|x b IH]; simpl; [done|].
  rewrite byteOfN_to_N. f_equal.
  pose proof (Byte.to_N_bounded x) as Hx.
  replace ((Byte.to_N x + 256 * Bytes.le_decode b) / 256) with (Bytes.le_decode b);
    [done|].
  apply (N.div_unique _ _ _ (Byte.to_N x)); lia.
Qed.

Lemma readBytes_inv (n : nat) (r b r' : Buffer) :
  Reference.readBytes n r = Ok (b, r') → r = b ++ r' ∧ length b = n.
Proof.
  unfold Reference.readBytes. case_bool_decide as Hlen; [done|].
  intros [= <- <-]. split; [by rewrite take_drop|].
  rewrite length_take. lia.
Qed.

Lemma readNumber_inv (n : nat) (r r' : Buffer) (z : N) :
  Reference.readNumber n r = Ok (z, r') →
  ∃ b, r = b ++ r' ∧ length b = n ∧ z = Bytes.le_decode b.
Proof.
  unfold Reference.readNumber, mbind, Res_bind.
  destruct (Reference.readBytes n r) as [[b r0]|] eqn:Hb; [|done]. simpl.
  intros [= <- <-]. apply readBytes_inv in Hb as [-> Hlen]. by exists b.
Qed.

Lemma readNumber_roundtrip (n : nat) (r r' : Buffer) (z : N) :
  Reference.readNumber n r = Ok (z, r') → r = Bytes.le_encode n z ++ r'.
Proof.
  intros Hr. apply readNumber_inv in Hr as [b [-> [<- ->]]].
  by rewrite le_encode_decode.
Qed.

Lemma le_decode_8_bound (b : Buffer) :
  length b = 8%nat → Bytes.le_decode b < 18446744073709551616.
Proof.
  intros Hlen.
  destruct b as [|x1 [|x2 [|x3 [|x4 [|x5 [|x6 [|x7 [|x8 [|]]]]]]]]]; try done.
  simpl.
  pose proof (Byte.to_N_bounded x1). pose proof (Byte.to_N_bounded x2).
  pose proof (Byte.to_N_bounded x3). pose proof (Byte.to_N_bounded x4).
  pose proof (Byte.to_N_bounded x5). pose proof (Byte.to_N_bounded x6).
  pose proof (Byte.to_N_bounded x7). pose proof (Byte.to_N_bounded x8).
  lia.
Qed.

(** Below [2^64] the big number is written as one word of 8 bytes. *)
Lemma toBuffer_le_one_word (z : N) :
  z < 18446744073709551616 → BigNum.toBuffer_le 8 z = Bytes.le_encode 8 z.
Proof.
  intros Hz. unfold BigNum.toBuffer_le.
  assert (Hh : 1 ≤ BigNum.hexLength z ≤ 16).
  { unfold BigNum.hexLength. destruct (N.eqb_spec z 0) as [|Hnz]; [lia|].
    assert (Hlog : N.log2 z < 64).
    { apply N.log2_lt_pow2; [lia|]. by change (2 ^ 64) with 18446744073709551616. }
    assert (Hq : N.log2 z / 4 < 16) by (apply N.Div0.div_lt_upper_bound; lia).
    revert Hq. generalize (N.log2 z / 4). intros q Hq. lia. }
  change (2 * N.of_nat 8) with 16.
  replace ((BigNum.hexLength z + 16 - 1) / 16) with 1
    by (apply (N.div_unique _ _ _ (BigNum.hexLength z - 1)); lia).
  change (N.to_nat 1) with 1%nat. cbn [seq reverse rev_append fmap list_fmap concat].
  unfold reverse. cbn [rev_append fmap list_fmap concat].
  rewrite app_nil_r.
  change (8 * N.of_nat 8 * N.of_nat 0) with 0.
  change (2 ^ 0) with 1. rewrite N.div_1_r.
  change (2 ^ (8 * N.of_nat 8)) with 18446744073709551616.
  by rewrite N.mod_small.
Qed.

Lemma readItems_inv (count size : nat) (r r' : Buffer) (xs : list Buffer) :
  Reference.readItems count size r = Ok (xs, r') →
  r = concat xs ++ r' ∧ length xs = count.
Proof.
  revert r xs. induction count as [|count IH]; intros r xs; simpl.
  - by intros [= <- <-].
  - unfold mbind, Res_bind.
    destruct (Reference.readBytes size r) as [[x r0]|] eqn:Hx; [|done]. simpl.
    destruct (Reference.readItems count size r0) as [[ys r1]|] eqn:Hys; [|done].
    simpl. intros [= <- <-].
    apply readBytes_inv in Hx as [-> _]. apply IH in Hys as [-> <-].
    simpl. by rewrite <- (assoc_L (++)).
Qed.

Lemma writeVarNumber_byte (c : byte) :
  Byte.to_N c < 253 → writeVarNumber (Byte.to_N c) = [c].
Proof.
  intros Hc. unfold writeVarNumber.
  destruct (N.ltb_spec (Byte.to_N c) 253) as [_|]; [|lia].
  f_equal. rewrite <- (N.add_0_r (Byte.to_N c)).
  change 0 with (256 * 0) at 1. apply byteOfN_to_N.
Qed.

Lemma readList_roundtrip (size : nat) (r r' : Buffer) (l : list Buffer) :
  Reference.readList size r = Ok (l, r') → r = Reference.writeList l ++ r'.
Proof.
  unfold Reference.readList, Reference.writeList.
  destruct r as [|c r0]; [done|].
  destruct (N.ltb_spec (Byte.to_N c) 253) as [Hc|]; [|done].
  intros Hitems. apply readItems_inv in Hitems as [-> Hlen].
  rewrite Hlen, N2Nat.id, writeVarNumber_byte by done. done.
Qed.

Lemma reference_codec_laws : CodecLaws Reference.primitives.
Proof.
  split; simpl.
  - intros r h r'. unfold Reference.SmallBlockHeader_fromBufferReader, mbind, Res_bind.
    destruct (Reference.readNumber 4 r) as [[v r1]|] eqn:H1; [|done]. simpl.
    destruct (Reference.readBytes 32 r1) as [[p r2]|] eqn:H2; [|done]. simpl.
    destruct (Reference.readNumber 4 r2) as [[t r3]|] eqn:H3; [|done]. simpl.
    destruct (Reference.readNumber 4 r3) as [[b r4]|] eqn:H4; [|done]. simpl.
    destruct (Reference.readNumber 4 r4) as [[n r5]|] eqn:H5; [|done]. simpl.
    intros [= <- <-]. unfold Reference.SmallBlockHeader_toBuffer. simpl.
    rewrite !N2Z.id.
    apply readNumber_roundtrip in H1 as ->. apply readBytes_inv in H2 as [-> _].
    apply readNumber_roundtrip in H3 as ->. apply readNumber_roundtrip in H4 as ->.
    apply readNumber_roundtrip in H5 as ->.
    by rewrite <- !(assoc_L (++)).
  - intros r flag i r'. unfold Reference.ShareInfo_fromBufferReader.
    destruct r as [|c r0]; [done|]. destruct c; try done. by intros [= <- <-].
  - intros r l r'. apply readList_roundtrip.
  - intros r z r' Hr.
    pose proof (readNumber_inv _ _ _ _ Hr) as [b [_ [Hlen ->]]].
    rewrite toBuffer_le_one_word by by apply le_decode_8_bound.
    by apply readNumber_roundtrip.
  - intros r l r'. unfold Reference.HashLink_fromBufferReader, mbind, Res_bind.
    destruct (Reference.readBytes 32 r) as [[st r1]|] eqn:H1; [|done]. simpl.
    destruct (Reference.readNumber 8 r1) as [[len r2]|] eqn:H2; [|done]. simpl.
    destruct r2 as [|c r3]; [done|].
    destruct (N.ltb_spec (Byte.to_N c) 253) as [Hc|]; [|done].
    destruct (Reference.readBytes _ r3) as [[tl r4]|] eqn:H3; [|done]. simpl.
    intros [= <- <-]. unfold Reference.HashLink_toBuffer. simpl.
    apply readBytes_inv in H1 as [-> _]. apply readNumber_roundtrip in H2 as ->.
    apply readBytes_inv in H3 as [-> Htl].
    rewrite Htl, N2Nat.id, writeVarNumber_byte by done.
    by rewrite <- !(assoc_L (++)).
Qed.

End ReferenceCodecs.

Section RoundTripScenario.
Import Js BaseShare.

Lemma parse_then_serialize_witness :
  Reference.capturedShare
  = toBuffer (init (Reference.statics 1 (2 ^ 224))
                (Reference.share Reference.someInfo)).1 ++ []
  ∧ (@nil byte = [] →
     toBuffer (init (Reference.statics 1 (2 ^ 224))
                 (Reference.share Reference.someInfo)).1
     = Reference.capturedShare).
Proof.
  apply (parse_then_serialize (P := Reference.primitives)
           (Reference.statics 1 (2 ^ 224)) reference_codec_laws 16
           Reference.capturedShare []).
  vm_compute. reflexivity.
Defined.

(** The parse-validate-serialize scenario, evaluated: the captured
    version-16 buffer parses to a valid share and is written back byte
    for byte. *)
Example captured_share_evaluated :
  ∃ share,
    fromBufferReader (P := Reference.primitives) (Reference.statics 1 (2 ^ 224)) 16
      Reference.capturedShare = Ok (Some share, [])
    ∧ validity share = true
    ∧ VERSION share = 16
    ∧ toBuffer share = Reference.capturedShare.
Proof. eexists. split; [vm_compute; reflexivity|]. by vm_compute. Qed.

End RoundTripScenario.

(** * Further properties of the three files *)

(** ** [TaskServer]: the call log *)

Section TaskServerLog.
Import TaskServer.
Local Open Scope nat_scope.




(** Two notifications of the same hash whose refreshes settle in the
    other order, the first of them rejected: both refreshes precede the
    one log line. *)
Example overlapping_notifications_evaluated :
  calls (run [BlockNotify "0a"; BlockNotify "0a"; RefreshSettled 1 true;
              RefreshSettled 0 false] (constructor true))
  = [Listen; RefreshMiningInfoAsync; RefreshMiningInfoAsync; ConsoleNewBlock "0a"].
Proof. by vm_compute. Qed.

End TaskServerLog.

(** ** [BaseShare]: what [init()] and the parser keep and assign *)

Section InitOutcomes.
Import Js BaseShare.
Context `{P : Primitives}.
Variable cfg : Statics.

Implicit Types (s : BaseShare).

(** What a [true] return of [init()] went through. *)
Lemma init_true_inv s :
  (init cfg s).2 = Ok true →
  ∃ gentx merkleRoot pow,
    computeGentxHash cfg s = Ok gentx
    ∧ computeMerkleRoot (isSegwitActivated cfg (VERSION s)) gentx s = Ok merkleRoot
    ∧ bitsToTarget (bits (info s)) ≤ MAX_TARGET cfg
    ∧ powInteger cfg s merkleRoot = Ok pow
    ∧ BigNum.gt (BigNum.toNumber pow) (bitsToTarget (bits (info s))) = false
    ∧ (init cfg s).1
      = set_validity true
          (set_previousHash (previousShareHash (data (info s)))
             (set_hash (hexFromReversedBuffer (calculateHash (minHeader s) merkleRoot))
                (set_gentxHash gentx
                   (set_target (bitsToTarget (bits (info s)))
                      (set_newScript (hash160ToScript (pubkeyHash (data (info s))))
                         (set_newTxHashes (newTransactionHashes (info s)) s)))))).
Proof.
  rewrite init_unfold.
  destruct (forEach collectRef _ ∅) as [n|e]; simpl; [|done].
  case_bool_decide; simpl; [done|]. cbv zeta.
  destruct (computeGentxHash cfg s) as [gentx|e]; simpl; [|done].
  destruct (computeMerkleRoot _ gentx s) as [root|e] eqn:Hr; simpl; [|done].
  destruct (Z.ltb_spec (MAX_TARGET cfg) (bitsToTarget (bits (info s)))); simpl; [done|].
  destruct (powInteger cfg s root) as [pow|e] eqn:Hp; simpl; [|done].
  destruct (BigNum.gt _ _) eqn:Hgt; simpl; [done|].
  intros _. by exists gentx, root, pow.
Qed.

Lemma init_validity_cases s :
  validity (init cfg s).1 = validity s ∨ (init cfg s).2 = Ok true.
Proof.
  destruct s. unfold init.
  cbn -[forEach computeGentxHash computeMerkleRoot powInteger BigNum.toNumber
        BigNum.gt bool_decide].
  destruct_matches; simpl; auto.
Qed.

(** X2: [init()] never clears [validity]. A share that was valid stays
    marked valid whatever a later [init()] returns or throws (for instance
    after [MAX_TARGET] was lowered), and a share ends valid only if it was
    valid before or this call returned [true]. *)
Theorem init_never_clears_validity s :
  (validity s = true → validity (init cfg s).1 = true)
  ∧ (validity (init cfg s).1 = true → validity s = true ∨ (init cfg s).2 = Ok true).
Proof.
  destruct s. unfold init.
  cbn -[forEach computeGentxHash computeMerkleRoot powInteger BigNum.toNumber
        BigNum.gt bool_decide].
  split; destruct_matches; simpl; auto.
Qed.

(** X3: a [true] return assigns every derived field: the new transaction
    hashes and the previous share hash of the share info, the script of
    the pubkey hash, the target of the bits, the generation transaction
    hash that the hash link yields, the display form of the header hash,
    and [validity]. *)
Theorem init_true_assigns_derived_fields s :
  (init cfg s).2 = Ok true →
  ∃ gentx merkleRoot,
    computeGentxHash cfg s = Ok gentx
    ∧ computeMerkleRoot (isSegwitActivated cfg (VERSION s)) gentx s = Ok merkleRoot
    ∧ newTxHashes (init cfg s).1 = Some (newTransactionHashes (info s))
    ∧ newScript (init cfg s).1 = Some (hash160ToScript (pubkeyHash (data (info s))))
    ∧ target (init cfg s).1 = Some (bitsToTarget (bits (info s)))
    ∧ gentxHash (init cfg s).1 = Some gentx
    ∧ hash (init cfg s).1
      = Some (hexFromReversedBuffer (calculateHash (minHeader s) merkleRoot))
    ∧ previousHash (init cfg s).1 = Some (previousShareHash (data (info s)))
    ∧ validity (init cfg s).1 = true.
Proof.
  intros Htrue.
  destruct (init_true_inv s Htrue) as (gentx & root & pow & Hg & Hr & _ & _ & _ & ->).
  exists gentx, root. by destruct s.
Qed.

(** X4: [init()] changes neither the parsed fields nor the constants of
    the variant, so a share serializes to the same bytes before and after
    validation, whether validation succeeds, fails or throws. *)
Theorem init_keeps_wire_format s :
  toBuffer (init cfg s).1 = toBuffer s
  ∧ VERSION (init cfg s).1 = VERSION s
  ∧ VOTING_VERSION (init cfg s).1 = VOTING_VERSION s
  ∧ SUCCESSOR (init cfg s).1 = SUCCESSOR s
  ∧ MAX_NEW_TXS_SIZE (init cfg s).1 = MAX_NEW_TXS_SIZE s
  ∧ minHeader (init cfg s).1 = minHeader s
  ∧ info (init cfg s).1 = info s
  ∧ refMerkleLink (init cfg s).1 = refMerkleLink s
  ∧ lastTxoutNonce (init cfg s).1 = lastTxoutNonce s
  ∧ hashLink (init cfg s).1 = hashLink s
  ∧ merkleLink (init cfg s).1 = merkleLink s.
Proof.
  destruct s. unfold init.
  cbn -[forEach computeGentxHash computeMerkleRoot powInteger BigNum.toNumber
        BigNum.gt bool_decide].
  destruct_matches; done.
Qed.

(** X5: while [IDENTIFIER] or [PowFunc] is not initialised (as in the class
    declaration), [init()] never returns [true]: it returns [false] or
    throws, and [validity] is what it was. *)
Theorem init_needs_statics s :
  IDENTIFIER cfg = None ∨ PowFunc cfg = None →
  (init cfg s).2 ≠ Ok true
  ∧ validity (init cfg s).1 = validity s
  ∧ (IDENTIFIER cfg = None →
     (init cfg s).2 = Throw AssertionError
     ∨ (init cfg s).2 = Ok false
     ∨ (init cfg s).2 = Throw TypeError).
Proof.
  intros Hunset.
  assert (Hnot : (init cfg s).2 ≠ Ok true).
  { intros Htrue.
    destruct (init_true_inv s Htrue) as (gentx & root & pow & Hg & _ & _ & Hp & _).
    unfold computeGentxHash, getRefHash, powInteger in *.
    destruct Hunset as [Hi|Hpf]; [by rewrite Hi in Hg|by rewrite Hpf in Hp]. }
  split; [done|]. split.
  - destruct (init_validity_cases s) as [Hkeep|Htrue]; [done|].
    by destruct Hnot.
  - intros Hi. rewrite init_unfold.
    destruct (forEach collectRef _ ∅) as [n|e] eqn:Hfe; simpl.
    + case_bool_decide; simpl; [by auto|]. cbv zeta.
      unfold computeGentxHash, getRefHash. rewrite Hi. simpl. by auto.
    + left. f_equal.
      destruct (decide (Forall (λ t, (shareCount t < 110)%N)
                          (extractTransactionHashRefs (info s)))) as [Hall|Hnotall].
      * by rewrite forEach_collectRef_ok in Hfe.
      * apply not_Forall_Exists in Hnotall; [|apply _].
        rewrite forEach_collectRef_throw in Hfe; [by injection Hfe|].
        eapply Exists_impl; [exact Hnotall|]. simpl. intros t Ht. lia.
Qed.

End InitOutcomes.

Section InitAgain.
Import Js BaseShare.
Context `{P : Primitives}.
Variable cfg : Statics.

Implicit Types (s : BaseShare).

(** X6: validating again changes nothing. [init()] on the share that
    [init()] left behind returns (or throws) the same and leaves the same
    share, under the same statics. *)
Theorem init_is_idempotent s :
  init cfg (init cfg s).1 = init cfg s.
Proof.
  pose proof (init_parsed_fields cfg s) as (HV & Hmh & Hinfo & Hrml & Hn & Hhl & Hml).
  pose proof (init_unfold cfg s) as HR.
  remember (init cfg s) as R eqn:HeqR. clear HeqR.
  assert (Hg : computeGentxHash cfg R.1 = computeGentxHash cfg s).
  { unfold computeGentxHash. by rewrite Hinfo, Hrml, Hhl, Hn. }
  assert (Hr : ∀ f g, computeMerkleRoot f g R.1 = computeMerkleRoot f g s).
  { intros f g. unfold computeMerkleRoot, chooseLink. by rewrite Hinfo, Hml. }
  assert (Hp : ∀ r, powInteger cfg R.1 r = powInteger cfg s r).
  { intros r. unfold powInteger. by rewrite Hmh. }
  rewrite (init_unfold cfg R.1), Hinfo, Hmh, HV, Hg. cbv zeta in *.
  destruct (forEach collectRef _ ∅) as [n|e]; [|by subst R].
  destruct (bool_decide _); [by subst R|].
  destruct (computeGentxHash cfg s) as [gentx|e]; [|subst R; by destruct s].
  rewrite Hr.
  destruct (computeMerkleRoot _ gentx s) as [root|e]; [|subst R; by destruct s].
  destruct (MAX_TARGET cfg <? _); [subst R; by destruct s|].
  rewrite Hp.
  destruct (powInteger cfg s root) as [pow|e]; [|subst R; by destruct s].
  destruct (BigNum.gt _ _); subst R; by destruct s.
Qed.

(** Both Merkle walks of the share. *)
Lemma aggregate_snoc {A C} (l : list A) (x : A) (seed : C) (f : C → A → C) :
  aggregate (l ++ [x]) seed f = f (aggregate l seed f) x.
Proof. unfold aggregate. by rewrite foldl_app. Qed.

(** X7: the reference hash and the Merkle root are computed one sibling at
    a time with the running hash on the left: an empty link gives the leaf
    itself ([sha256d(IDENTIFIER ‖ info)], respectively the generation
    transaction hash), and a link extended by a sibling [x] gives
    [sha256d(previous ‖ x)]. Without [IDENTIFIER] the reference hash is a
    [TypeError]. *)
Theorem merkle_walks_hash_left_to_right (shareInfo : ShareInfo)
    (link : list Buffer) (x gentx : Buffer) :
  (IDENTIFIER cfg = None → getRefHash cfg shareInfo link = Throw TypeError)
  ∧ (∀ identifier, IDENTIFIER cfg = Some identifier →
       getRefHash cfg shareInfo []
       = Ok (sha256d (identifier ++ ShareInfo_toBuffer shareInfo)))
  ∧ getRefHash cfg shareInfo (link ++ [x])
    = (h ← getRefHash cfg shareInfo link; Ok (sha256d (h ++ x)))
  ∧ (∀ s, merkleLink s = [] → computeMerkleRoot false gentx s = Ok gentx)
  ∧ (∀ s s', merkleLink s' = merkleLink s ++ [x] →
       computeMerkleRoot false gentx s'
       = (r ← computeMerkleRoot false gentx s; Ok (sha256d (r ++ x)))).
Proof.
  unfold getRefHash, computeMerkleRoot, chooseLink, mbind, Res_bind.
  split; [by intros ->|]. split; [by intros i ->|]. split.
  - destruct (IDENTIFIER cfg); simpl; [|done]. by rewrite aggregate_snoc.
  - split.
    + intros s ->. done.
    + intros s s' ->. simpl. by rewrite aggregate_snoc.
Qed.

Lemma init_constants_kept s :
  VOTING_VERSION (init cfg s).1 = VOTING_VERSION s
  ∧ SUCCESSOR (init cfg s).1 = SUCCESSOR s
  ∧ MAX_BLOCK_WEIGHT (init cfg s).1 = MAX_BLOCK_WEIGHT s
  ∧ MAX_NEW_TXS_SIZE (init cfg s).1 = MAX_NEW_TXS_SIZE s.
Proof.
  destruct s. unfold init.
  cbn -[forEach computeGentxHash computeMerkleRoot powInteger BigNum.toNumber
        BigNum.gt bool_decide].
  destruct_matches; done.
Qed.

(** X8: for the two registered versions the parser never returns [null]:
    it returns a share or throws. The share carries the version asked for
    and that variant's constants; an exception of the header reader, and an
    exception of [init()] after six successful reads, reach the caller
    unchanged. *)
Theorem known_version_parses_or_throws (version : Z) (reader : BufferReader) :
  version = 16 ∨ version = 17 →
  match fromBufferReader cfg version reader with
  | Ok (Some share, _) =>
      VERSION share = version
      ∧ VOTING_VERSION share = version
      ∧ MAX_BLOCK_WEIGHT share = 4000000
      ∧ MAX_NEW_TXS_SIZE share = (if version =? 16 then 50000 else 100000)
      ∧ SUCCESSOR share = (if version =? 16 then Some NewShare else None)
  | Ok (None, _) => False
  | Throw _ => True
  end
  ∧ (∀ e, SmallBlockHeader_fromBufferReader reader = Throw e →
          fromBufferReader cfg version reader = Throw e)
  ∧ (∀ v mh r1 i r2 rml r3 nonce r4 hl r5 ml r6 e,
       ShareVersionMapper version = Some v →
       SmallBlockHeader_fromBufferReader reader = Ok (mh, r1) →
       ShareInfo_fromBufferReader r1 (isSegwitActivated cfg version) = Ok (i, r2) →
       readList 32 r2 = Ok (rml, r3) →
       readNumber 8 r3 = Ok (nonce, r4) →
       HashLink_fromBufferReader r4 = Ok (hl, r5) →
       readList 32 r5 = Ok (ml, r6) →
       (init cfg (construct v mh i rml nonce hl ml)).2 = Throw e →
       fromBufferReader cfg version reader = Throw e).
Proof.
  intros Hv.
  assert (Hmap : ∃ v, ShareVersionMapper version = Some v ∧ Variant_VERSION v = version
                      ∧ ∀ mh i rml nonce hl ml,
                          let s := construct v mh i rml nonce hl ml in
                          VERSION s = version ∧ VOTING_VERSION s = version
                          ∧ MAX_BLOCK_WEIGHT s = 4000000
                          ∧ MAX_NEW_TXS_SIZE s = (if version =? 16 then 50000 else 100000)
                          ∧ SUCCESSOR s = (if version =? 16 then Some NewShare else None)).
  { destruct Hv as [->| ->]; [by exists Share|by exists NewShare]. }
  destruct Hmap as (v & Hm & Hver & Hconst).
  unfold fromBufferReader, mbind, Res_bind. rewrite Hm. cbv beta iota zeta.
  rewrite Hver.
  split; [|split].
  - destruct (SmallBlockHeader_fromBufferReader reader) as [[mh r1]|]; simpl; [|done].
    destruct (ShareInfo_fromBufferReader r1 _) as [[i r2]|]; simpl; [|done].
    destruct (readList 32 r2) as [[rml r3]|]; simpl; [|done].
    destruct (readNumber 8 r3) as [[nonce r4]|]; simpl; [|done].
    destruct (HashLink_fromBufferReader r4) as [[hl r5]|]; simpl; [|done].
    destruct (readList 32 r5) as [[ml r6]|]; simpl; [|done].
    specialize (Hconst mh i rml nonce hl ml). simpl in Hconst.
    pose proof (init_parsed_fields cfg (construct v mh i rml nonce hl ml)) as (HV & _).
    pose proof (init_constants_kept (construct v mh i rml nonce hl ml)) as Hk.
    destruct (init cfg (construct v mh i rml nonce hl ml)) as [s' [b|e]]; [|done].
    simpl in *. destruct Hk as (-> & -> & -> & ->). by rewrite HV.
  - by intros e ->.
  - intros v' mh r1 i r2 rml r3 nonce r4 hl r5 ml r6 e [= <-] H1 H2 H3 H4 H5 H6.
    rewrite H1; simpl. rewrite H2; simpl. rewrite H3; simpl. rewrite H4; simpl.
    rewrite H5; simpl. rewrite H6; simpl.
    destruct (init cfg (construct v mh i rml nonce hl ml)) as [s' [b|e']];
      simpl; [done|]. by intros [= ->].
Qed.

End InitAgain.

(** ** The comparison of the proof of work, quantified *)

Section Rounding.
Import Js BaseShare.

(** [toNumber()] is off by at most half a unit in the 53rd place. *)
Lemma nearestDouble_error (z : Z) :
  0 ≤ z → 2 ^ 53 * Z.abs (z - BigNum.nearestDouble z) ≤ z.
Proof.
  intros Hz. unfold BigNum.nearestDouble.
  destruct (Z.ltb_spec z (2 ^ 53)) as [Hsmall|Hbig].
  { rewrite Z.sub_diag. simpl. lia. }
  assert (Hpos : 0 < z) by lia.
  pose proof (Z.log2_spec z Hpos) as [Hlo Hhi].
  assert (HL : 53 ≤ Z.log2 z).
  { apply Z.log2_le_pow2; [done|]. done. }
  set (e := Z.log2 z - 52) in *.
  assert (He : 1 ≤ e) by (unfold e; lia).
  rewrite Z.shiftr_div_pow2, Z.land_ones by lia.
  set (half := 2 ^ (e - 1)).
  assert (Hhalf : 0 < half) by (apply Z.pow_pos_nonneg; lia).
  assert (HP : 2 ^ e = 2 * half).
  { unfold half. replace e with (1 + (e - 1)) at 1 by lia.
    rewrite Z.pow_add_r by lia. done. }
  assert (H53 : 2 ^ 53 * half = 2 ^ Z.log2 z).
  { unfold half. rewrite <- Z.pow_add_r by lia. f_equal. unfold e. lia. }
  pose proof (Z.div_mod z (2 ^ e)) as Hdm.
  pose proof (Z.mod_pos_bound z (2 ^ e)) as Hmod.
  rewrite HP in *.
  set (q := z / (2 * half)) in *. set (r := z mod (2 * half)) in *.
  assert (Hz' : z = 2 * half * q + r) by (apply Hdm; lia).
  assert (Hr : 0 ≤ r < 2 * half) by (apply Hmod; lia).
  assert (Hgoal : ∀ q', (q' = q ∧ r ≤ half) ∨ (q' = q + 1 ∧ half ≤ r) →
            2 ^ 53 * Z.abs (z - Z.shiftl q' e) ≤ z).
  { intros q' Hq'. rewrite Z.shiftl_mul_pow2, HP by lia.
    assert (Z.abs (z - q' * (2 * half)) ≤ half) by (destruct Hq' as [[-> ?]|[-> ?]]; lia).
    nia. }
  destruct (Z.ltb_spec r half); [apply Hgoal; left; lia|].
  destruct (Z.ltb_spec half r); [apply Hgoal; right; lia|].
  destruct (Z.even q); apply Hgoal; [left|right]; lia.
Qed.

Context `{P : Primitives}.
Variable cfg : Statics.

(** X9: how far the rounding of the comparison can reach. When [init()]
    returns [true], the proof-of-work hash as an exact integer exceeds
    the target by at most the [2^53]-th part of itself:
    [2^53 * (pow - target) ≤ pow], and the converted hash is a finite
    number. *)
Theorem valid_share_pow_within_rounding (s : BaseShare) :
  (init cfg s).2 = Ok true →
  ∃ gentx merkleRoot pow,
    computeGentxHash cfg s = Ok gentx
    ∧ computeMerkleRoot (isSegwitActivated cfg (VERSION s)) gentx s = Ok merkleRoot
    ∧ powInteger cfg s merkleRoot = Ok pow
    ∧ BigNum.toNumber pow ≠ BigNum.Infinity
    ∧ 2 ^ 53 * (Z.of_N pow - bitsToTarget (bits (info s))) ≤ Z.of_N pow.
Proof.
  intros Htrue.
  destruct (init_true_inv cfg s Htrue) as (gentx & root & pow & Hg & Hr & _ & Hp & Hgt & _).
  exists gentx, root, pow. repeat split; try done.
  - intros Hinf. by rewrite Hinf in Hgt.
  - unfold BigNum.toNumber in Hgt.
    destruct (Z.of_N pow <? 2 ^ 1024 - 2 ^ 970); simpl in Hgt; [|done].
    apply Z.ltb_ge in Hgt.
    pose proof (nearestDouble_error (Z.of_N pow) (N2Z.is_nonneg pow)) as Herr.
    lia.
Qed.

End Rounding.

Section InitRejects.
Import Js BaseShare.
Context `{P : Primitives}.
Variable cfg : Statics.

Implicit Types (s : BaseShare).

(** X10: the two ways [init()] returns [false]. Either the count of
    distinct own references differs from the number of new transaction
    hashes, and the share is exactly as it was; or the hashes were
    computed and the target is above [MAX_TARGET] or below the converted
    proof-of-work hash, and the share is left with every derived field
    assigned ([hash], [gentxHash], [target], ...) and [validity] as it
    was. *)
Theorem init_false_is_untouched_or_derived s :
  (init cfg s).2 = Ok false →
  ((init cfg s).1 = s
   ∧ length (distinctOwnRefs (info s)) ≠ length (newTransactionHashes (info s)))
  ∨ ∃ gentx merkleRoot,
      computeGentxHash cfg s = Ok gentx
      ∧ computeMerkleRoot (isSegwitActivated cfg (VERSION s)) gentx s = Ok merkleRoot
      ∧ (MAX_TARGET cfg < bitsToTarget (bits (info s))
         ∨ ∃ pow, powInteger cfg s merkleRoot = Ok pow
                  ∧ BigNum.gt (BigNum.toNumber pow) (bitsToTarget (bits (info s)))
                    = true)
      ∧ newTxHashes (init cfg s).1 = Some (newTransactionHashes (info s))
      ∧ newScript (init cfg s).1 = Some (hash160ToScript (pubkeyHash (data (info s))))
      ∧ target (init cfg s).1 = Some (bitsToTarget (bits (info s)))
      ∧ gentxHash (init cfg s).1 = Some gentx
      ∧ hash (init cfg s).1
        = Some (hexFromReversedBuffer (calculateHash (minHeader s) merkleRoot))
      ∧ previousHash (init cfg s).1 = Some (previousShareHash (data (info s)))
      ∧ validity (init cfg s).1 = validity s.
Proof.
  rewrite init_unfold.
  destruct (forEach collectRef _ ∅) as [n|e] eqn:Hfe; simpl; [|done].
  apply own_count_of_loop in Hfe as [_ Hsize].
  case_bool_decide as Hsz; simpl.
  { intros _. left. split; [done|]. by rewrite <- Hsize. }
  cbv zeta.
  destruct (computeGentxHash cfg s) as [gentx|e]; simpl; [|done].
  destruct (computeMerkleRoot _ gentx s) as [root|e] eqn:Hr; simpl; [|done].
  destruct (Z.ltb_spec (MAX_TARGET cfg) (bitsToTarget (bits (info s)))); simpl.
  { intros _. right. exists gentx, root. destruct s. simpl. by auto 10. }
  destruct (powInteger cfg s root) as [pow|e] eqn:Hp; simpl; [|done].
  destruct (BigNum.gt _ _) eqn:Hgt; simpl; [|done].
  intros _. right. exists gentx, root. split; [done|]. split; [done|].
  split; [right; by exists pow|]. by destruct s.
Qed.

End InitRejects.

Section InitOutcomeScenarios.
Import Js BaseShare.

Lemma init_true_assigns_derived_fields_witness :
  ∃ gentx merkleRoot,
    computeGentxHash (Reference.statics 1 (2 ^ 224))
      (Reference.share Reference.someInfo) = Ok gentx
    ∧ computeMerkleRoot
        (isSegwitActivated (Reference.statics 1 (2 ^ 224))
           (VERSION (Reference.share Reference.someInfo)))
        gentx (Reference.share Reference.someInfo) = Ok merkleRoot
    ∧ newTxHashes (init (Reference.statics 1 (2 ^ 224))
                     (Reference.share Reference.someInfo)).1
      = Some (newTransactionHashes (info (Reference.share Reference.someInfo)))
    ∧ newScript (init (Reference.statics 1 (2 ^ 224))
                   (Reference.share Reference.someInfo)).1
      = Some (hash160ToScript
                (pubkeyHash (data (info (Reference.share Reference.someInfo)))))
    ∧ target (init (Reference.statics 1 (2 ^ 224))
                (Reference.share Reference.someInfo)).1
      = Some (bitsToTarget (bits (info (Reference.share Reference.someInfo))))
    ∧ gentxHash (init (Reference.statics 1 (2 ^ 224))
                   (Reference.share Reference.someInfo)).1 = Some gentx
    ∧ hash (init (Reference.statics 1 (2 ^ 224))
              (Reference.share Reference.someInfo)).1
      = Some (hexFromReversedBuffer
                (calculateHash (minHeader (Reference.share Reference.someInfo))
                   merkleRoot))
    ∧ previousHash (init (Reference.statics 1 (2 ^ 224))
                      (Reference.share Reference.someInfo)).1
      = Some (previousShareHash (data (info (Reference.share Reference.someInfo))))
    ∧ validity (init (Reference.statics 1 (2 ^ 224))
                  (Reference.share Reference.someInfo)).1 = true.
Proof.
  apply (init_true_assigns_derived_fields (P := Reference.primitives)
           (Reference.statics 1 (2 ^ 224)) (Reference.share Reference.someInfo)).
  vm_compute. reflexivity.
Defined.

Lemma init_needs_statics_witness :
  (init (P := Reference.primitives) defaults (Reference.share Reference.someInfo)).2
  ≠ Ok true
  ∧ validity (init (P := Reference.primitives) defaults
                (Reference.share Reference.someInfo)).1
    = validity (Reference.share Reference.someInfo)
  ∧ (IDENTIFIER defaults = None →
     (init (P := Reference.primitives) defaults
        (Reference.share Reference.someInfo)).2 = Throw AssertionError
     ∨ (init (P := Reference.primitives) defaults
          (Reference.share Reference.someInfo)).2 = Ok false
     ∨ (init (P := Reference.primitives) defaults
          (Reference.share Reference.someInfo)).2 = Throw TypeError).
Proof.
  apply (init_needs_statics (P := Reference.primitives) defaults
           (Reference.share Reference.someInfo)).
  left. reflexivity.
Defined.

(** With the class declaration's statics the reference share stops at the
    reference hash: a [TypeError], after three derived fields were
    assigned. *)
Example init_without_statics_evaluated :
  (init (P := Reference.primitives) defaults (Reference.share Reference.someInfo)).2
  = Throw TypeError
  ∧ target (init (P := Reference.primitives) defaults
              (Reference.share Reference.someInfo)).1 = Some (2 ^ 200)
  ∧ hash (init (P := Reference.primitives) defaults
            (Reference.share Reference.someInfo)).1 = None.
Proof. by vm_compute. Qed.

Lemma known_version_parses_or_throws_witness :
  match fromBufferReader (P := Reference.primitives) (Reference.statics 1 (2 ^ 224))
          16 Reference.capturedShare with
  | Ok (Some share, _) =>
      VERSION share = 16
      ∧ VOTING_VERSION share = 16
      ∧ MAX_BLOCK_WEIGHT share = 4000000
      ∧ MAX_NEW_TXS_SIZE share = 50000
      ∧ SUCCESSOR share = Some NewShare
  | Ok (None, _) => False
  | Throw _ => True
  end.
Proof.
  exact (proj1 (known_version_parses_or_throws (P := Reference.primitives)
                  (Reference.statics 1 (2 ^ 224)) 16 Reference.capturedShare
                  (or_introl eq_refl))).
Defined.

(** A version-17 buffer cut after the header reaches the caller as the
    reader's [RangeError], not as [null]. *)
Example truncated_share_evaluated :
  fromBufferReader (P := Reference.primitives) (Reference.statics 1 (2 ^ 224))
    17 (take 48 Reference.capturedShare) = Throw RangeError.
Proof. by vm_compute. Qed.

Lemma valid_share_pow_within_rounding_witness :
  ∃ gentx merkleRoot pow,
    computeGentxHash (Reference.statics (2 ^ 200 + 1) (2 ^ 224))
      (Reference.share Reference.someInfo) = Ok gentx
    ∧ computeMerkleRoot
        (isSegwitActivated (Reference.statics (2 ^ 200 + 1) (2 ^ 224))
           (VERSION (Reference.share Reference.someInfo)))
        gentx (Reference.share Reference.someInfo) = Ok merkleRoot
    ∧ powInteger (Reference.statics (2 ^ 200 + 1) (2 ^ 224))
        (Reference.share Reference.someInfo) merkleRoot = Ok pow
    ∧ BigNum.toNumber pow ≠ BigNum.Infinity
    ∧ 2 ^ 53 * (Z.of_N pow
                - bitsToTarget (bits (info (Reference.share Reference.someInfo))))
      ≤ Z.of_N pow.
Proof.
  apply (valid_share_pow_within_rounding (P := Reference.primitives)
           (Reference.statics (2 ^ 200 + 1) (2 ^ 224))
           (Reference.share Reference.someInfo)).
  vm_compute. reflexivity.
Defined.

Lemma init_false_is_untouched_or_derived_witness :
  ((init (Reference.statics 1 (2 ^ 199)) (Reference.share Reference.someInfo)).1
   = Reference.share Reference.someInfo
   ∧ length (distinctOwnRefs (info (Reference.share Reference.someInfo)))
     ≠ length (newTransactionHashes (info (Reference.share Reference.someInfo))))
  ∨ ∃ gentx merkleRoot,
      computeGentxHash (Reference.statics 1 (2 ^ 199))
        (Reference.share Reference.someInfo) = Ok gentx
      ∧ computeMerkleRoot
          (isSegwitActivated (Reference.statics 1 (2 ^ 199))
             (VERSION (Reference.share Reference.someInfo)))
          gentx (Reference.share Reference.someInfo) = Ok merkleRoot
      ∧ (MAX_TARGET (Reference.statics 1 (2 ^ 199))
         < bitsToTarget (bits (info (Reference.share Reference.someInfo)))
         ∨ ∃ pow,
             powInteger (Reference.statics 1 (2 ^ 199))
               (Reference.share Reference.someInfo) merkleRoot = Ok pow
             ∧ BigNum.gt (BigNum.toNumber pow)
                 (bitsToTarget (bits (info (Reference.share Reference.someInfo))))
               = true)
      ∧ newTxHashes (init (Reference.statics 1 (2 ^ 199))
                       (Reference.share Reference.someInfo)).1
        = Some (newTransactionHashes (info (Reference.share Reference.someInfo)))
      ∧ newScript (init (Reference.statics 1 (2 ^ 199))
                     (Reference.share Reference.someInfo)).1
        = Some (hash160ToScript
                  (pubkeyHash (data (info (Reference.share Reference.someInfo)))))
      ∧ target (init (Reference.statics 1 (2 ^ 199))
                  (Reference.share Reference.someInfo)).1
        = Some (bitsToTarget (bits (info (Reference.share Reference.someInfo))))
      ∧ gentxHash (init (Reference.statics 1 (2 ^ 199))
                     (Reference.share Reference.someInfo)).1 = Some gentx
      ∧ hash (init (Reference.statics 1 (2 ^ 199))
                (Reference.share Reference.someInfo)).1
        = Some (hexFromReversedBuffer
                  (calculateHash (minHeader (Reference.share Reference.someInfo))
                     merkleRoot))
      ∧ previousHash (init (Reference.statics 1 (2 ^ 199))
                        (Reference.share Reference.someInfo)).1
        = Some (previousShareHash (data (info (Reference.share Reference.someInfo))))
      ∧ validity (init (Reference.statics 1 (2 ^ 199))
                    (Reference.share Reference.someInfo)).1
        = validity (Reference.share Reference.someInfo).
Proof.
  apply (init_false_is_untouched_or_derived (P := Reference.primitives)
           (Reference.statics 1 (2 ^ 199)) (Reference.share Reference.someInfo)).
  vm_compute. reflexivity.
Defined.

(** Validation is not undone: the reference share, valid under
    [MAX_TARGET = 2^224], is validated again under [MAX_TARGET = 2^199];
    the second [init()] returns [false] and the share is still marked
    valid. *)
Example revalidation_evaluated :
  (init (P := Reference.primitives) (Reference.statics 1 (2 ^ 199))
     (init (P := Reference.primitives) (Reference.statics 1 (2 ^ 224))
        (Reference.share Reference.someInfo)).1).2 = Ok false
  ∧ validity (init (P := Reference.primitives) (Reference.statics 1 (2 ^ 199))
                (init (P := Reference.primitives) (Reference.statics 1 (2 ^ 224))
                   (Reference.share Reference.someInfo)).1).1 = true.
Proof. by vm_compute. Qed.

End InitOutcomeScenarios.

(** ** [Peer]: node objects over time *)

Section Frames.
Import Peer.
Context `{B : Bitcoinjs}.
Local Open Scope nat_scope.

Implicit Types (st : Peer) (n : Node) (ok : Command → Prop)
  (m old new : list (string * TransactionTemplate)).

Lemma nodeLater_refl ok n : nodeLater ok n n.
Proof. split; [done|]. exists []. by rewrite app_nil_r. Qed.

Lemma nodeLater_trans ok n1 n2 n3 :
  nodeLater ok n1 n2 → nodeLater ok n2 n3 → nodeLater ok n1 n3.
Proof.
  intros [Ht1 (cs1 & Hs1 & Hok1)] [Ht2 (cs2 & Hs2 & Hok2)].
  split; [congruence|]. exists (cs1 ++ cs2).
  split; [by rewrite Hs2, Hs1, <- (assoc_L (++))|by apply Forall_app].
Qed.

Lemma nodeLater_send ok (c : Command) n : ok c → nodeLater ok n (send c n).
Proof. intros Hc. split; [done|]. exists [c]. split; [done|]. by apply Forall_singleton. Qed.

Lemma nodeLater_remember ok (h : string) tx n : nodeLater ok n (remember h tx n).
Proof. split; [done|]. exists []. by rewrite app_nil_r. Qed.

Lemma nodeLater_markClosed ok n : nodeLater ok n (markClosed n).
Proof. split; [done|]. exists []. by rewrite app_nil_r. Qed.

Lemma later_same_nodes ok st st' :
  heap st' = heap st → peers st' = peers st → later ok st st'.
Proof.
  intros Hh Hp. split; [by rewrite Hh|]. split; [by rewrite Hp|].
  intros r n Hr. exists n. rewrite Hh. split; [done|apply nodeLater_refl].
Qed.

Lemma later_refl ok st : later ok st st.
Proof. by apply later_same_nodes. Qed.

Lemma later_trans ok st1 st2 st3 :
  later ok st1 st2 → later ok st2 st3 → later ok st1 st3.
Proof.
  intros (Hd1 & Hp1 & Hn1) (Hd2 & Hp2 & Hn2).
  split; [congruence|]. split; [by etrans|].
  intros r n Hr. destruct (Hn1 r n Hr) as (n2 & Hr2 & Hl2).
  destruct (Hn2 r n2 Hr2) as (n3 & Hr3 & Hl3).
  exists n3. split; [done|by eapply nodeLater_trans].
Qed.

Lemma later_updNode ok (r : nat) (f : Node → Node) st :
  (∀ n, nodeLater ok n (f n)) → later ok st (updNode r f st).
Proof.
  intros Hf. unfold updNode. split; [apply dom_alter_L|]. split; [done|].
  intros r' n Hr'. simpl. rewrite lookup_alter. case_decide as Heq.
  - subst. rewrite Hr'. simpl. by eauto.
  - exists n. split; [done|apply nodeLater_refl].
Qed.

Lemma later_forEachPeer ok (f : Node → Node) st :
  (∀ n, nodeLater ok n (f n)) → later ok st (forEachPeer f st).
Proof.
  intros Hf. unfold forEachPeer. split; [|split; [done|]]; simpl.
  - apply set_eq. intros r. rewrite !elem_of_dom, map_lookup_imap.
    destruct (heap st !! r); simpl; [|done]. split; by eauto.
  - intros r n Hr. rewrite map_lookup_imap, Hr. simpl.
    case_bool_decide; [by eauto|]. exists n. split; [done|apply nodeLater_refl].
Qed.

Lemma later_onEnd ok (sender : nat) st : later ok st (onEnd sender st).
Proof.
  unfold onEnd. destruct (heap st !! sender) as [n|]; [|apply later_refl].
  split; [done|]. split; [apply delete_subseteq|].
  intros r n' Hr. exists n'. split; [done|apply nodeLater_refl].
Qed.

Lemma later_close ok (sender : nat) st : later ok st (close sender st).
Proof.
  unfold close. eapply later_trans; [|apply later_onEnd].
  apply later_updNode. intros n. apply nodeLater_markClosed.
Qed.

Lemma later_rememberHashes ok (sender : nat) (all rest : list string) st :
  later ok st (rememberHashes sender all rest st).1.
Proof.
  revert st. induction rest as [|h rest IH]; intros st; simpl; [apply later_refl|].
  destruct (Linq.any _ _); simpl; [apply later_close|].
  destruct (lookupKnownTx st h) as [tx|]; simpl; [|apply later_close].
  eapply later_trans; [|apply IH].
  apply later_updNode. intros n. apply nodeLater_remember.
Qed.

Lemma later_rememberTxs ok (sender : nat) (txs : list Transaction) m st :
  later ok st (rememberTxs sender txs m st).1.
Proof.
  revert m st. induction txs as [|tx txs IH]; intros m st; simpl; [apply later_refl|].
  destruct (bool_decide _); simpl; [apply later_close|].
  eapply later_trans; [|apply IH].
  apply later_updNode. intros n. apply nodeLater_remember.
Qed.

Lemma later_onKnownTxsChanged ok old new st :
  (∀ hs, ok (Have_tx hs)) →
  (removedKeys old new ≠ [] → ok (Losing_tx (removedKeys old new))) →
  later ok st (onKnownTxsChanged old new st).
Proof.
  intros Hhave Hlosing. unfold onKnownTxsChanged.
  set (added := Linq.select (Linq.except new old sameKey) fst).
  set (st1 := if Linq.anyElement added
              then forEachPeer (send (Have_tx added)) st else st).
  assert (H1 : later ok st st1).
  { unfold st1. destruct (Linq.anyElement added); [|apply later_refl].
    apply later_forEachPeer. intros n. by apply nodeLater_send. }
  set (st2 := if Linq.anyElement (removedKeys old new)
              then forEachPeer (send (Losing_tx (removedKeys old new))) st1 else st1).
  assert (H2 : later ok st1 st2).
  { unfold st2. destruct (removedKeys old new) as [|k ks] eqn:Hrem; simpl;
      [apply later_refl|].
    apply later_forEachPeer. intros n. apply nodeLater_send. by apply Hlosing. }
  eapply later_trans; [exact H1|]. eapply later_trans; [exact H2|].
  simpl. destruct (bool_decide _); by apply later_same_nodes.
Qed.

Lemma later_onMiningTxsChanged ok old new st :
  (∀ hs txs, ok (Remember_tx hs txs)) →
  (∀ hs size, ok (Forget_tx hs size)) →
  later ok st (onMiningTxsChanged old new st).
Proof.
  intros Hrem Hforget. unfold onMiningTxsChanged.
  set (added := Linq.select (Linq.except new old sameKey) snd).
  match goal with
  | |- context [if Linq.anyElement added then ?a else st] =>
      set (st1 := if Linq.anyElement added then a else st)
  end.
  assert (H1 : later ok st st1).
  { unfold st1. destruct (Linq.anyElement added); [|apply later_refl].
    apply later_forEachPeer. intros n. by apply nodeLater_send. }
  eapply later_trans; [exact H1|].
  destruct (Linq.anyElement (removedTemplates old new)); [|apply later_refl].
  apply later_forEachPeer. intros n. by apply nodeLater_send.
Qed.

(** *** [knownTxs] keeps its keys *)

Lemma JsMap_get_set {V} (k k' : string) (v : V) (m : list (string * V)) :
  JsMap.get k' (JsMap.set k v m) = if decide (k' = k) then Some v else JsMap.get k' m.
Proof.
  induction m as [|[k0 v0] m IH]; simpl.
  - case_bool_decide; case_decide; congruence.
  - case_bool_decide as Hk; simpl.
    + subst k0. case_bool_decide; case_decide; congruence.
    + rewrite IH. case_bool_decide; case_decide; congruence.
Qed.

Lemma JsMap_has_set {V} (k k' : string) (v : V) (m : list (string * V)) :
  JsMap.has k' (JsMap.set k v m) = bool_decide (k' = k) || JsMap.has k' m.
Proof.
  unfold JsMap.has. rewrite JsMap_get_set. case_decide.
  - rewrite (bool_decide_eq_true_2 (k' = k)) by done.
    apply bool_decide_eq_true. by eauto.
  - by rewrite (bool_decide_eq_false_2 (k' = k)) by done.
Qed.

Lemma keysKept_refl m : keysKept m m.
Proof. by intros k. Qed.

Lemma keysKept_trans m1 m2 m3 : keysKept m1 m2 → keysKept m2 m3 → keysKept m1 m3.
Proof. intros H1 H2 k Hk. by apply H2, H1. Qed.

Lemma keysKept_set (k : string) (v : TransactionTemplate) m :
  keysKept m (JsMap.set k v m).
Proof. intros k' Hk'. rewrite JsMap_has_set, Hk'. by rewrite orb_true_r. Qed.

Lemma keysKept_removedKeys old new : keysKept old new → removedKeys old new = [].
Proof.
  intros Hkept. destruct (removedKeys old new) as [|k ks] eqn:Hrem; [done|].
  assert (Hin : k ∈ removedKeys old new) by (rewrite Hrem; by left).
  apply elem_of_removedKeys in Hin as [Hold Hnew].
  apply JsMap_has_keys in Hold. apply Hkept in Hold. congruence.
Qed.

Lemma keysKept_foldl_set (txs : list TransactionTemplate) m :
  keysKept m (foldl (λ acc tx, JsMap.set (txKey tx) tx acc) m txs).
Proof.
  revert m. induction txs as [|tx txs IH]; intros m; simpl; [apply keysKept_refl|].
  eapply keysKept_trans; [apply keysKept_set|apply IH].
Qed.

Lemma knownTxs_rememberHashes (sender : nat) (all rest : list string) st :
  knownTxs (rememberHashes sender all rest st).1 = knownTxs st
  ∧ miningTxs (rememberHashes sender all rest st).1 = miningTxs st.
Proof.
  revert st. induction rest as [|h rest IH]; intros st; simpl; [done|].
  assert (Hclose : ∀ st0, knownTxs (close sender st0) = knownTxs st0
                          ∧ miningTxs (close sender st0) = miningTxs st0).
  { intros st0. unfold close, onEnd. by destruct (heap _ !! sender). }
  destruct (Linq.any _ _); simpl; [apply Hclose|].
  destruct (lookupKnownTx st h) as [tx|]; simpl; [|apply Hclose].
  by rewrite !(proj1 (IH _)), !(proj2 (IH _)).
Qed.

Lemma knownTxs_rememberTxs (sender : nat) (txs : list Transaction) m st :
  knownTxs (rememberTxs sender txs m st).1 = knownTxs st
  ∧ miningTxs (rememberTxs sender txs m st).1 = miningTxs st
  ∧ ∀ m', (rememberTxs sender txs m st).2 = Some m' → keysKept m m'.
Proof.
  revert m st. induction txs as [|tx txs IH]; intros m st; simpl.
  - split; [done|]. split; [done|]. intros m' [= <-]. apply keysKept_refl.
  - destruct (bool_decide _); simpl.
    + unfold close, onEnd. destruct (heap _ !! sender); by repeat split.
    + destruct (IH (JsMap.set (getHash tx)
                      (mkTemplate (Some (getHash tx)) (getHash tx) (toHex tx)) m)
                  (updNode sender (remember (getHash tx) tx) st)) as (Hk & Hm & Hkept).
      split; [by rewrite Hk|]. split; [by rewrite Hm|].
      intros m' Hm'. eapply keysKept_trans; [apply keysKept_set|by apply Hkept].
Qed.

End Frames.

Section Reachable.
Import Peer.
Context `{B : Bitcoinjs}.
Local Open Scope nat_scope.

Implicit Types (st : Peer) (n : Node) (ok : Command → Prop)
  (m old new : list (string * TransactionTemplate)).

Lemma later_knownTxs_set ok (v : list (string * TransactionTemplate)) st :
  (∀ hs, ok (Have_tx hs)) → keysKept (knownTxs st) v →
  later ok st (knownTxs_set v st).
Proof.
  intros Hhave Hkept. unfold knownTxs_set.
  eapply later_trans; [apply (later_same_nodes ok st (set_knownTxs v st)); done|].
  apply later_onKnownTxsChanged; [done|].
  intros Hne. by rewrite keysKept_removedKeys in Hne.
Qed.

(** The three ways [handleRemember_tx] ends: inside the first loop, inside
    the second loop, or with the assignment of the working copy. *)
Lemma handleRemember_tx_cases (sender : nat) (hashes : list string)
    (txs : list Transaction) st :
  ((rememberHashes sender hashes hashes st).2 = false
   ∧ handleRemember_tx sender hashes txs st = (rememberHashes sender hashes hashes st).1)
  ∨ (∃ st1, rememberHashes sender hashes hashes st = (st1, true)
            ∧ (rememberTxs sender txs (knownTxs st1) st1).2 = None
            ∧ handleRemember_tx sender hashes txs st
              = (rememberTxs sender txs (knownTxs st1) st1).1)
  ∨ (∃ st1 st2 m',
        rememberHashes sender hashes hashes st = (st1, true)
        ∧ rememberTxs sender txs (knownTxs st1) st1 = (st2, Some m')
        ∧ handleRemember_tx sender hashes txs st = knownTxs_set m' st2).
Proof.
  unfold handleRemember_tx.
  destruct (rememberHashes sender hashes hashes st) as [st1 [|]] eqn:H1; [|by left].
  right. destruct (rememberTxs sender txs (knownTxs st1) st1) as [st2 [m'|]] eqn:H2.
  - right. by exists st1, st2, m'.
  - left. exists st1. by rewrite H2.
Qed.

Lemma handleRemember_tx_commit (sender : nat) (hashes : list string)
    (txs : list Transaction) st st1 st2 m' :
  rememberHashes sender hashes hashes st = (st1, true) →
  rememberTxs sender txs (knownTxs st1) st1 = (st2, Some m') →
  knownTxs st2 = knownTxs st ∧ miningTxs st2 = miningTxs st
  ∧ knownTxsCaches st2 = knownTxsCaches st
  ∧ keysKept (knownTxs st) m'.
Proof.
  intros H1 H2.
  pose proof (knownTxs_rememberHashes sender hashes hashes st) as [Hk1 Hm1].
  pose proof (caches_rememberHashes sender hashes hashes st) as Hc1.
  rewrite H1 in Hk1, Hm1, Hc1. simpl in *.
  pose proof (knownTxs_rememberTxs sender txs (knownTxs st1) st1) as (Hk2 & Hm2 & Hkept).
  pose proof (caches_rememberTxs sender txs (knownTxs st1) st1) as Hc2.
  rewrite H2 in Hk2, Hm2, Hc2, Hkept. simpl in *.
  repeat split; try congruence. rewrite <- Hk1. by apply Hkept.
Qed.

Lemma later_handleRemember_tx ok (sender : nat) (hashes : list string)
    (txs : list Transaction) st :
  (∀ hs, ok (Have_tx hs)) →
  later ok st (handleRemember_tx sender hashes txs st).
Proof.
  intros Hhave.
  destruct (handleRemember_tx_cases sender hashes txs st)
    as [[_ ->]|[(st1 & H1 & _ & ->)|(st1 & st2 & m' & H1 & H2 & ->)]].
  - apply later_rememberHashes.
  - eapply later_trans; [|apply later_rememberTxs].
    pose proof (later_rememberHashes ok sender hashes hashes st) as Hl.
    by rewrite H1 in Hl.
  - destruct (handleRemember_tx_commit _ _ _ _ _ _ _ H1 H2) as (Hk & _ & _ & Hkept).
    pose proof (later_rememberHashes ok sender hashes hashes st) as Hl1.
    pose proof (later_rememberTxs ok sender txs (knownTxs st1) st1) as Hl2.
    rewrite H1 in Hl1. rewrite H2 in Hl2. simpl in *.
    eapply later_trans; [exact Hl1|]. eapply later_trans; [exact Hl2|].
    apply later_knownTxs_set; [done|]. by rewrite Hk.
Qed.

Lemma later_updateGbt ok (transactions : list TransactionTemplate) st :
  (∀ hs, ok (Have_tx hs)) → (∀ hs txs, ok (Remember_tx hs txs)) →
  (∀ hs size, ok (Forget_tx hs size)) →
  later ok st (updateGbt transactions st).
Proof.
  intros Hhave Hrem Hforget. unfold updateGbt.
  set (mining := foldl _ [] transactions).
  assert (H1 : later ok st (miningTxs_set mining st)).
  { unfold miningTxs_set.
    eapply later_trans; [apply (later_same_nodes ok st (set_miningTxs mining st)); done|].
    by apply later_onMiningTxsChanged. }
  eapply later_trans; [exact H1|].
  apply later_knownTxs_set; [done|].
  unfold miningTxs_set. simpl.
  assert (Hk : knownTxs (onMiningTxsChanged (miningTxs st) mining
                           (set_miningTxs mining st)) = knownTxs st).
  { unfold onMiningTxsChanged. destruct_matches; done. }
  rewrite Hk. apply keysKept_foldl_set.
Qed.

Lemma later_handleNodeVersion ok (sender : nat) st :
  (∀ hs, ok (Have_tx hs)) →
  later ok st (handleNodeVersion sender st).
Proof.
  intros Hhave. unfold handleNodeVersion.
  eapply later_trans; [|by apply later_same_nodes].
  apply later_updNode. intros n. by apply nodeLater_send.
Qed.

Lemma later_handleNodeVersion_resumed ok (i : nat) (fulfilled : bool) st :
  (∀ hs txs, ok (Remember_tx hs txs)) →
  later ok st (handleNodeVersion_resumed i fulfilled st).
Proof.
  intros Hrem. unfold handleNodeVersion_resumed.
  destruct (handshakes st !! i) as [sender|]; [|apply later_refl].
  eapply later_trans;
    [apply (later_same_nodes ok st (set_handshakes (delete i (handshakes st)) st));
     done|].
  destruct fulfilled; [|apply later_refl].
  apply later_updNode. intros n. by apply nodeLater_send.
Qed.

(** Every event but a new connection leaves a later state. *)
Lemma later_step ok st (e : Event) :
  (∀ hs, ok (Have_tx hs)) → (∀ hs txs, ok (Remember_tx hs txs)) →
  (∀ hs size, ok (Forget_tx hs size)) →
  (∀ t, e ≠ SocketConnected t) →
  later ok st (step st e).
Proof.
  intros Hhave Hrem Hforget Hne.
  destruct e as [t|sender|i fulfilled|sender hashes txs|sender|transactions];
    simpl.
  - by destruct (Hne t).
  - by apply later_handleNodeVersion.
  - by apply later_handleNodeVersion_resumed.
  - by apply later_handleRemember_tx.
  - apply later_onEnd.
  - by apply later_updateGbt.
Qed.

Lemma later_node_inv ok st st' (r : nat) n' :
  later ok st st' → heap st' !! r = Some n' →
  ∃ n, heap st !! r = Some n ∧ nodeLater ok n n'.
Proof.
  intros (Hdom & _ & Hnodes) Hr'.
  assert (Hin : r ∈ dom (heap st)) by (rewrite <- Hdom; apply elem_of_dom; by eauto).
  apply elem_of_dom in Hin as [n Hr]. exists n. split; [done|].
  destruct (Hnodes r n Hr) as (n'' & Hr'' & Hl). congruence.
Qed.

Lemma registry_later ok st st' :
  later ok st st' → registryConsistent st → registryConsistent st'.
Proof.
  intros Hl [Hreg Hfirst]. split.
  - intros t r Ht. destruct Hl as (_ & Hsub & Hnodes).
    assert (Ht0 : peers st !! t = Some r) by (by eapply lookup_weaken).
    destruct (Hreg t r Ht0) as (n & Hr & Htag).
    destruct (Hnodes r n Hr) as (n' & Hr' & [Htag' _]).
    exists n'. split; [done|congruence].
  - intros r n' Hr'.
    destruct (later_node_inv ok st st' r n' Hl Hr') as (n & Hr & [_ (cs & Hs & _)]).
    specialize (Hfirst r n Hr). rewrite Hs.
    destruct (sent n); [done|]. done.
Qed.

Lemma registry_onSocketConnected (t : string) st :
  registryConsistent st → registryConsistent (onSocketConnected t st).
Proof.
  intros [Hreg Hfirst]. unfold onSocketConnected, initNode. simpl.
  set (r := fresh (dom (heap st))).
  assert (Hfresh : heap st !! r = None).
  { apply not_elem_of_dom. apply is_fresh. }
  rewrite lookup_insert_eq. split; simpl.
  - intros t' r' Ht'. rewrite lookup_insert in Ht'. case_decide as Heq.
    + injection Ht' as <-. subst t'. rewrite lookup_insert_eq. by eauto.
    + destruct (Hreg t' r' Ht') as (n & Hr' & Htag).
      exists n. split; [|done]. by rewrite lookup_insert_ne by congruence.
  - intros r' n Hr'. rewrite lookup_insert in Hr'. case_decide.
    + by injection Hr' as <-.
    + by eapply Hfirst.
Qed.

(** X11: in every state the coordinator reaches, a tag registered in
    [peers] leads to a live node object that carries this very tag
    ([peers[n.tag] == n]), and the first command every node object was
    asked to send is its version. *)
Theorem registry_stays_consistent (es : list Event) :
  registryConsistent (run es initial).
Proof.
  assert (Hgen : ∀ st, registryConsistent st → registryConsistent (run es st)).
  { unfold run. induction es as [|e es IH]; intros st Hst; simpl; [done|].
    apply IH.
    destruct e as [t| | | | |] eqn:He.
    1: by apply registry_onSocketConnected.
    all: eapply (registry_later (λ _, True)); [|done].
    all: rewrite <- He; apply later_step; try done; by rewrite He. }
  apply Hgen. split; simpl.
  - intros t r Ht. by rewrite lookup_empty in Ht.
  - intros r n Hr. by rewrite lookup_empty in Hr.
Qed.

End Reachable.

Section KnownTxsGrowth.
Import Peer.
Context `{B : Bitcoinjs}.
Local Open Scope nat_scope.

Implicit Types (st : Peer) (n : Node)
  (m old new v : list (string * TransactionTemplate)).

Lemma knownTxs_knownTxs_set v st : knownTxs (knownTxs_set v st) = v.
Proof. unfold knownTxs_set. by rewrite knownTxs_onKnownTxsChanged. Qed.

Lemma miningTxs_knownTxs_set v st :
  miningTxs (knownTxs_set v st) = miningTxs st.
Proof.
  unfold knownTxs_set, onKnownTxsChanged. by destruct_matches.
Qed.

Lemma fields_miningTxs_set v st :
  knownTxs (miningTxs_set v st) = knownTxs st
  ∧ miningTxs (miningTxs_set v st) = v
  ∧ knownTxsCaches (miningTxs_set v st) = knownTxsCaches st.
Proof.
  unfold miningTxs_set, onMiningTxsChanged. by destruct_matches.
Qed.

Lemma knownTxs_step st (e : Event) :
  keysKept (knownTxs st) (knownTxs (step st e)).
Proof.
  destruct e as [t|sender|i fulfilled|sender hashes txs|sender|transactions];
    simpl.
  - unfold onSocketConnected, initNode. simpl. rewrite lookup_insert_eq.
    apply keysKept_refl.
  - apply keysKept_refl.
  - destruct (fields_handleNodeVersion_resumed i fulfilled st) as (_ & -> & _).
    apply keysKept_refl.
  - destruct (handleRemember_tx_cases sender hashes txs st)
      as [[_ ->]|[(st1 & H1 & _ & ->)|(st1 & st2 & m' & H1 & H2 & ->)]].
    + destruct (knownTxs_rememberHashes sender hashes hashes st) as [-> _].
      apply keysKept_refl.
    + destruct (knownTxs_rememberTxs sender txs (knownTxs st1) st1) as (-> & _).
      destruct (knownTxs_rememberHashes sender hashes hashes st) as [Hk _].
      rewrite H1 in Hk. simpl in Hk. rewrite Hk. apply keysKept_refl.
    + rewrite knownTxs_knownTxs_set.
      by destruct (handleRemember_tx_commit _ _ _ _ _ _ _ H1 H2) as (_ & _ & _ & ?).
  - unfold onEnd. destruct (heap st !! sender); apply keysKept_refl.
  - unfold updateGbt. rewrite knownTxs_knownTxs_set.
    apply keysKept_foldl_set.
Qed.

(** X12: [knownTxs] never loses a key: whatever the peers send and
    whatever templates arrive, a hash that [knownTxs] holds stays in it. *)
Theorem knownTxs_only_grows st (es : list Event) (k : string) :
  JsMap.has k (knownTxs st) = true →
  JsMap.has k (knownTxs (run es st)) = true.
Proof.
  revert st. unfold run.
  induction es as [|e es IH]; intros st Hk; simpl; [done|].
  apply IH. by apply knownTxs_step.
Qed.

Lemma elem_of_tail {A} (x : A) (l : list A) : x ∈ tail l → x ∈ l.
Proof. destruct l; simpl; [done|]. by apply list_elem_of_further. Qed.

Lemma caches_knownTxs_set_kept v st (c : gmap string TransactionTemplate) :
  keysKept (knownTxs st) v →
  c ∈ knownTxsCaches (knownTxs_set v st) →
  c ∈ knownTxsCaches st ∨ c = ∅.
Proof.
  intros Hkept. unfold knownTxs_set. rewrite caches_onKnownTxsChanged. simpl.
  rewrite (keysKept_removedKeys _ _ Hkept).
  change (snapshot (knownTxs st) []) with (∅ : gmap string TransactionTemplate).
  intros Hc.
  assert (Hin : c ∈ knownTxsCaches st ++ [∅]).
  { case_bool_decide; [by apply elem_of_tail|done]. }
  apply elem_of_app in Hin as [?|Hin]; [by left|right].
  by apply list_elem_of_singleton in Hin.
Qed.

Lemma caches_step_empty st (e : Event) :
  (∀ c, c ∈ knownTxsCaches st → c = ∅) →
  ∀ c, c ∈ knownTxsCaches (step st e) → c = ∅.
Proof.
  intros Hall c.
  destruct e as [t|sender|i fulfilled|sender hashes txs|sender|transactions];
    simpl.
  - rewrite caches_onSocketConnected. apply Hall.
  - apply Hall.
  - rewrite (proj1 (fields_handleNodeVersion_resumed i fulfilled st)). apply Hall.
  - destruct (handleRemember_tx_cases sender hashes txs st)
      as [[_ ->]|[(st1 & H1 & _ & ->)|(st1 & st2 & m' & H1 & H2 & ->)]].
    + rewrite caches_rememberHashes. apply Hall.
    + rewrite caches_rememberTxs.
      pose proof (caches_rememberHashes sender hashes hashes st) as Hc.
      rewrite H1 in Hc. simpl in Hc. rewrite Hc. apply Hall.
    + destruct (handleRemember_tx_commit _ _ _ _ _ _ _ H1 H2) as (Hk & _ & Hc & Hkept).
      intros Hin. apply caches_knownTxs_set_kept in Hin as [Hin| ->];
        [|done|by rewrite Hk].
      apply Hall. by rewrite <- Hc.
  - rewrite caches_onEnd. apply Hall.
  - unfold updateGbt. intros Hin.
    destruct (fields_miningTxs_set
                (foldl (λ m tx, JsMap.set (txKey tx) tx m) [] transactions) st)
      as (Hk & _ & Hc).
    apply caches_knownTxs_set_kept in Hin as [Hin| ->]; [|done|].
    + apply Hall. by rewrite <- Hc.
    + rewrite Hk. apply keysKept_foldl_set.
Qed.

Lemma sent_step_notLosing st (e : Event) :
  (∀ r n, heap st !! r = Some n → Forall notLosing_tx (sent n)) →
  ∀ r n, heap (step st e) !! r = Some n → Forall notLosing_tx (sent n).
Proof.
  intros Hall r n' Hr'.
  destruct e as [t| | | | |] eqn:He.
  1: { simpl in Hr'. unfold onSocketConnected, initNode in Hr'. simpl in Hr'.
       rewrite lookup_insert_eq in Hr'. simpl in Hr'.
       rewrite lookup_insert in Hr'. case_decide.
       - injection Hr' as <-. simpl. by apply Forall_singleton.
       - by eapply Hall. }
  all: rewrite <- He in Hr'.
  all: assert (Hl : later notLosing_tx st (step st e))
         by (subst e; by apply later_step).
  all: destruct (later_node_inv _ _ _ _ _ Hl Hr')
         as (n & Hr & [_ (cs & -> & Hcs)]).
  all: apply Forall_app; split; [by eapply Hall|done].
Qed.

Lemma where_all_empty (h : string) (cs : list (gmap string TransactionTemplate)) :
  (∀ c, c ∈ cs → c = ∅) →
  Linq.where_ cs (λ cache, bool_decide (is_Some (cache !! h))) = [].
Proof.
  induction cs as [|c cs IH]; intros Hall; [done|]. simpl.
  rewrite (Hall c) by apply list_elem_of_here.
  rewrite lookup_empty. rewrite bool_decide_eq_false_2 by (by intros [? ?]).
  apply IH. intros c' Hc'. apply Hall. by apply list_elem_of_further.
Qed.

(** X13: the coordinator itself never removes a key from [knownTxs], so
    in every state it reaches the snapshots kept in [knownTxsCaches] are
    all empty, no node was ever asked to send [losing_tx], and the lookup
    of a referenced hash is decided by [knownTxs] alone. *)
Theorem losing_tx_is_never_sent (es : list Event) :
  (∀ c, c ∈ knownTxsCaches (run es initial) → c = ∅)
  ∧ (∀ r n hs, heap (run es initial) !! r = Some n → Losing_tx hs ∉ sent n)
  ∧ (∀ h, lookupKnownTx (run es initial) h
          = JsMap.get h (knownTxs (run es initial))).
Proof.
  assert (Hgen : ∀ st,
    (∀ c, c ∈ knownTxsCaches st → c = ∅) →
    (∀ r n, heap st !! r = Some n → Forall notLosing_tx (sent n)) →
    (∀ c, c ∈ knownTxsCaches (run es st) → c = ∅)
    ∧ (∀ r n, heap (run es st) !! r = Some n → Forall notLosing_tx (sent n))).
  { unfold run. induction es as [|e es IH]; intros st Hc Hs; simpl; [done|].
    apply IH; [by apply caches_step_empty|by apply sent_step_notLosing]. }
  destruct (Hgen initial) as [Hc Hs].
  { intros c Hin. by apply elem_of_nil in Hin. }
  { intros r n Hr. simpl in Hr. by rewrite lookup_empty in Hr. }
  split; [done|]. split.
  - intros r n hs Hr Hin.
    specialize (Hs r n Hr). rewrite Forall_forall in Hs.
    exact (Hs _ Hin).
  - intros h. unfold lookupKnownTx.
    destruct (JsMap.get h (knownTxs (run es initial))); [done|].
    by rewrite where_all_empty.
Qed.

End KnownTxsGrowth.

(** ** [Peer]: the lookup of a referenced hash *)

Section LookupOrder.
Import Peer.
Context `{B : Bitcoinjs}.
Local Open Scope nat_scope.

Implicit Types (st : Peer) (n : Node).




End LookupOrder.

Section LookupOrderScenario.
Import Peer.
Local Open Scope nat_scope.


(** The reached state holds two empty snapshots: one pushed by the block
    template, one by the accepted [remember_tx]. *)
Example reached_snapshots_evaluated :
  knownTxsCaches
    (run (B := Reference.bitcoinjs)
       [SocketConnected "10.0.0.1:9333";
        GbtUpdated [Reference.template "a" "0a"];
        Remember_txReceived 0 ["a"%string] []] initial)
  = [∅; ∅].
Proof. by vm_compute. Qed.

End LookupOrderScenario.

Section Announcements.
Import Peer.
Context `{B : Bitcoinjs}.
Local Open Scope nat_scope.

Implicit Types (st : Peer) (n : Node)
  (m old new v : list (string * TransactionTemplate)).

(** The added keys: the keys of the new map that the old map lacks. *)
Lemma elem_of_addedKeys (h : string) old new :
  h ∈ Linq.select (Linq.except new old sameKey) fst
  ↔ h ∈ JsMap.keys new ∧ JsMap.has h old = false.
Proof. apply (elem_of_removedKeys h new old). Qed.

Lemma elem_of_addedTemplates (tx : TransactionTemplate) old new :
  tx ∈ Linq.select (Linq.except new old sameKey) snd
  ↔ ∃ k : string, (k, tx) ∈ new ∧ JsMap.has k old = false.
Proof. apply (elem_of_removedTemplates tx new old). Qed.

(** What an assignment to [knownTxs] does to a node object. *)
Lemma heap_knownTxs_set v st (r : nat) n :
  heap st !! r = Some n →
  heap (knownTxs_set v st) !! r
  = Some (if bool_decide (r ∈ (map_img (peers st) : gset nat))
          then mkNode (tag n) (rememberedTxs n) (remoteTxHashs n)
                 (sent n
                  ++ (if Linq.anyElement
                           (Linq.select (Linq.except v (knownTxs st) sameKey) fst)
                      then [Have_tx (Linq.select
                                       (Linq.except v (knownTxs st) sameKey) fst)]
                      else [])
                  ++ (if Linq.anyElement (removedKeys (knownTxs st) v)
                      then [Losing_tx (removedKeys (knownTxs st) v)]
                      else []))
                 (closed n)
          else n).
Proof.
  intros Hr. unfold knownTxs_set, onKnownTxsChanged.
  destruct (Linq.anyElement (Linq.select (Linq.except v (knownTxs st) sameKey) fst));
    destruct (Linq.anyElement (removedKeys (knownTxs st) v));
    simpl; destruct (bool_decide (10 < _)); simpl;
    rewrite ?map_lookup_imap, Hr; simpl; case_bool_decide; destruct n;
    unfold send; simpl; rewrite ?app_nil_r, <- ?(assoc_L (++)); done.
Qed.

Lemma peers_knownTxs_set v st : peers (knownTxs_set v st) = peers st.
Proof. unfold knownTxs_set, onKnownTxsChanged. by destruct_matches. Qed.

(** What an assignment to [miningTxs] does to a node object. *)
Lemma heap_miningTxs_set v st (r : nat) n :
  heap st !! r = Some n →
  heap (miningTxs_set v st) !! r
  = Some (if bool_decide (r ∈ (map_img (peers st) : gset nat))
          then mkNode (tag n) (rememberedTxs n) (remoteTxHashs n)
                 (sent n
                  ++ (if Linq.anyElement
                           (Linq.select (Linq.except v (miningTxs st) sameKey) snd)
                      then [Remember_tx
                              (Linq.select
                                 (Linq.where_
                                    (Linq.select (Linq.except v (miningTxs st) sameKey) snd)
                                    (λ tx, bool_decide (txKey tx ∈ remoteTxHashs n)))
                                 txKey)
                              (Linq.where_
                                 (Linq.select (Linq.except v (miningTxs st) sameKey) snd)
                                 (λ tx, negb (bool_decide (txKey tx ∈ remoteTxHashs n))))]
                      else [])
                  ++ (if Linq.anyElement (removedTemplates (miningTxs st) v)
                      then [Forget_tx
                              (Linq.select (removedTemplates (miningTxs st) v) txKey)
                              (Linq.sum (removedTemplates (miningTxs st) v) halfLength)]
                      else []))
                 (closed n)
          else n).
Proof.
  intros Hr. unfold miningTxs_set, onMiningTxsChanged.
  destruct (Linq.anyElement (Linq.select (Linq.except v (miningTxs st) sameKey) snd));
    destruct (Linq.anyElement (removedTemplates (miningTxs st) v));
    simpl; rewrite ?map_lookup_imap, Hr; simpl; case_bool_decide; destruct n;
    unfold send; simpl; rewrite ?app_nil_r, <- ?(assoc_L (++)); done.
Qed.

Lemma peers_miningTxs_set v st : peers (miningTxs_set v st) = peers st.
Proof. unfold miningTxs_set, onMiningTxsChanged. by destruct_matches. Qed.

Lemma JsMap_get_foldl_set (k : string) (txs : list TransactionTemplate) m :
  JsMap.get k (foldl (λ acc tx, JsMap.set (txKey tx) tx acc) m txs)
  = match last (filter (λ tx, txKey tx = k) txs) with
    | Some tx => Some tx
    | None => JsMap.get k m
    end.
Proof.
  revert m. induction txs as [|tx txs IH]; intros m; simpl; [done|].
  rewrite IH, JsMap_get_set, filter_cons. case_decide as Hk.
  - rewrite decide_True by done. rewrite last_cons.
    by destruct (last (filter _ txs)).
  - rewrite decide_False by done. done.
Qed.

Lemma where_lengths {A} (p : A → bool) (l : list A) :
  length (Linq.where_ l p) + length (Linq.where_ l (λ x, negb (p x))) = length l.
Proof.
  unfold Linq.where_. induction l as [|x l IH]; simpl; [done|].
  destruct (p x); simpl; lia.
Qed.

(** X14: a block template rebuilds [miningTxs] from the template alone
    and adds the template to [knownTxs]. The key of a template
    transaction is its [txid] when it has a non-empty one and its [hash]
    otherwise. Under a key, [miningTxs] holds the last template
    transaction with that key and nothing else; [knownTxs] holds that
    same transaction, or what it held before when the template has none
    for the key. *)
Theorem updateGbt_rebuilds_mining_and_extends_known
    (transactions : list TransactionTemplate) st :
  (∀ tx id, txid tx = Some id → id ≠ "" → txKey tx = id)
  ∧ (∀ tx, txid tx = None ∨ txid tx = Some "" → txKey tx = hash tx)
  ∧ (∀ k, JsMap.get k (miningTxs (updateGbt transactions st))
          = last (filter (λ tx, txKey tx = k) transactions))
  ∧ (∀ k, JsMap.get k (knownTxs (updateGbt transactions st))
          = match last (filter (λ tx, txKey tx = k) transactions) with
            | Some tx => Some tx
            | None => JsMap.get k (knownTxs st)
            end).
Proof.
  split; [apply txKey_txid|]. split; [apply txKey_hash|].
  unfold updateGbt. rewrite knownTxs_knownTxs_set, miningTxs_knownTxs_set.
  destruct (fields_miningTxs_set
              (foldl (λ m tx, JsMap.set (txKey tx) tx m) [] transactions) st)
    as (_ & -> & _).
  split; intros k; rewrite !JsMap_get_foldl_set; simpl;
    by destruct (last (filter _ transactions)).
Qed.

(** X15: what a block template makes the coordinator send. Every
    registered peer is asked to send, in this order and nothing else:
    [remember_tx] when [miningTxs] gained templates, [forget_tx] when it
    lost some, [have_tx] when [knownTxs] gained keys (the template's keys
    that were not known); [losing_tx] is never part of it. A node object
    that is not registered is left as it is, and the registry does not
    change. *)
Theorem updateGbt_messages (transactions : list TransactionTemplate) st
    (t : string) (r : nat) n :
  peers st !! t = Some r →
  heap st !! r = Some n →
  (∃ n',
      heap (updateGbt transactions st) !! r = Some n'
      ∧ sent n'
        = sent n
          ++ (if Linq.anyElement
                   (Linq.select
                      (Linq.except (miningTxs (updateGbt transactions st))
                         (miningTxs st) sameKey) snd)
              then [Remember_tx
                      (Linq.select
                         (Linq.where_
                            (Linq.select
                               (Linq.except (miningTxs (updateGbt transactions st))
                                  (miningTxs st) sameKey) snd)
                            (λ tx, bool_decide (txKey tx ∈ remoteTxHashs n)))
                         txKey)
                      (Linq.where_
                         (Linq.select
                            (Linq.except (miningTxs (updateGbt transactions st))
                               (miningTxs st) sameKey) snd)
                         (λ tx, negb (bool_decide (txKey tx ∈ remoteTxHashs n))))]
              else [])
          ++ (if Linq.anyElement
                   (removedTemplates (miningTxs st)
                      (miningTxs (updateGbt transactions st)))
              then [Forget_tx
                      (Linq.select
                         (removedTemplates (miningTxs st)
                            (miningTxs (updateGbt transactions st))) txKey)
                      (Linq.sum
                         (removedTemplates (miningTxs st)
                            (miningTxs (updateGbt transactions st))) halfLength)]
              else [])
          ++ (if Linq.anyElement
                   (Linq.select
                      (Linq.except (knownTxs (updateGbt transactions st))
                         (knownTxs st) sameKey) fst)
              then [Have_tx
                      (Linq.select
                         (Linq.except (knownTxs (updateGbt transactions st))
                            (knownTxs st) sameKey) fst)]
              else [])
      ∧ tag n' = tag n ∧ rememberedTxs n' = rememberedTxs n
      ∧ remoteTxHashs n' = remoteTxHashs n ∧ closed n' = closed n)
  ∧ (∀ h, h ∈ Linq.select
                (Linq.except (knownTxs (updateGbt transactions st))
                   (knownTxs st) sameKey) fst
          ↔ h ∈ txKey <$> transactions ∧ JsMap.has h (knownTxs st) = false)
  ∧ (∀ r0 n0, heap st !! r0 = Some n0 →
              r0 ∉ (map_img (peers st) : gset nat) →
              heap (updateGbt transactions st) !! r0 = Some n0)
  ∧ peers (updateGbt transactions st) = peers st.
Proof.
  intros Ht Hr.
  assert (Hreg : r ∈ (map_img (peers st) : gset nat)).
  { apply elem_of_map_img. by exists t. }
  set (mining := foldl (λ m tx, JsMap.set (txKey tx) tx m) [] transactions).
  set (known := foldl (λ m tx, JsMap.set (txKey tx) tx m) (knownTxs st) transactions).
  assert (Hm' : miningTxs (updateGbt transactions st) = mining).
  { unfold updateGbt. rewrite miningTxs_knownTxs_set.
    exact (proj1 (proj2 (fields_miningTxs_set mining st))). }
  assert (Hk' : knownTxs (updateGbt transactions st) = known).
  { unfold updateGbt. by rewrite knownTxs_knownTxs_set. }
  destruct (fields_miningTxs_set mining st) as (Hk1 & _ & _).
  assert (Hkept : keysKept (knownTxs st) known) by apply keysKept_foldl_set.
  rewrite Hm', Hk'. split; [|split; [|split]].
  - pose proof (heap_miningTxs_set mining st r n Hr) as H1.
    rewrite bool_decide_eq_true_2 in H1 by done.
    pose proof (heap_knownTxs_set known (miningTxs_set mining st) r _ H1) as H2.
    rewrite peers_miningTxs_set, bool_decide_eq_true_2 in H2 by done.
    rewrite Hk1 in H2. rewrite (keysKept_removedKeys _ _ Hkept) in H2.
    simpl in H2. eexists. split; [exact H2|]. simpl.
    split; [|done]. by rewrite app_nil_r, <- !(assoc_L (++)).
  - intros h. rewrite elem_of_addedKeys. unfold known.
    split.
    + intros [Hin Hold]. split; [|done].
      apply JsMap_has_keys in Hin. unfold JsMap.has in Hin, Hold.
      rewrite JsMap_get_foldl_set in Hin.
      destruct (last (filter (λ tx, txKey tx = h) transactions)) as [tx|] eqn:Hl.
      * apply last_Some_elem_of, list_elem_of_filter in Hl as [<- Hl].
        apply list_elem_of_fmap. by exists tx.
      * congruence.
    + intros [Hin Hold]. split; [|done].
      apply JsMap_has_keys. unfold JsMap.has.
      rewrite JsMap_get_foldl_set.
      apply list_elem_of_fmap in Hin as [tx [-> Hin]].
      destruct (last (filter (λ tx0, txKey tx0 = txKey tx) transactions)) eqn:Hl.
      * apply bool_decide_eq_true. by eauto.
      * apply last_None in Hl.
        assert (Hf : tx ∈ filter (λ tx0, txKey tx0 = txKey tx) transactions)
          by (by apply list_elem_of_filter).
        rewrite Hl in Hf. by apply elem_of_nil in Hf.
  - intros r0 n0 Hr0 Hnot.
    pose proof (heap_miningTxs_set mining st r0 n0 Hr0) as H1.
    rewrite bool_decide_eq_false_2 in H1 by done.
    pose proof (heap_knownTxs_set known (miningTxs_set mining st) r0 _ H1) as H2.
    rewrite peers_miningTxs_set, bool_decide_eq_false_2 in H2 by done.
    exact H2.
  - unfold updateGbt. by rewrite peers_knownTxs_set, peers_miningTxs_set.
Qed.

(** X16: when an assignment to [miningTxs] adds templates, every
    registered peer is asked to send one [remember_tx] that splits the
    added templates by the peer's own [remoteTxHashs], where a template
    is looked up and sent under its [txid] when it has a non-empty one
    and under its [hash] otherwise: those the remote has advertised go
    by that key only, the others in full; each added template is in
    exactly one of the two lists, and only a [forget_tx] can follow. *)
Theorem remember_tx_splits_by_remote_view st v (t : string) (r : nat) n :
  Linq.select (Linq.except v (miningTxs st) sameKey) snd ≠ [] →
  peers st !! t = Some r →
  heap st !! r = Some n →
  ∃ n' hashes txs after,
    heap (miningTxs_set v st) !! r = Some n'
    ∧ sent n' = sent n ++ Remember_tx hashes txs :: after
    ∧ (∀ c, c ∈ after → ∃ hs size, c = Forget_tx hs size)
    ∧ (∀ h, h ∈ hashes
            ↔ h ∈ remoteTxHashs n
              ∧ ∃ tx, tx ∈ Linq.select (Linq.except v (miningTxs st) sameKey) snd
                      ∧ txKey tx = h)
    ∧ (∀ tx, tx ∈ txs
             ↔ tx ∈ Linq.select (Linq.except v (miningTxs st) sameKey) snd
               ∧ txKey tx ∉ remoteTxHashs n)
    ∧ length hashes + length txs
      = length (Linq.select (Linq.except v (miningTxs st) sameKey) snd)
    ∧ (∀ tx, tx ∈ Linq.select (Linq.except v (miningTxs st) sameKey) snd
             ↔ ∃ k : string, (k, tx) ∈ v ∧ JsMap.has k (miningTxs st) = false)
    ∧ (∀ tx id, txid tx = Some id → id ≠ "" → txKey tx = id)
    ∧ (∀ tx, txid tx = None ∨ txid tx = Some "" → txKey tx = hash tx).
Proof.
  intros Hadd Ht Hr.
  assert (Hreg : r ∈ (map_img (peers st) : gset nat)).
  { apply elem_of_map_img. by exists t. }
  pose proof (heap_miningTxs_set v st r n Hr) as H1.
  rewrite bool_decide_eq_true_2 in H1 by done.
  set (added := Linq.select (Linq.except v (miningTxs st) sameKey) snd) in *.
  assert (Hany : Linq.anyElement added = true) by by destruct added.
  rewrite Hany in H1.
  eexists _, _, _, _. split; [exact H1|]. simpl.
  split; [done|]. split; [|split; [|split; [|split; [|split; [|split]]]]].
  - intros c Hc. destruct (Linq.anyElement (removedTemplates (miningTxs st) v));
      [|by apply elem_of_nil in Hc].
    apply list_elem_of_singleton in Hc as ->. by eauto.
  - intros h. unfold Linq.select, Linq.where_. rewrite list_elem_of_fmap. split.
    + intros [tx [-> Hin]]. apply list_elem_of_In, filter_In in Hin as [Hin Hb].
      apply bool_decide_eq_true in Hb. split; [done|].
      exists tx. split; [by apply list_elem_of_In|done].
    + intros [Hrem [tx [Hin <-]]]. exists tx. split; [done|].
      apply list_elem_of_In, filter_In. split; [by apply list_elem_of_In|].
      by apply bool_decide_eq_true.
  - intros tx. unfold Linq.where_. rewrite list_elem_of_In, filter_In.
    rewrite negb_true_iff, bool_decide_eq_false. by rewrite list_elem_of_In.
  - unfold Linq.select at 1. rewrite length_fmap. apply where_lengths.
  - intros tx. apply elem_of_addedTemplates.
  - apply txKey_txid.
  - apply txKey_hash.
Qed.

(** X17: an assignment to [knownTxs] is announced to the registered
    peers, and to them only: [have_tx] with the keys the new map has and
    the old one lacks, then [losing_tx] with the keys the old map has and
    the new one lacks, each one only when there are such keys; an
    assignment that changes no key sends nothing. *)
Theorem known_txs_change_is_announced st v (t : string) (r : nat) n :
  peers st !! t = Some r →
  heap st !! r = Some n →
  (∃ n',
      heap (knownTxs_set v st) !! r = Some n'
      ∧ sent n'
        = sent n
          ++ (if Linq.anyElement
                   (Linq.select (Linq.except v (knownTxs st) sameKey) fst)
              then [Have_tx (Linq.select (Linq.except v (knownTxs st) sameKey) fst)]
              else [])
          ++ (if Linq.anyElement (removedKeys (knownTxs st) v)
              then [Losing_tx (removedKeys (knownTxs st) v)]
              else [])
      ∧ ((∀ k, JsMap.has k v = JsMap.has k (knownTxs st)) → sent n' = sent n))
  ∧ (∀ h, h ∈ Linq.select (Linq.except v (knownTxs st) sameKey) fst
          ↔ h ∈ JsMap.keys v ∧ JsMap.has h (knownTxs st) = false)
  ∧ (∀ h, h ∈ removedKeys (knownTxs st) v
          ↔ h ∈ JsMap.keys (knownTxs st) ∧ JsMap.has h v = false)
  ∧ (∀ r0 n0, heap st !! r0 = Some n0 →
              r0 ∉ (map_img (peers st) : gset nat) →
              heap (knownTxs_set v st) !! r0 = Some n0).
Proof.
  intros Ht Hr.
  assert (Hreg : r ∈ (map_img (peers st) : gset nat)).
  { apply elem_of_map_img. by exists t. }
  split; [|split; [|split]].
  - pose proof (heap_knownTxs_set v st r n Hr) as H1.
    rewrite bool_decide_eq_true_2 in H1 by done.
    eexists. split; [exact H1|]. simpl. split; [done|].
    intros Hsame.
    assert (Ha : Linq.select (Linq.except v (knownTxs st) sameKey) fst = []).
    { apply (keysKept_removedKeys v (knownTxs st)). intros k. by rewrite Hsame. }
    assert (Hl : removedKeys (knownTxs st) v = []).
    { apply keysKept_removedKeys. intros k. by rewrite Hsame. }
    rewrite Ha, Hl. simpl. by rewrite app_nil_r.
  - intros h. apply elem_of_addedKeys.
  - intros h. apply elem_of_removedKeys.
  - intros r0 n0 Hr0 Hnot.
    pose proof (heap_knownTxs_set v st r0 n0 Hr0) as H1.
    by rewrite bool_decide_eq_false_2 in H1 by done.
Qed.

End Announcements.

Section RememberTxOutcome.
Import Peer.
Context `{B : Bitcoinjs}.
Local Open Scope nat_scope.

Implicit Types (st : Peer) (n : Node) (sender : nat)
  (m : list (string * TransactionTemplate)).

Lemma heap_close_other sender st (r : nat) :
  r ≠ sender → heap (close sender st) !! r = heap st !! r.
Proof.
  intros Hne. unfold close, onEnd, updNode. simpl.
  destruct (alter markClosed sender (heap st) !! sender); simpl;
    by rewrite lookup_alter_ne.
Qed.

Lemma fields_close sender st :
  knownTxs (close sender st) = knownTxs st
  ∧ miningTxs (close sender st) = miningTxs st
  ∧ knownTxsCaches (close sender st) = knownTxsCaches st.
Proof. unfold close, onEnd. by destruct (heap _ !! sender). Qed.

Lemma heap_rememberHashes_other sender (all rest : list string) st (r : nat) :
  r ≠ sender → heap (rememberHashes sender all rest st).1 !! r = heap st !! r.
Proof.
  intros Hne. revert st. induction rest as [|h rest IH]; intros st; simpl; [done|].
  destruct (Linq.any _ _); simpl; [by apply heap_close_other|].
  destruct (lookupKnownTx st h) as [tx|]; simpl; [|by apply heap_close_other].
  rewrite IH. unfold updNode. simpl. by rewrite lookup_alter_ne.
Qed.

(** The loop over [txHashes] runs to its end for no hash, or for one hash
    that the sender has not remembered and that is known. *)
Lemma rememberHashes_spec sender (hashes : list string) st n :
  heap st !! sender = Some n →
  (hashes = [] ∧ rememberHashes sender hashes hashes st = (st, true))
  ∨ (∃ h knownTx,
        hashes = [h] ∧ rememberedTxs n !! h = None
        ∧ lookupKnownTx st h = Some knownTx
        ∧ rememberHashes sender hashes hashes st
          = (updNode sender
               (remember h (Transaction_fromHex (data knownTx))) st, true))
  ∨ ((rememberHashes sender hashes hashes st).2 = false
     ∧ ¬ (length hashes ≤ 1
          ∧ ∀ h, h ∈ hashes →
                 rememberedTxs n !! h = None ∧ is_Some (lookupKnownTx st h))).
Proof.
  intros Hn. destruct hashes as [|h [|h2 hs]].
  - by left.
  - right. cbn [rememberHashes]. unfold Linq.any. cbn [existsb].
    rewrite orb_false_r. unfold rememberedOf. rewrite Hn. simpl.
    case_bool_decide as Hrem.
    + right. split; [done|]. intros [_ Hall].
      destruct (Hall h) as [Hnone _]; [by left|].
      rewrite Hnone in Hrem. by destruct Hrem.
    + destruct (lookupKnownTx st h) as [knownTx|] eqn:Hl.
      * left. exists h, knownTx. split; [done|]. split; [|done].
        by apply eq_None_not_Some.
      * right. split; [done|]. intros [_ Hall].
        destruct (Hall h) as [_ Hs]; [by left|]. rewrite Hl in Hs. by destruct Hs.
  - right. right. split; [by eapply rememberHashes_second_iteration|].
    intros [Hlen _]. simpl in Hlen. lia.
Qed.

(** An assignment to [knownTxs] of a map with the keys it has sends
    nothing and pushes an empty snapshot. *)
Lemma knownTxs_set_same_keys (v : list (string * TransactionTemplate)) st :
  (∀ k, JsMap.has k v = JsMap.has k (knownTxs st)) →
  heap (knownTxs_set v st) = heap st
  ∧ peers (knownTxs_set v st) = peers st
  ∧ miningTxs (knownTxs_set v st) = miningTxs st
  ∧ knownTxs (knownTxs_set v st) = v
  ∧ knownTxsCaches (knownTxs_set v st)
    = if bool_decide (10 < length (knownTxsCaches st ++ [∅]))
      then tail (knownTxsCaches st ++ [∅])
      else knownTxsCaches st ++ [∅].
Proof.
  intros Hsame.
  assert (Ha : Linq.select (Linq.except v (knownTxs st) sameKey) fst = []).
  { apply (keysKept_removedKeys v (knownTxs st)). intros k. by rewrite Hsame. }
  assert (Hl : removedKeys (knownTxs st) v = []).
  { apply keysKept_removedKeys. intros k. by rewrite Hsame. }
  unfold knownTxs_set, onKnownTxsChanged. simpl. rewrite Ha, Hl. simpl.
  change (snapshot (knownTxs st) []) with (∅ : gmap string TransactionTemplate).
  by destruct (bool_decide _).
Qed.

(** X18: which [remember_tx] messages without transactions the
    coordinator accepts. A message that carries hashes only runs to the
    assignment of [knownTxs] exactly when it has at most one hash and
    that hash is known and not yet remembered by the sender. Then the
    sender remembers the referenced transaction, parsed from the known
    template's data, and is otherwise as it was; nothing is sent, no
    other node object changes, [knownTxs], [miningTxs] and [peers] are
    as they were, and an empty snapshot is pushed to [knownTxsCaches].
    Any other such message leaves the sender closed and unregistered,
    with [knownTxs], [miningTxs], [knownTxsCaches] and every other node
    object as they were. *)
Theorem hash_only_remember_tx_accepted_exactly_when sender (hashes : list string)
    st n :
  heap st !! sender = Some n →
  ((length hashes ≤ 1
    ∧ ∀ h, h ∈ hashes →
           rememberedTxs n !! h = None ∧ is_Some (lookupKnownTx st h)) →
   ∃ n',
     heap (handleRemember_tx sender hashes [] st) !! sender = Some n'
     ∧ closed n' = closed n ∧ tag n' = tag n ∧ sent n' = sent n
     ∧ remoteTxHashs n' = remoteTxHashs n
     ∧ (∀ h, h ∈ hashes →
             ∃ knownTx, lookupKnownTx st h = Some knownTx
                        ∧ rememberedTxs n' !! h
                          = Some (Transaction_fromHex (data knownTx)))
     ∧ (∀ k, k ∉ hashes → rememberedTxs n' !! k = rememberedTxs n !! k)
     ∧ (∀ r, r ≠ sender →
             heap (handleRemember_tx sender hashes [] st) !! r = heap st !! r)
     ∧ peers (handleRemember_tx sender hashes [] st) = peers st
     ∧ knownTxs (handleRemember_tx sender hashes [] st) = knownTxs st
     ∧ miningTxs (handleRemember_tx sender hashes [] st) = miningTxs st
     ∧ knownTxsCaches (handleRemember_tx sender hashes [] st)
       = if bool_decide (10 < length (knownTxsCaches st ++ [∅]))
         then tail (knownTxsCaches st ++ [∅])
         else knownTxsCaches st ++ [∅])
  ∧ (¬ (length hashes ≤ 1
        ∧ ∀ h, h ∈ hashes →
               rememberedTxs n !! h = None ∧ is_Some (lookupKnownTx st h)) →
     disconnected sender (handleRemember_tx sender hashes [] st)
     ∧ knownTxs (handleRemember_tx sender hashes [] st) = knownTxs st
     ∧ miningTxs (handleRemember_tx sender hashes [] st) = miningTxs st
     ∧ knownTxsCaches (handleRemember_tx sender hashes [] st) = knownTxsCaches st
     ∧ ∀ r, r ≠ sender →
            heap (handleRemember_tx sender hashes [] st) !! r = heap st !! r).
Proof.
  intros Hn.
  destruct (rememberHashes_spec sender hashes st n Hn)
    as [[-> H1]|[(h & knownTx & -> & Hrem & Hl & H1)|[Hfalse Hno]]].
  - split; [|intros Hnot; exfalso; apply Hnot; split; [simpl; lia|];
             intros h Hin; by apply elem_of_nil in Hin].
    intros _.
    assert (Hres : handleRemember_tx sender [] [] st
                   = knownTxs_set (knownTxs st) st)
      by (unfold handleRemember_tx; by rewrite H1).
    rewrite Hres.
    destruct (knownTxs_set_same_keys (knownTxs st) st) as (Hh & Hp & Hm & Hk & Hc);
      [done|].
    exists n. rewrite Hh, Hp, Hm, Hk, Hc. repeat split; try done.
    intros h Hin. by apply elem_of_nil in Hin.
  - set (T := Transaction_fromHex (data knownTx)) in *.
    set (st1 := updNode sender (remember h T) st) in *.
    split; [|intros Hnot; exfalso; apply Hnot; split; [simpl; lia|];
             intros h' Hin; apply list_elem_of_singleton in Hin as ->;
             split; [done|by rewrite Hl]].
    intros _.
    assert (Hres : handleRemember_tx sender [h] [] st
                   = knownTxs_set (knownTxs st1) st1)
      by (unfold handleRemember_tx; by rewrite H1).
    rewrite Hres.
    destruct (knownTxs_set_same_keys (knownTxs st1) st1) as (Hh & Hp & Hm & Hk & Hc);
      [done|].
    exists (remember h T n). rewrite Hh, Hp, Hm, Hk, Hc.
    split; [by apply heap_updNode|]. repeat split; try done.
    + intros h' Hin. apply list_elem_of_singleton in Hin as ->.
      exists knownTx. split; [done|]. simpl. by rewrite lookup_insert_eq.
    + intros k Hk'. simpl. rewrite lookup_insert_ne; [done|].
      intros ->. apply Hk'. by left.
    + intros r Hne. unfold st1, updNode. simpl. by rewrite lookup_alter_ne.
  - split; [by intros ?|]. intros _.
    rewrite handleRemember_tx_early by done.
    pose proof (knownTxs_rememberHashes sender hashes hashes st) as [Hk Hm].
    split; [by eapply rememberHashes_early_return|].
    split; [done|]. split; [done|].
    split; [apply caches_rememberHashes|].
    intros r Hne. by apply heap_rememberHashes_other.
Qed.

End RememberTxOutcome.

Section CoordinatorScenarios.
Import Peer.
Local Open Scope nat_scope.

Lemma knownTxs_only_grows_witness :
  JsMap.has "a"
    (knownTxs
       (run (B := Reference.bitcoinjs)
          [Remember_txReceived 0 [] ["0c"%string]; GbtUpdated []; Ended 0;
           Remember_txReceived 0 ["zz"%string] []]
          Reference.knowsTwo)) = true.
Proof.
  apply (knownTxs_only_grows (B := Reference.bitcoinjs) Reference.knowsTwo).
  reflexivity.
Defined.

Lemma updateGbt_messages_witness :
  ∃ n',
    heap (updateGbt (B := Reference.bitcoinjs) [Reference.template "c" "0c"]
            Reference.twoPeers) !! 1 = Some n'
    ∧ sent n'
      = [Version; Remember_tx ["c"%string] [];
         Forget_tx ["a"; "b"]%string (Q2Qc 250); Have_tx ["c"%string]]
    ∧ remoteTxHashs n' = {[ "c"%string ]}
    ∧ closed n' = false.
Proof.
  destruct (updateGbt_messages (B := Reference.bitcoinjs)
              [Reference.template "c" "0c"] Reference.twoPeers "10.0.0.2:9333" 1
              (mkNode (B := Reference.bitcoinjs) "10.0.0.2:9333" ∅ {[ "c"%string ]}
                 [Version] false))
    as [(n' & Hn' & Hsent & _ & _ & Hremote & Hclosed) _].
  - reflexivity.
  - reflexivity.
  - exists n'. split; [exact Hn'|]. split; [|split; [exact Hremote|exact Hclosed]].
    rewrite Hsent. by vm_compute.
Defined.

Lemma remember_tx_splits_by_remote_view_witness :
  ∃ n' hashes txs after,
    heap (miningTxs_set (B := Reference.bitcoinjs)
            [("t1", Reference.withTxid); ("h2", Reference.withoutTxid);
             ("t3", mkTemplate (Some "t3") "h3" "0c");
             ("h4", mkTemplate None "h4" "0d")]%string
            Reference.twoMiners) !! 1 = Some n'
    ∧ sent n' = [Version] ++ Remember_tx hashes txs :: after
    ∧ ("t3"%string ∈ hashes)
    ∧ mkTemplate None "h4" "0d" ∈ txs
    ∧ length hashes + length txs = 2
    ∧ after = [].
Proof.
  destruct (remember_tx_splits_by_remote_view (B := Reference.bitcoinjs)
              Reference.twoMiners
              [("t1", Reference.withTxid); ("h2", Reference.withoutTxid);
               ("t3", mkTemplate (Some "t3") "h3" "0c");
               ("h4", mkTemplate None "h4" "0d")]%string
              "10.0.0.2:9333" 1
              (mkNode (B := Reference.bitcoinjs) "10.0.0.2:9333" ∅ {[ "t3"%string ]}
                 [Version] false))
    as (n' & hashes & txs & after & Hn' & Hsent & Hafter & Hhashes & Htxs & Hlen
        & _ & Hid & Hh).
  - discriminate.
  - reflexivity.
  - reflexivity.
  - exists n', hashes, txs, after. split; [exact Hn'|]. split; [exact Hsent|].
    split; [|split; [|split; [exact Hlen|]]].
    + apply Hhashes. split; [by apply elem_of_singleton|].
      exists (mkTemplate (Some "t3"%string) "h3" "0c").
      split; [|by apply Hid].
      vm_compute. apply list_elem_of_here.
    + apply Htxs. split.
      * vm_compute. apply list_elem_of_further, list_elem_of_here.
      * rewrite Hh by by left. simpl. intros Hin.
        by apply elem_of_singleton in Hin.
    + destruct after as [|c after]; [reflexivity|].
      destruct (Hafter c) as (hs & size & ->); [apply list_elem_of_here|].
      exfalso.
      assert (Hn'' := Hn'). vm_compute in Hn''.
      injection Hn'' as <-. simpl in Hsent. by injection Hsent.
Defined.

Lemma known_txs_change_is_announced_witness :
  ∃ n',
    heap (knownTxs_set (B := Reference.bitcoinjs)
            [("a", Reference.template "a" "0a")]%string Reference.knowsTwo) !! 0
    = Some n'
    ∧ sent n' = [Version; Have_tx ["a"; "b"]%string; Losing_tx ["b"%string]].
Proof.
  destruct (known_txs_change_is_announced (B := Reference.bitcoinjs)
              Reference.knowsTwo [("a", Reference.template "a" "0a")]%string
              "10.0.0.1:9333" 0
              (mkNode (B := Reference.bitcoinjs) "10.0.0.1:9333" ∅ ∅
                 [Version; Have_tx ["a"; "b"]%string] false))
    as [(n' & Hn' & Hsent & _) _].
  - reflexivity.
  - reflexivity.
  - exists n'. split; [exact Hn'|]. rewrite Hsent. by vm_compute.
Defined.

Lemma hash_only_remember_tx_witness :
  ∃ n',
    heap (handleRemember_tx (B := Reference.bitcoinjs) 0 ["a"%string] []
            Reference.knowsTwo) !! 0 = Some n'
    ∧ closed n' = false
    ∧ sent n' = [Version; Have_tx ["a"; "b"]%string]
    ∧ rememberedTxs n' !! "a"%string = Some "0a"%string
    ∧ knownTxsCaches (handleRemember_tx (B := Reference.bitcoinjs) 0 ["a"%string] []
                        Reference.knowsTwo) = [∅; ∅].
Proof.
  destruct (hash_only_remember_tx_accepted_exactly_when (B := Reference.bitcoinjs)
              0 ["a"%string] Reference.knowsTwo
              (mkNode (B := Reference.bitcoinjs) "10.0.0.1:9333" ∅ ∅
                 [Version; Have_tx ["a"; "b"]%string] false))
    as [Hacc _].
  - reflexivity.
  - destruct Hacc
      as (n' & Hn' & Hcl & _ & Hsent & _ & Hhashes & _ & _ & _ & _ & _ & Hcaches).
    + split; [simpl; lia|].
      intros h Hin. apply list_elem_of_singleton in Hin as ->.
      split; [reflexivity|]. vm_compute. by eauto.
    + exists n'. split; [exact Hn'|]. split; [exact Hcl|]. split; [exact Hsent|].
      split.
      * destruct (Hhashes "a"%string) as (knownTx & Hl & Hr); [apply list_elem_of_here|].
        vm_compute in Hl. injection Hl as <-. exact Hr.
      * rewrite Hcaches. by vm_compute.
Defined.

(** The same message sent a second time is refused: the sender already
    remembers [a]. *)
Example remember_tx_repeated_evaluated :
  (closed <$> heap (handleRemember_tx (B := Reference.bitcoinjs) 0 ["a"%string] []
                      (handleRemember_tx (B := Reference.bitcoinjs) 0 ["a"%string]
                         [] Reference.knowsTwo)))
  = {[ 0 := true ]}
  ∧ peers (handleRemember_tx (B := Reference.bitcoinjs) 0 ["a"%string] []
             (handleRemember_tx (B := Reference.bitcoinjs) 0 ["a"%string]
                [] Reference.knowsTwo)) = ∅.
Proof. by vm_compute. Qed.

(** A handshake that overlaps a block template: [have_tx] lists the
    keys known when the version was verified (none), and the
    [remember_tx] that follows once that send has settled carries what
    [miningTxs] holds by then. *)
Example handshake_across_template_evaluated :
  sent <$> heap (run (B := Reference.bitcoinjs)
                   [SocketConnected "10.0.0.1:9333"; VersionVerified 0;
                    GbtUpdated [Reference.template "a" "0a"]; Have_txSent 0 true]
                   initial) !! 0
  = Some [Version; Have_tx [];
          Remember_tx [] [Reference.template "a" "0a"];
          Have_tx ["a"%string];
          Remember_tx [] [Reference.template "a" "0a"]].
Proof. by vm_compute. Qed.

(** A block template whose transactions have a [txid] that differs from
    the [hash], no [txid] and an empty [txid]: the maps are keyed by
    [t1], [h2] and [h3], and nothing is held under [h1]. *)
Example updateGbt_keys_evaluated :
  JsMap.keys (miningTxs (updateGbt (B := Reference.bitcoinjs)
                           [Reference.withTxid; Reference.withoutTxid;
                            Reference.emptyTxid] initial))
  = ["t1"; "h2"; "h3"]%string
  ∧ JsMap.get "h1" (knownTxs (updateGbt (B := Reference.bitcoinjs)
                                [Reference.withTxid; Reference.withoutTxid;
                                 Reference.emptyTxid] initial)) = None
  ∧ JsMap.get "t1" (knownTxs (updateGbt (B := Reference.bitcoinjs)
                                [Reference.withTxid; Reference.withoutTxid;
                                 Reference.emptyTxid] initial))
    = Some Reference.withTxid.
Proof. split; [|split]; by vm_compute. Qed.

End CoordinatorScenarios.

(** ** [BaseShare]: the Merkle root under segwit *)

Section SegwitRoot.
Import Js BaseShare.
Context `{P : Primitives}.
Variable cfg : Statics.

Implicit Types (s : BaseShare).

(** X19: with segwit activated for the share's version, a share that
    [init()] accepts has segwit data, and its hash is taken over the
    branch of the txid Merkle link when the share info carries one (the
    share's own [merkleLink] is then not read) and over [merkleLink]
    otherwise. A share info without segwit data never validates: [init()]
    returns [false] at the count check with the share untouched, or it
    throws. *)
Theorem segwit_share_hashes_over_txid_branch s :
  isSegwitActivated cfg (VERSION s) = true →
  ((init cfg s).2 = Ok true →
   ∃ sw gentx,
     segwit (info s) = Some sw
     ∧ computeGentxHash cfg s = Ok gentx
     ∧ hash (init cfg s).1
       = Some (hexFromReversedBuffer
                 (calculateHash (minHeader s)
                    (aggregate (default (merkleLink s) (branch (txidMerkleLink sw)))
                       gentx (λ c n, sha256d (c ++ n))))))
  ∧ (segwit (info s) = None →
     ∀ b, (init cfg s).2 = Ok b → b = false ∧ (init cfg s).1 = s).
Proof.
  intros Hact. split.
  - intros Htrue.
    destruct (init_true_inv cfg s Htrue)
      as (gentx & root & pow & Hg & Hr & _ & _ & _ & ->).
    rewrite Hact in Hr. unfold computeMerkleRoot, chooseLink, mbind, Res_bind in Hr.
    destruct (segwit (info s)) as [sw|]; [|done].
    exists sw, gentx. split; [done|]. split; [done|].
    destruct (branch (txidMerkleLink sw)) as [b|]; simpl in Hr;
      injection Hr as <-; destruct s; reflexivity.
  - intros Hnone b. rewrite init_unfold, Hact.
    destruct (forEach collectRef _ ∅) as [n|e]; simpl; [|done].
    case_bool_decide; simpl; [by intros [= <-]|]. cbv zeta.
    destruct (computeGentxHash cfg s) as [gentx|e]; simpl; [|done].
    unfold computeMerkleRoot, chooseLink, mbind, Res_bind. by rewrite Hnone.
Qed.

End SegwitRoot.

Section SegwitRootScenario.
Import Js BaseShare.

Lemma segwit_share_hashes_over_txid_branch_witness :
  ((init (P := Reference.primitives) Reference.segwitStatics
      (Reference.share Reference.segwitInfo)).2 = Ok true →
   ∃ sw gentx,
     segwit (info (Reference.share Reference.segwitInfo)) = Some sw
     ∧ computeGentxHash Reference.segwitStatics
         (Reference.share Reference.segwitInfo) = Ok gentx
     ∧ hash (init Reference.segwitStatics (Reference.share Reference.segwitInfo)).1
       = Some (hexFromReversedBuffer
                 (calculateHash (minHeader (Reference.share Reference.segwitInfo))
                    (aggregate
                       (default (merkleLink (Reference.share Reference.segwitInfo))
                          (branch (txidMerkleLink sw)))
                       gentx (λ c n, sha256d (c ++ n))))))
  ∧ (segwit (info (Reference.share Reference.segwitInfo)) = None →
     ∀ b, (init Reference.segwitStatics (Reference.share Reference.segwitInfo)).2
          = Ok b →
          b = false
          ∧ (init Reference.segwitStatics (Reference.share Reference.segwitInfo)).1
            = Reference.share Reference.segwitInfo).
Proof.
  apply (segwit_share_hashes_over_txid_branch (P := Reference.primitives)
           Reference.segwitStatics (Reference.share Reference.segwitInfo)).
  reflexivity.
Defined.

(** The segwit share validates; under the same statics the share without
    segwit data ends in a [TypeError]. *)
Example segwit_share_evaluated :
  (init (P := Reference.primitives) Reference.segwitStatics
     (Reference.share Reference.segwitInfo)).2 = Ok true
  ∧ (init (P := Reference.primitives) Reference.segwitStatics
       (Reference.share Reference.someInfo)).2 = Throw TypeError.
Proof. split; by vm_compute. Qed.

End SegwitRootScenario.

Section Reconnection.
Import Peer.
Context `{B : Bitcoinjs}.
Local Open Scope nat_scope.

Implicit Types (st : Peer) (n : Node).

Lemma registryConsistent_initial : registryConsistent initial.
Proof.
  split; simpl.
  - intros t r Ht. by rewrite lookup_empty in Ht.
  - intros r n Hr. by rewrite lookup_empty in Hr.
Qed.

(** X20: [peers] is keyed by tag and [onEnd] deletes by tag. When a peer
    connects again under the tag of a node that is still registered, the
    new node object takes the entry; when the old node then ends, the
    entry of the new one is deleted: the new node object is open, has
    been asked for its version only, is registered nowhere, and a later
    block template sends it nothing. *)
Theorem old_connection_end_unregisters_new_node st (t : string) (r : nat) n
    (transactions : list TransactionTemplate) :
  registryConsistent st →
  peers st !! t = Some r →
  heap st !! r = Some n →
  ∃ n',
    heap (onEnd r (onSocketConnected t st)) !! fresh (dom (heap st)) = Some n'
    ∧ tag n' = t ∧ closed n' = false ∧ sent n' = [Version]
    ∧ peers (onSocketConnected t st) !! t = Some (fresh (dom (heap st)))
    ∧ peers (onEnd r (onSocketConnected t st)) !! t = None
    ∧ (fresh (dom (heap st))
       ∉ (map_img (peers (onEnd r (onSocketConnected t st))) : gset nat))
    ∧ heap (updateGbt transactions (onEnd r (onSocketConnected t st)))
        !! fresh (dom (heap st)) = Some n'.
Proof.
  intros [Hreg _] Ht Hr.
  destruct (Hreg t r Ht) as (n0 & Hr0 & Htag).
  assert (n0 = n) as -> by congruence.
  set (r' := fresh (dom (heap st))).
  assert (Hfresh : heap st !! r' = None).
  { apply not_elem_of_dom. apply is_fresh. }
  assert (Hne : r ≠ r') by (intros ->; congruence).
  set (n' := send Version (newNode t)).
  assert (Hst1 : onSocketConnected t st
                 = set_peers (<[t := r']> (peers st))
                     (set_heap (<[r' := n']> (heap st)) st)).
  { unfold onSocketConnected, initNode. fold r'. simpl.
    by rewrite lookup_insert_eq. }
  assert (Hst2 : onEnd r (onSocketConnected t st)
                 = set_peers (delete t (<[t := r']> (peers st)))
                     (set_heap (<[r' := n']> (heap st)) st)).
  { rewrite Hst1. unfold onEnd. simpl. rewrite lookup_insert_ne by done.
    rewrite Hr. by rewrite Htag. }
  assert (Hnot : r' ∉ (map_img (peers (onEnd r (onSocketConnected t st)))
                        : gset nat)).
  { rewrite Hst2. simpl. intros Hin. apply elem_of_map_img in Hin as [t' Ht'].
    apply lookup_delete_Some in Ht' as [Hne' Ht'].
    rewrite lookup_insert_ne in Ht' by done.
    destruct (Hreg t' r' Ht') as (? & Hin & _). congruence. }
  assert (Hn' : heap (onEnd r (onSocketConnected t st)) !! r' = Some n').
  { rewrite Hst2. simpl. by rewrite lookup_insert_eq. }
  exists n'. split; [done|]. split; [done|]. split; [done|]. split; [done|].
  split; [rewrite Hst1; simpl; by rewrite lookup_insert_eq|].
  split; [rewrite Hst2; simpl; by rewrite lookup_delete_eq|].
  split; [done|].
  unfold updateGbt.
  set (mining := foldl _ [] transactions). set (known := foldl _ _ transactions).
  pose proof (heap_miningTxs_set mining _ r' n' Hn') as H1.
  rewrite bool_decide_eq_false_2 in H1 by done.
  pose proof (heap_knownTxs_set known _ r' n' H1) as H2.
  rewrite peers_miningTxs_set, bool_decide_eq_false_2 in H2 by done.
  exact H2.
Qed.

End Reconnection.

Section ReconnectionScenario.
Import Peer.
Local Open Scope nat_scope.

Lemma old_connection_end_unregisters_new_node_witness :
  ∃ n',
    heap (onEnd 0 (onSocketConnected (B := Reference.bitcoinjs) "10.0.0.1:9333"
                     Reference.knowsTwo)) !! 1 = Some n'
    ∧ sent n' = [Version]
    ∧ closed n' = false
    ∧ peers (onEnd 0 (onSocketConnected (B := Reference.bitcoinjs) "10.0.0.1:9333"
                        Reference.knowsTwo)) !! "10.0.0.1:9333"%string = None
    ∧ heap (updateGbt [Reference.template "c" "0c"]
              (onEnd 0 (onSocketConnected (B := Reference.bitcoinjs)
                          "10.0.0.1:9333" Reference.knowsTwo))) !! 1 = Some n'.
Proof.
  destruct (old_connection_end_unregisters_new_node (B := Reference.bitcoinjs)
              Reference.knowsTwo "10.0.0.1:9333" 0
              (mkNode (B := Reference.bitcoinjs) "10.0.0.1:9333" ∅ ∅
                 [Version; Have_tx ["a"; "b"]%string] false)
              [Reference.template "c" "0c"])
    as (n' & Hn' & _ & Hcl & Hsent & _ & Hp & _ & Hgbt).
  - unfold Reference.knowsTwo.
    eapply (registry_later (λ _, True)).
    + apply later_knownTxs_set; [done|]. intros k Hk. by vm_compute in Hk.
    + apply registry_onSocketConnected, registryConsistent_initial.
  - reflexivity.
  - reflexivity.
  - exists n'. split; [exact Hn'|]. split; [exact Hsent|]. split; [exact Hcl|].
    split; [exact Hp|exact Hgbt].
Defined.

End ReconnectionScenario.
